(** * Filename grammars, key normalisation and the matching loops of the
      PDF rename / copy / move scripts

    The three scripts ([main.py], [match_pdfs.py], [match_pdfs_by_name.py])
    are embedded as Rocq functions.  A Python [str] is a list of Unicode code
    points; [set] and [dict] are stdpp's [gset] and [gmap]; the regular
    expressions are abstract syntax run by a backtracking matcher that follows
    the priority rules of Python's [re] module. *)

From Stdlib Require Import String Ascii NArith ZArith Lia.
From stdpp Require Import gmap list.

Set Default Proof Using "Type".

(** A Python string: a sequence of code points. *)
Abbreviation str := (list N).

(* ===================================================================== *)
(** ** Python's [str] builtins *)
(* ===================================================================== *)

Module Text.

Local Open Scope N_scope.

(** UTF-8 decoding, used only to write string constants legibly. *)
Fixpoint utf8_decode (bs : list N) : str :=
  match bs with
  | [] => []
  | b0 :: r0 =>
    if b0 <? 0x80 then b0 :: utf8_decode r0
    else match r0 with
    | [] => []
    | b1 :: r1 =>
      if b0 <? 0xE0 then ((b0 - 0xC0) * 64 + (b1 - 0x80)) :: utf8_decode r1
      else match r1 with
      | [] => []
      | b2 :: r2 =>
        if b0 <? 0xF0
        then ((b0 - 0xE0) * 4096 + (b1 - 0x80) * 64 + (b2 - 0x80)) :: utf8_decode r2
        else match r2 with
        | [] => []
        | b3 :: r3 =>
          ((b0 - 0xF0) * 262144 + (b1 - 0x80) * 4096 + (b2 - 0x80) * 64 + (b3 - 0x80))
            :: utf8_decode r3
        end
      end
    end
  end.

Definition py (s : string) : str :=
  utf8_decode (map N_of_ascii (list_ascii_of_string s)).

(** First code points of the runs of ten consecutive decimal digits
    (general category Nd, Unicode 14.0): the characters [\d] matches and
    that [int] and [float] read as digits. *)
Definition decimal_runs : list N :=
  [ 48; 1632; 1776; 1984; 2406; 2534; 2662; 2790; 2918; 3046; 3174; 3302;
    3430; 3558; 3664; 3792; 3872; 4160; 4240; 6112; 6160; 6470; 6608; 6784;
    6800; 6992; 7088; 7232; 7248; 42528; 43216; 43264; 43472; 43504; 43600;
    44016; 65296; 66720; 68912; 69734; 69872; 69942; 70096; 70384; 70736;
    70864; 71248; 71360; 71472; 71904; 72016; 72784; 73040; 73120; 92768;
    92864; 93008; 120782; 120792; 120802; 120812; 120822; 123200; 123632;
    125264; 130032 ].

(** The digit value of a code point, if it is a decimal digit. *)
Fixpoint digit_in (runs : list N) (c : N) : option N :=
  match runs with
  | [] => None
  | z :: runs' =>
    if (z <=? c) && (c <? z + 10) then Some (c - z) else digit_in runs' c
  end.

Definition digit_value (c : N) : option N := digit_in decimal_runs c.

Definition isdecimal (c : N) : bool :=
  match digit_value c with Some _ => true | None => false end.

(** [str.isspace] on one code point: what [str.strip()] removes. *)
Definition isspace (c : N) : bool :=
  ((9 <=? c) && (c <=? 13)) || ((28 <=? c) && (c <=? 32))
  || (c =? 0x85) || (c =? 0xA0) || (c =? 0x1680)
  || ((0x2000 <=? c) && (c <=? 0x200A))
  || (c =? 0x2028) || (c =? 0x2029) || (c =? 0x202F) || (c =? 0x205F)
  || (c =? 0x3000).

Fixpoint lstrip (s : str) : str :=
  match s with
  | c :: s' => if isspace c then lstrip s' else s
  | [] => []
  end.

Definition rstrip (s : str) : str := rev (lstrip (rev s)).

Definition strip (s : str) : str := rstrip (lstrip s).

(** Case mapping, of the Basic Latin letters.  The scripts change the case
    of ID tokens (decimal digits and the letter X), of the text they compare
    with an ID token, and of a file extension they compare with [.xls]; no
    character outside Basic Latin maps to one of these. *)
Definition upper_cp (c : N) : N :=
  if (97 <=? c) && (c <=? 122) then c - 32 else c.

Definition lower_cp (c : N) : N :=
  if (65 <=? c) && (c <=? 90) then c + 32 else c.

Definition upper (s : str) : str := map upper_cp s.
Definition lower (s : str) : str := map lower_cp s.

Fixpoint startswith (s p : str) : bool :=
  match p, s with
  | [], _ => true
  | x :: p', c :: s' => (c =? x) && startswith s' p'
  | _ :: _, [] => false
  end.

Definition endswith (s p : str) : bool := startswith (rev s) (rev p).

(** [sub in s] *)
Fixpoint contains (s sub : str) : bool :=
  startswith s sub ||
  match s with
  | [] => false
  | _ :: s' => contains s' sub
  end.

(** [s.replace(old, new)] for a non-empty [old]: occurrences are replaced
    from left to right and do not overlap; [skip] counts the code points of
    an occurrence that are still to be passed over. *)
Fixpoint replace_from (old new s : str) (skip : nat) : str :=
  match s with
  | [] => []
  | c :: s' =>
    match skip with
    | S n => replace_from old new s' n
    | O =>
      if startswith s old
      then new ++ replace_from old new s' (length old - 1)
      else c :: replace_from old new s' 0
    end
  end.

Definition replace (s old new : str) : str := replace_from old new s 0.

(** [s[n:]] and [s[:-n]] for [n > 0]. *)
Definition slice_from (n : nat) (s : str) : str := drop n s.
Definition slice_to_minus (n : nat) (s : str) : str := take (length s - n) s.

(** [str(n)] for a natural number, most significant digit first. *)
Fixpoint digits_fuel (fuel : nat) (n : N) (acc : str) : str :=
  match fuel with
  | O => acc
  | S fuel' =>
    let acc' := (48 + n mod 10) :: acc in
    if n <? 10 then acc' else digits_fuel fuel' (n / 10) acc'
  end.

Definition str_of_N (n : N) : str := digits_fuel (S (N.to_nat (N.log2 n))) n [].

(** The number an ASCII digit string denotes. *)
Definition dec_value (s : str) : N := fold_left (λ acc c, 10 * acc + (c - 48)) s 0.

(** [str(z)] for an integer. *)
Definition str_of_Z (z : Z) : str :=
  match z with
  | Zneg p => 45 :: str_of_N (Npos p)
  | _ => str_of_N (Z.to_N z)
  end.

(** *** [float(s)] and [int(x)]

    [float] reads a decimal literal and rounds its value to the nearest
    binary64 number, ties to even.  A binary64 value is kept as a sign, an
    integer significand and a binary exponent. *)
Inductive float :=
  | Finite (neg : bool) (m : Z) (e : Z)     (* (-1)^neg * m * 2^e *)
  | Inf (neg : bool)
  | NaN.

Local Open Scope Z_scope.

(** The integer nearest to [a / b], ties to even ([0 < b]). *)
Definition round_half_even (a b : Z) : Z :=
  let q := a / b in
  match 2 * (a mod b) ?= b with
  | Lt => q
  | Gt => q + 1
  | Eq => if Z.even q then q else q + 1
  end.

(** [floor (log2 (a / b))] for [0 < a] and [0 < b]. *)
Definition floor_log2_ratio (a b : Z) : Z :=
  if b <=? a then Z.log2 (a / b) else - (Z.log2 ((b - 1) / a) + 1).

(** The binary64 number nearest to [a / b] ([0 <= a], [0 < b]): 53
    significant bits, exponents from -1074, overflow to infinity. *)
Definition round_binary64 (neg : bool) (a b : Z) : float :=
  if a =? 0 then Finite neg 0 0
  else
    let e := Z.max (floor_log2_ratio a b - 52) (-1074) in
    let m := if 0 <=? e then round_half_even a (b * 2 ^ e)
             else round_half_even (a * 2 ^ (- e)) b in
    if 1024 <=? Z.log2 m + e then Inf neg else Finite neg m e.

(** Before parsing, [float] turns every non-ASCII decimal digit into its
    ASCII digit and every non-ASCII space into a blank; any other non-ASCII
    character becomes [?], which no literal contains. *)
Definition to_ascii (c : N) : N :=
  if (c <? 127)%N then c
  else if isspace c then 32%N
  else match digit_value c with
       | Some d => (48 + d)%N
       | None => 63%N
       end.

Definition is_ascii_digit (c : N) : bool := ((48 <=? c) && (c <=? 57))%N.

(** Underscores may stand between two digits only (checked on the whole
    argument, then removed).  [prev] is the previous character. *)
Fixpoint drop_underscores (prev : N) (s : str) : option str :=
  match s with
  | [] => if (prev =? 95)%N then None else Some []
  | c :: s' =>
    if (c =? 95)%N
    then if is_ascii_digit prev then drop_underscores c s' else None
    else if (prev =? 95)%N && negb (is_ascii_digit c) then None
    else cons c <$> drop_underscores c s'
  end.

Definition c_isspace (c : N) : bool := (((9 <=? c) && (c <=? 13)) || (c =? 32))%N.

Fixpoint c_lstrip (s : str) : str :=
  match s with
  | c :: s' => if c_isspace c then c_lstrip s' else s
  | [] => []
  end.

Definition c_strip (s : str) : str := rev (c_lstrip (rev (c_lstrip s))).

(** The leading ASCII digits of [s], as digit values, and what follows. *)
Fixpoint span_digits (s : str) : list Z * str :=
  match s with
  | c :: s' =>
    if is_ascii_digit c
    then let '(ds, rest) := span_digits s' in (Z.of_N (c - 48) :: ds, rest)
    else ([], s)
  | [] => ([], [])
  end.

(** The digit values of an ASCII digit string. *)
Definition digit_values (l : str) : list Z := map (λ c, Z.of_N (c - 48)) l.

Definition digits_value (ds : list Z) : Z := fold_left (λ acc d, 10 * acc + d) ds 0.

(** An optional sign. *)
Definition read_sign (s : str) : bool * str :=
  match s with
  | c :: s' =>
    if (c =? 45)%N then (true, s')
    else if (c =? 43)%N then (false, s')
    else (false, s)
  | [] => (false, [])
  end.

(** The exponent part [[eE][+-]?digits], which must reach the end. *)
Definition read_exponent (s : str) : option Z :=
  match s with
  | [] => Some 0
  | c :: s' =>
    if ((c =? 101) || (c =? 69))%N then
      let '(neg, s'') := read_sign s' in
      match span_digits s'' with
      | (d :: ds, []) =>
        let x := digits_value (d :: ds) in Some (if neg then - x else x)
      | _ => None
      end
    else None
  end.

(** [digits [. [digits]] [exponent]] or [. digits [exponent]]: the value as
    a significand and a power of ten. *)
Definition read_decimal (s : str) : option (Z * Z) :=
  let '(ip, s1) := span_digits s in
  let '(fp, s2) :=
    match s1 with
    | c :: s1' => if (c =? 46)%N then span_digits s1' else ([], s1)
    | [] => ([], [])
    end in
  match ip ++ fp with
  | [] => None
  | _ =>
    match read_exponent s2 with
    | Some x => Some (digits_value (ip ++ fp), x - Z.of_nat (length fp))
    | None => None
    end
  end.

(** [float(s)]; [None] stands for [ValueError]. *)
Definition float_of_str (s : str) : option float :=
  let t := map to_ascii s in
  match (if bool_decide (95%N ∈ t) then drop_underscores 0%N t else Some t) with
  | None => None
  | Some t' =>
    let '(neg, body) := read_sign (c_strip t') in
    let name := lower body in
    if bool_decide (name = [105; 110; 102]%N)
       || bool_decide (name = [105; 110; 102; 105; 110; 105; 116; 121]%N)
    then Some (Inf neg)
    else if bool_decide (name = [110; 97; 110]%N) then Some NaN
    else
      match read_decimal body with
      | Some (m, x) =>
        Some (if 0 <=? x then round_binary64 neg (m * 10 ^ x) 1
              else round_binary64 neg m (10 ^ (- x)))
      | None => None
      end
  end.

(** [int(x)] truncates towards zero; [None] stands for the [OverflowError]
    of an infinity and the [ValueError] of a NaN. *)
Definition int_of_float (x : float) : option Z :=
  match x with
  | Finite neg m e =>
    let v := if 0 <=? e then m * 2 ^ e else m / 2 ^ (- e) in
    Some (if neg then - v else v)
  | Inf _ => None
  | NaN => None
  end.

Local Close Scope Z_scope.

End Text.

Import Text.

(* ===================================================================== *)
(** ** Regular expressions: the fragment of Python's [re] the scripts use *)
(* ===================================================================== *)

Module re.

(** One-character matchers. *)
Inductive atom :=
  | Dot                    (* [.]  : anything but a newline (no DOTALL) *)
  | Digit                  (* [\d] : a Unicode decimal digit *)
  | Chr (x : N)            (* a literal character *)
  | Either (a b : atom).   (* a two-item class such as [[\dX]] *)

Inductive regex :=
  | Lit (l : str)                  (* a literal run of characters *)
  | One (a : atom)
  | Times (n : nat) (a : atom)     (* [a{n}] *)
  | Plus (a : atom)                (* [a+]  greedy *)
  | PlusLazy (a : atom)            (* [a+?] lazy *)
  | Opt (r : regex)                (* [(?:r)?] greedy *)
  | Group (i : nat) (r : regex)    (* the i-th capturing group [(r)] *)
  | Cat (r1 r2 : regex)
  | Bol                            (* [^] *)
  | Eol.                           (* [$] : at the end or before a final newline *)

Infix "·" := Cat (at level 60, right associativity).

(** The capture groups of a match in progress. *)
Abbreviation groups := (gmap nat str).

Section matcher.
(** [ic] is the [re.IGNORECASE] flag.  With it a literal matches a code
    point with the same lower-case form; for the literals of these scripts
    (CJK characters, [_], [.], [p], [d], [f], [X]) the Basic Latin case
    mapping gives exactly the characters [re] accepts. *)
Variable ic : bool.
Context {A : Type}.

Definition chr_ok (x c : N) : bool :=
  if ic then (lower_cp c =? lower_cp x)%N else (c =? x)%N.

Fixpoint atom_ok (a : atom) (c : N) : bool :=
  match a with
  | Dot => negb (c =? 10)%N
  | Digit => isdecimal c
  | Chr x => chr_ok x c
  | Either a b => atom_ok a c || atom_ok b c
  end.

(** Matchers in continuation-passing style: [k] is the rest of the
    pattern; returning [None] makes the caller backtrack. *)
Fixpoint lit (l : str) (s : str) (k : str → option A) : option A :=
  match l with
  | [] => k s
  | x :: l' =>
    match s with
    | c :: s' => if chr_ok x c then lit l' s' k else None
    | [] => None
    end
  end.

Fixpoint times (n : nat) (a : atom) (s : str) (k : str → option A) : option A :=
  match n with
  | O => k s
  | S n' =>
    match s with
    | c :: s' => if atom_ok a c then times n' a s' k else None
    | [] => None
    end
  end.

(** Greedy: take as many as possible, give back one at a time. *)
Fixpoint plus (a : atom) (s : str) (k : str → option A) : option A :=
  match s with
  | c :: s' =>
    if atom_ok a c
    then match plus a s' k with Some x => Some x | None => k s' end
    else None
  | [] => None
  end.

(** Lazy: take one, then try the rest of the pattern before taking more. *)
Fixpoint plus_lazy (a : atom) (s : str) (k : str → option A) : option A :=
  match s with
  | c :: s' =>
    if atom_ok a c
    then match k s' with Some x => Some x | None => plus_lazy a s' k end
    else None
  | [] => None
  end.

(** [whole] is the subject string, [s] what is left of it. *)
Variable whole : str.

Fixpoint run (r : regex) (s : str) (g : groups)
    (k : str → groups → option A) : option A :=
  match r with
  | Lit l => lit l s (λ s', k s' g)
  | One a => times 1 a s (λ s', k s' g)
  | Times n a => times n a s (λ s', k s' g)
  | Plus a => plus a s (λ s', k s' g)
  | PlusLazy a => plus_lazy a s (λ s', k s' g)
  | Opt r' =>
    match run r' s g k with
    | Some x => Some x
    | None => k s g
    end
  | Group i r' =>
    run r' s g (λ s' g', k s' (<[i := take (length s - length s') s]> g'))
  | Cat r1 r2 => run r1 s g (λ s' g', run r2 s' g' k)
  | Bol => if decide (length s = length whole) then k s g else None
  | Eol => if decide (s = [] ∨ s = [10%N]) then k s g else None
  end.
End matcher.

(** A match object: the text of group 0 and the capture groups. *)
Record match_obj := { group0 : str; captures : groups }.

Definition group (m : match_obj) (i : nat) : str := default [] (captures m !! i).

Definition match_at (ic : bool) (whole : str) (r : regex) (s : str) : option match_obj :=
  run ic whole r s ∅
    (λ s' g, Some {| group0 := take (length s - length s') s; captures := g |}).

(** [re.match(r, s)]: a match starting at the first character. *)
Definition match_ (ic : bool) (r : regex) (s : str) : option match_obj :=
  match_at ic s r s.

(** [re.search(r, s)]: the match at the leftmost position that has one. *)
Fixpoint search_from (ic : bool) (whole : str) (r : regex) (s : str) : option match_obj :=
  match match_at ic whole r s with
  | Some m => Some m
  | None =>
    match s with
    | [] => None
    | _ :: s' => search_from ic whole r s'
    end
  end.

Definition search (ic : bool) (r : regex) (s : str) : option match_obj :=
  search_from ic s r s.

(** [re.findall(r, s)] for a pattern without groups that matches no empty
    string: the matched texts, left to right, without overlap.  [skip]
    counts the characters of the last match still to be passed over. *)
Fixpoint findall_from (ic : bool) (whole : str) (r : regex) (s : str) (skip : nat)
    : list str :=
  match s with
  | [] => []
  | _ :: s' =>
    match skip with
    | S n => findall_from ic whole r s' n
    | O =>
      match match_at ic whole r s with
      | Some m => group0 m :: findall_from ic whole r s' (length (group0 m) - 1)
      | None => findall_from ic whole r s' 0
      end
    end
  end.

Definition findall (ic : bool) (r : regex) (s : str) : list str :=
  findall_from ic s r s 0.

(** Characters without a case: with [re.IGNORECASE] they match only
    themselves. *)
Definition uncased (x : N) : Prop := (¬ (65 ≤ x ≤ 90) ∧ ¬ (97 ≤ x ≤ 122))%N.

(** *** What a pattern matches

    [matches r s1 s2 g g'] : with [s2] still to come, [r] can consume [s1]
    and turn the capture groups [g] into [g'].  The matcher above is a search
    for such a split; that is proved below. *)
Section semantics.
Variable ic : bool.
Variable whole : str.

Definition all_ok (a : atom) (s : str) : Prop :=
  Forall (λ c, atom_ok ic a c = true) s.

Definition lit_ok (l s : str) : Prop :=
  Forall2 (λ x c, chr_ok ic x c = true) l s.

Fixpoint matches (r : regex) (s1 s2 : str) (g g' : groups) : Prop :=
  match r with
  | Lit l => lit_ok l s1 ∧ g' = g
  | One a => length s1 = 1 ∧ all_ok a s1 ∧ g' = g
  | Times n a => length s1 = n ∧ all_ok a s1 ∧ g' = g
  | Plus a => s1 ≠ [] ∧ all_ok a s1 ∧ g' = g
  | PlusLazy a => s1 ≠ [] ∧ all_ok a s1 ∧ g' = g
  | Opt r' => (s1 = [] ∧ g' = g) ∨ matches r' s1 s2 g g'
  | Group i r' => ∃ gm, matches r' s1 s2 g gm ∧ g' = <[i := s1]> gm
  | Cat r1 r2 =>
    ∃ a b gm, s1 = a ++ b ∧ matches r1 a (b ++ s2) g gm ∧ matches r2 b s2 gm g'
  | Bol => s1 = [] ∧ length s2 = length whole ∧ g' = g
  | Eol => s1 = [] ∧ (s2 = [] ∨ s2 = [10%N]) ∧ g' = g
  end.
End semantics.

End re.

Import re.

(** The ID token of [match_pdfs.py]: seventeen decimal digits, then a
    decimal digit or the letter X in either case. *)
Definition is_id_token (t : str) : bool :=
  bool_decide (length t = 18)
  && forallb isdecimal (take 17 t)
  && forallb (λ c, isdecimal c || (c =? 88)%N || (c =? 120)%N) (drop 17 t).

(** The characters of an ID token. *)
Definition id_char (c : N) : Prop := isdecimal c = true ∨ c = 88%N ∨ c = 120%N.

(** Exactly one of three counters goes up, by one. *)
Definition bumps_one (a b c a' b' c' : nat) : Prop :=
  (a' = S a ∧ b' = b ∧ c' = c) ∨ (a' = a ∧ b' = S b ∧ c' = c)
  ∨ (a' = a ∧ b' = b ∧ c' = S c).

(* ===================================================================== *)
(** ** What the scripts use of pandas and pathlib *)
(* ===================================================================== *)

Module pandas.

(** A spreadsheet cell as the scripts see it: missing ([pd.isna]), or a
    value with the text [str] gives for it. *)
Inductive cell :=
  | Na
  | Val (text : str).

Definition isna (c : cell) : bool :=
  match c with Na => true | Val _ => false end.

Definition NAN : str := Eval vm_compute in py "nan".

(** [str(c)] *)
Definition str_of_cell (c : cell) : str :=
  match c with Na => NAN | Val t => t end.

(** A table that [pd.read_excel] has read: the column labels, which are
    distinct, and the rows. *)
Record DataFrame := { columns : list str; rows : list (list cell) }.

(** [row[col]] *)
Definition at_col (df : DataFrame) (row : list cell) (col : str) : cell :=
  match list_find (λ label, label = col) (columns df) with
  | Some (i, _) => default Na (row !! i)
  | None => Na
  end.


(** Every row has a cell for every column. *)
Definition well_formed (df : DataFrame) : Prop :=
  Forall (λ row, length row = length (columns df)) (rows df).

(** [df[col] = v] for a column that is not there yet: a new last column. *)
Definition add_column (df : DataFrame) (col : str) (v : cell) : DataFrame :=
  {| columns := columns df ++ [col]; rows := (λ row, row ++ [v]) <$> rows df |}.

(** [row] with the cell of column [col] set to [v]. *)
Definition set_col (df : DataFrame) (col : str) (v : cell) (row : list cell) : list cell :=
  match list_find (λ label, label = col) (columns df) with
  | Some (j, _) => <[j := v]> row
  | None => row
  end.

(** [df.at[idx, col] = v] for a column of the table.  [takes] tells whether
    the column takes the value.  A column of texts takes a text; for a column
    of another dtype pandas 2 converts the column and warns, pandas 3 raises
    [TypeError] and leaves the table as it is: [None]. *)
Definition set_at (df : DataFrame) (takes : bool) (idx : nat) (col : str) (v : cell)
    : option DataFrame :=
  if takes
  then Some {| columns := columns df; rows := alter (set_col df col v) idx (rows df) |}
  else None.

(** The engines of [pd.read_excel]. *)
Inductive engine := xlrd | openpyxl.

End pandas.

Module pathlib.

(** [name.rfind('.')]: the index of the last dot. *)
Fixpoint rfind_dot (name : str) : option nat :=
  match name with
  | [] => None
  | c :: name' =>
    match rfind_dot name' with
    | Some i => Some (S i)
    | None => if (c =? 46)%N then Some 0 else None
    end
  end.

(** Whether [0 < i < len(name) - 1] holds of the last dot. *)
Definition suffix_at (name : str) : option nat :=
  match rfind_dot name with
  | Some i => if bool_decide (0 < i ∧ i < length name - 1) then Some i else None
  | None => None
  end.

(** [PurePath.suffix] and [PurePath.stem], on the final path component. *)
Definition suffix (name : str) : str :=
  match suffix_at name with Some i => drop i name | None => [] end.

Definition stem (name : str) : str :=
  match suffix_at name with Some i => take i name | None => name end.

(** [PurePath.with_suffix], for the valid suffixes the scripts pass. *)
Definition with_suffix (name new_suffix : str) : str :=
  let old_suffix := suffix name in
  match old_suffix with
  | [] => name ++ new_suffix
  | _ => take (length name - length old_suffix) name ++ new_suffix
  end.

End pathlib.

(** The join-key clean-up shared by the loaders ([main.py] lines 88-93,
    [match_pdfs.py] lines 102-107 and 304-309):
    [if '.' in key: try: key = str(int(float(key))) except ...: pass]. *)
Definition DOT : str := [46%N].

(** The text [.0] that the spreadsheet reader puts after whole numbers. *)
Definition POINT_ZERO : str := [46%N; 48%N].

Definition normalize_key (key : str) : str :=
  if contains key DOT then
    match float_of_str key with
    | Some x =>
      match int_of_float x with
      | Some z => str_of_Z z
      | None => key
      end
    | None => key
    end
  else key.

(** The row filter of the loaders:
    [pd.isna(cell) or text == 'nan' or text == '']. *)
Definition blank (c : pandas.cell) : bool :=
  let text := strip (pandas.str_of_cell c) in
  pandas.isna c || bool_decide (text = pandas.NAN) || bool_decide (text = []).

(* ===================================================================== *)
(** ** Opening the spreadsheet (the same lines in the three scripts) *)
(* ===================================================================== *)

Module excel.

Definition XLS : str := Eval vm_compute in py ".xls".
Definition XLSX : str := Eval vm_compute in py ".xlsx".
Definition XLSM : str := Eval vm_compute in py ".xlsm".

(** [main.py] lines 33-40: the engines to try, by the lower-cased suffix. *)
Definition preferred_engines (file_ext : str) : list pandas.engine :=
  if bool_decide (file_ext = XLS) then [pandas.xlrd; pandas.openpyxl]
  else if bool_decide (file_ext ∈ [XLSX; XLSM]) then [pandas.openpyxl; pandas.xlrd]
  else [pandas.xlrd; pandas.openpyxl].

(** What opening the spreadsheet gives. *)
Inductive result (DF E : Type) :=
  | Loaded (df : DF)
  | FileNotFoundError
  | ValueError (last_error : option E).

Arguments Loaded {DF E} df.
Arguments FileNotFoundError {DF E}.
Arguments ValueError {DF E} last_error.

Section read.
Context {DF E : Type}.
(** [pd.read_excel(excel_path, engine=engine)]: a table, or the exception
    raised. *)
Variable read_excel : pandas.engine → DF + E.

(** Lines 43-51: [for engine in preferred_engines], leaving at the first
    engine that reads the file. *)
Fixpoint try_engines (engines : list pandas.engine) (last_error : option E)
    : DF + option E :=
  match engines with
  | [] => inr last_error
  | engine :: engines' =>
    match read_excel engine with
    | inl df => inl df
    | inr e => try_engines engines' (Some e)
    end
  end.

(** Lines 28-55: the file must exist, and one engine must read it. *)
Definition load (file_exists : bool) (file_name : str) : result DF E :=
  if negb file_exists then FileNotFoundError
  else
    let file_ext := lower (pathlib.suffix file_name) in
    match try_engines (preferred_engines file_ext) None with
    | inl df => Loaded df
    | inr last_error => ValueError last_error
    end.
End read.

End excel.

(* ===================================================================== *)
(** ** main.py : the rename pipeline *)
(* ===================================================================== *)

Module main.

Definition PREFIX : str := Eval vm_compute in py "协商解除劳动合同协议书_".
Definition DOT_PDF : str := Eval vm_compute in py ".pdf".
Definition CONTRACT : str := Eval vm_compute in py "合同编号".
Definition NAME : str := Eval vm_compute in py "姓名".
Definition ID_NUMBER : str := Eval vm_compute in py "身份证号".
Definition ID_CARD : str := Eval vm_compute in py "身份证".

(** The three column variables of [read_excel_mapping]. *)
Record columns := {
  contract_col : option str;
  name_col : option str;
  id_col : option str
}.

(** One iteration of [for col in df.columns] (lines 61-68). *)
Definition scan_column (cs : columns) (col : str) : columns :=
  let col_str := strip col in
  if contains col_str CONTRACT then
    {| contract_col := Some col; name_col := name_col cs; id_col := id_col cs |}
  else if contains col_str NAME then
    {| contract_col := contract_col cs; name_col := Some col; id_col := id_col cs |}
  else if contains col_str ID_NUMBER || contains col_str ID_CARD then
    {| contract_col := contract_col cs; name_col := name_col cs; id_col := Some col |}
  else cs.

Definition find_columns (header : list str) : columns :=
  fold_left scan_column header
    {| contract_col := None; name_col := None; id_col := None |}.

(** Whether a header carries the contract-number marker. *)
Definition has_contract (col : str) : bool := contains (strip col) CONTRACT.

(** A header row with two contract-number columns, and a table with it. *)
Definition two_contract_columns : list str :=
  [py "合同编号"; py "姓名"; py "身份证号"; py "原合同编号"].

Definition renumbered : pandas.DataFrame :=
  {| pandas.columns := two_contract_columns;
     pandas.rows := [[pandas.Val (py "12345"); pandas.Val (py "张三");
                      pandas.Val (py "110101199001011234"); pandas.Val (py "777")]] |}.

(** One iteration of [for idx, row in df.iterrows()] (lines 79-95); a row
    is given by its contract, name and ID cells. *)
Definition add_row (mapping : gmap str (str * str))
    (row : pandas.cell * pandas.cell * pandas.cell) : gmap str (str * str) :=
  let '(c, n, i) := row in
  let contract_num := strip (pandas.str_of_cell c) in
  let name := strip (pandas.str_of_cell n) in
  let id_num := strip (pandas.str_of_cell i) in
  if blank c then mapping
  else <[normalize_key contract_num := (name, id_num)]> mapping.

(** What a row contributes to the mapping: nothing for a blank contract
    cell, else its key and payload. *)
Definition row_entry (row : pandas.cell * pandas.cell * pandas.cell)
    : option (str * (str * str)) :=
  let '(c, n, i) := row in
  if blank c then None
  else Some (normalize_key (strip (pandas.str_of_cell c)),
             (strip (pandas.str_of_cell n), strip (pandas.str_of_cell i))).

(** The cells of the three resolved columns, row by row. *)
Definition triples (df : pandas.DataFrame) (c n i : str)
    : list (pandas.cell * pandas.cell * pandas.cell) :=
  (λ row, (pandas.at_col df row c, pandas.at_col df row n, pandas.at_col df row i))
    <$> pandas.rows df.

(** [read_excel_mapping], from the table on; [None] stands for the
    [ValueError] of a missing column. *)
Definition read_excel_mapping (df : pandas.DataFrame) : option (gmap str (str * str)) :=
  let cs := find_columns (pandas.columns df) in
  match contract_col cs, name_col cs, id_col cs with
  | Some c, Some n, Some i =>
    Some (fold_left add_row
            ((λ row, (pandas.at_col df row c, pandas.at_col df row n, pandas.at_col df row i))
               <$> pandas.rows df) ∅)
  | _, _, _ => None
  end.

(** [r'协商解除劳动合同协议书_(\d+)\.pdf'] *)
Definition pattern : regex := Lit PREFIX · Group 1 (Plus Digit) · Lit DOT_PDF.

Definition extract_contract_number (pdf_filename : str) : option str :=
  match match_ false pattern pdf_filename with
  | Some m => Some (group m 1)
  | None => None
  end.

Definition digits (d : str) : Prop := Forall (λ c, isdecimal c = true) d.

(** The shape [pattern] accepts at the start of a file name. *)
Definition shape (s d : str) : Prop :=
  d ≠ [] ∧ digits d ∧ ∃ rest, s = PREFIX ++ d ++ DOT_PDF ++ rest.

(** The counters of [rename_pdf_files] and the names present in the folder. *)
Record state := {
  success_count : nat;
  failed_count : nat;
  skipped_count : nat;
  folder : gset str
}.

(** One document processed: one counter up by one. *)
Definition step_ok (st st' : state) : Prop :=
  bumps_one (success_count st) (failed_count st) (skipped_count st)
            (success_count st') (failed_count st') (skipped_count st').

Definition total (st : state) : nat :=
  success_count st + failed_count st + skipped_count st.

Definition empty_text (s : str) : bool :=
  bool_decide (strip s = []) || bool_decide (strip s = pandas.NAN).

(** [/], the path separator (POSIX). *)
Definition SLASH : str := [47%N].

(** Where [target_dir / new_filename] leads: to an entry of the folder
    itself, or somewhere else (into a sub-directory, or out of the folder). *)
Inductive location :=
  | Here (entry : str)
  | Elsewhere.

(** How [rename_pdf_files] ends: the loop has run through ([Finished]), or
    an exception has left it ([Raised]); the state is the one reached. *)
Inductive result :=
  | Finished (st : state)
  | Raised (st : state).

Definition state_of (r : result) : state :=
  match r with Finished st | Raised st => st end.

Section loop.
Variable mapping : gmap str (str * str).
(** Whether [new_path.exists()] raises for this composed name (line 201,
    before the [try] of line 207): [Path.exists] passes on every [OSError]
    but those of a missing path, so a name longer than the file system takes
    raises. *)
Variable exists_raises : str → bool.
(** Where the path of a composed name with a separator leads, and whether a
    path that leads elsewhere exists. *)
Variable nested : str → location.
Variable elsewhere_exists : str → bool.
(** Whether [pdf_file.rename(new_path)] raises for this document. *)
Variable rename_raises : str → bool.

(** [target_dir / new_filename]: a name without separator is an entry of the
    folder. *)
Definition locate (new_filename : str) : location :=
  if contains new_filename SLASH then nested new_filename else Here new_filename.

(** [new_path.exists()], when it does not raise; an entry of the folder is
    taken to exist (no dangling symbolic link). *)
Definition path_exists (st : state) (new_filename : str) : bool :=
  match locate new_filename with
  | Here entry => bool_decide (entry ∈ folder st)
  | Elsewhere => elsewhere_exists new_filename
  end.

Definition skipped (st : state) : state :=
  {| success_count := success_count st; failed_count := failed_count st;
     skipped_count := S (skipped_count st); folder := folder st |}.

Definition failed (st : state) : state :=
  {| success_count := success_count st; failed_count := S (failed_count st);
     skipped_count := skipped_count st; folder := folder st |}.

(** A rename that went through: the document leaves its name, and arrives
    at an entry of the folder when the new path leads to one. *)
Definition renamed (st : state) (old new : str) : state :=
  {| success_count := S (success_count st); failed_count := failed_count st;
     skipped_count := skipped_count st;
     folder := match locate new with
               | Here entry => {[entry]} ∪ (folder st ∖ {[old]})
               | Elsewhere => folder st ∖ {[old]}
               end |}.

(** The body of [for pdf_file in pdf_files] (lines 168-213); [None] is an
    exception that leaves the loop. *)
Definition process (st : state) (pdf_filename : str) : option state :=
  match extract_contract_number pdf_filename with
  | None => Some (skipped st)
  | Some contract_num =>
    match mapping !! contract_num with
    | None => Some (failed st)
    | Some (name, id_num) =>
      if empty_text name then Some (failed st)
      else if empty_text id_num then Some (failed st)
      else
        let new_filename := PREFIX ++ name ++ id_num ++ DOT_PDF in
        if exists_raises new_filename then None
        else if path_exists st new_filename
                && negb (bool_decide (new_filename = pdf_filename))
        then Some (failed st)
        else if rename_raises pdf_filename then Some (failed st)
        else Some (renamed st pdf_filename new_filename)
    end
  end.

(** [for pdf_file in pdf_files]. *)
Fixpoint run (st : state) (pdf_files : list str) : result :=
  match pdf_files with
  | [] => Finished st
  | pdf_filename :: pdf_files' =>
    match process st pdf_filename with
    | Some st' => run st' pdf_files'
    | None => Raised st
    end
  end.

Definition rename_pdf_files (dir : gset str) (pdf_files : list str) : result :=
  run {| success_count := 0; failed_count := 0; skipped_count := 0; folder := dir |}
    pdf_files.
End loop.

(** A file name of more than 255 characters is longer than the 255 bytes
    that the file systems of Linux take for one name: [stat] fails with
    [ENAMETOOLONG], which [Path.exists] passes on. *)
Definition name_too_long (new_filename : str) : bool :=
  bool_decide (255 < length new_filename).

(** Three documents, and a spreadsheet whose second row has a name of 300
    characters. *)
Definition long_name : str := replicate 300 24352%N.
Definition three_rows : gmap str (str * str) :=
  {[ py "1" := (py "张三", py "110101199001011234");
     py "2" := (long_name, py "110101199001011235");
     py "3" := (py "李四", py "110101199001011236") ]}.
Definition three_documents : list str :=
  [py "协商解除劳动合同协议书_1.pdf"; py "协商解除劳动合同协议书_2.pdf";
   py "协商解除劳动合同协议书_3.pdf"].

(** One entry stored in the mapping: [mapping[contract_num] = (name, id_num)]. *)
Definition put (m : gmap str (str * str)) (e : str * (str * str)) : gmap str (str * str) :=
  <[e.1 := e.2]> m.

End main.

(* ===================================================================== *)
(** ** The output folder: collision-safe names (copy and move pipelines) *)
(* ===================================================================== *)

Module output.

Definition UNDERSCORE : str := [95%N].

(** [f"{base_name}_{counter}{ext}"] *)
Definition new_name (base_name ext : str) (counter : N) : str :=
  base_name ++ UNDERSCORE ++ str_of_N counter ++ ext.

(** [while dest_path.exists(): dest_path = output_dir / new_name; counter += 1].
    [fuel] bounds the number of times the body runs; [None] is a loop that
    has not ended within the bound. *)
Fixpoint avoid (out : gset str) (base_name ext : str) (fuel : nat)
    (dest : str) (counter : N) : option str :=
  if bool_decide (dest ∈ out) then
    match fuel with
    | O => None
    | S fuel' =>
      avoid out base_name ext fuel' (new_name base_name ext counter) (counter + 1)
    end
  else Some dest.

(** The destination chosen for [pdf_filename] (lines 254-268 of
    [match_pdfs.py], 231-245 of [match_pdfs_by_name.py]).  A folder of [n]
    names cannot hold all of the first [n + 1] suffixed names, so the body
    runs at most [n + 1] times. *)
Definition dest_name (out : gset str) (pdf_filename : str) : option str :=
  if bool_decide (pdf_filename ∈ out) then
    avoid out (pathlib.stem pdf_filename) (pathlib.suffix pdf_filename)
      (S (size out)) pdf_filename 1
  else Some pdf_filename.

(** The counters of [match_and_copy_pdfs] and the names in the output folder. *)
Record state := {
  matched_count : nat;
  unmatched_count : nat;
  error_count : nat;
  out_dir : gset str
}.

Definition unmatched (st : state) : state :=
  {| matched_count := matched_count st; unmatched_count := S (unmatched_count st);
     error_count := error_count st; out_dir := out_dir st |}.

Definition errored (st : state) : state :=
  {| matched_count := matched_count st; unmatched_count := unmatched_count st;
     error_count := S (error_count st); out_dir := out_dir st |}.

Definition matched (st : state) (dest : str) : state :=
  {| matched_count := S (matched_count st); unmatched_count := unmatched_count st;
     error_count := error_count st; out_dir := {[dest]} ∪ out_dir st |}.

(** The [try] block that places a matched document: choose the destination,
    then copy or move; [raises] tells whether the file operation raises.
    A search that does not end leaves the state as it is. *)
Definition place (raises : str → bool) (st : state) (pdf_filename : str) : state :=
  match dest_name (out_dir st) pdf_filename with
  | Some dest => if raises pdf_filename then errored st else matched st dest
  | None => st
  end.

(** A document moved to [dest].  [in_place] tells whether the output
    folder is the scanned folder itself ([--output-dir .], or a name that
    leads back to it): the document then leaves its own name in that folder. *)
Definition moved (in_place : bool) (st : state) (pdf_filename dest : str) : state :=
  {| matched_count := S (matched_count st); unmatched_count := unmatched_count st;
     error_count := error_count st;
     out_dir := {[dest]} ∪ (if in_place then out_dir st ∖ {[pdf_filename]}
                            else out_dir st) |}.

(** The [try] block of [match_pdfs_by_name.py] (lines 230-251), which moves
    the document. *)
Definition place_moved (in_place : bool) (raises : str → bool) (st : state)
    (pdf_filename : str) : state :=
  match dest_name (out_dir st) pdf_filename with
  | Some dest =>
    if raises pdf_filename then errored st else moved in_place st pdf_filename dest
  | None => st
  end.

Definition start (out : gset str) : state :=
  {| matched_count := 0; unmatched_count := 0; error_count := 0; out_dir := out |}.


(** One document processed: one counter up by one. *)
Definition step_ok (st st' : state) : Prop :=
  bumps_one (matched_count st) (unmatched_count st) (error_count st)
            (matched_count st') (unmatched_count st') (error_count st').

Definition total (st : state) : nat :=
  matched_count st + unmatched_count st + error_count st.

(** A folder that already holds the document and its first copy. *)
Definition busy_folder : gset str := {[py "a.pdf"; py "a_1.pdf"; py "a_3.pdf"]}.


End output.

(* ===================================================================== *)
(** ** match_pdfs.py : the copy pipeline *)
(* ===================================================================== *)

Module match_pdfs.

Definition PREFIX : str := Eval vm_compute in py "协商解除劳动合同协议书_".
Definition DOT_PDF : str := Eval vm_compute in py ".pdf".
Definition ID_NUMBER : str := Eval vm_compute in py "身份证号".
Definition ID_CARD : str := Eval vm_compute in py "身份证".
Definition X : N := 88%N.

(** The column loop of [read_excel_dataframe] (lines 58-63), with its [break]. *)
Fixpoint find_id_col (header : list str) : option str :=
  match header with
  | [] => None
  | col :: header' =>
    let col_str := strip col in
    if contains col_str ID_NUMBER || contains col_str ID_CARD then Some col
    else find_id_col header'
  end.

(** Whether a header carries one of the ID markers. *)
Definition has_id (col : str) : bool :=
  contains (strip col) ID_NUMBER || contains (strip col) ID_CARD.

(** One iteration of the row loop of [read_excel_id_numbers] (lines 97-108). *)
Definition add_id (id_numbers : gset str) (c : pandas.cell) : gset str :=
  let id_value := strip (pandas.str_of_cell c) in
  if blank c then id_numbers
  else {[normalize_key id_value]} ∪ id_numbers.

(** [read_excel_dataframe], from the table on; [None] stands for the
    [ValueError] of a missing column. *)
Definition read_excel_dataframe (df : pandas.DataFrame) : option (pandas.DataFrame * str) :=
  match find_id_col (pandas.columns df) with
  | Some id_col => Some (df, id_col)
  | None => None
  end.

Definition read_excel_id_numbers (df0 : pandas.DataFrame) : option (gset str) :=
  match read_excel_dataframe df0 with
  | Some (df, id_col) =>
    Some (fold_left add_id ((λ row, pandas.at_col df row id_col) <$> pandas.rows df) ∅)
  | None => None
  end.

(** [\d{17}[\dX]] *)
Definition id_pattern : regex := Times 17 Digit · One (Either Digit (Chr X)).

(** [r"协商解除劳动合同协议书_(.+?)(\d{17}[\dX])\.pdf"] *)
Definition pattern : regex :=
  Lit PREFIX · Group 1 (PlusLazy Dot) · Group 2 id_pattern · Lit DOT_PDF.

(** A name segment: not empty, no newline. *)
Definition name_ok (name : str) : Prop := name ≠ [] ∧ Forall (λ c, c ≠ 10%N) name.

(** What the primary pattern looks for, anywhere in the file name: the
    prefix, a name, an ID token and the extension in any case. *)
Definition primary_shape (s name token : str) : Prop :=
  ∃ pre ext post,
    s = pre ++ PREFIX ++ name ++ token ++ ext ++ post
    ∧ name_ok name ∧ is_id_token token = true ∧ lower ext = DOT_PDF.

(** Lines 131-136: [re.search(pattern, pdf_filename, re.IGNORECASE)]. *)
Definition primary (pdf_filename : str) : option (str * str) :=
  match search true pattern pdf_filename with
  | Some m => Some (group m 1, upper (group m 2))
  | None => None
  end.

(** Lines 140-151: the last ID-shaped run of the stem. *)
Definition fallback (pdf_filename : str) : option (str * str) :=
  let name_without_ext := replace pdf_filename DOT_PDF [] in
  let id_matches := findall true id_pattern name_without_ext in
  match last id_matches with
  | Some m =>
    let last_id := upper m in
    if startswith name_without_ext PREFIX then
      let remaining := slice_from (length PREFIX) name_without_ext in
      if endswith (upper remaining) last_id
      then Some (slice_to_minus 18 remaining, last_id)
      else None
    else None
  | None => None
  end.

Definition extract_name_and_id_from_filename (pdf_filename : str) : option (str * str) :=
  match primary pdf_filename with
  | Some r => Some r
  | None => fallback pdf_filename
  end.

Section loop.
Variable excel_id_numbers : gset str.
(** Whether [shutil.copy2] raises for this document. *)
Variable copy_raises : str → bool.

(** The body of [for pdf_file in pdf_files] (lines 233-274). *)
Definition process (st : output.state) (pdf_filename : str) : output.state :=
  match extract_name_and_id_from_filename pdf_filename with
  | None => output.unmatched st
  | Some (name, id_number) =>
    if bool_decide (id_number ∈ excel_id_numbers)
    then output.place copy_raises st pdf_filename
    else output.unmatched st
  end.

Definition match_and_copy_pdfs (out : gset str) (pdf_files : list str) : output.state :=
  fold_left process pdf_files (output.start out).
End loop.

(** Lines 278-283: the IDs of all scanned documents. *)
Definition add_pdf_id (pdf_id_numbers : gset str) (pdf_filename : str) : gset str :=
  match extract_name_and_id_from_filename pdf_filename with
  | Some (_, id_number) => {[upper id_number]} ∪ pdf_id_numbers
  | None => pdf_id_numbers
  end.

Definition pdf_id_numbers (pdf_files : list str) : gset str :=
  fold_left add_pdf_id pdf_files ∅.

Inductive mark := Success | Failure.

(** Lines 298-320: the mark written for one row; [None] for a skipped row. *)
Definition mark_row (pdf_ids : gset str) (c : pandas.cell) : option mark :=
  let row_id := strip (pandas.str_of_cell c) in
  if blank c then None
  else
    let row_id := upper (normalize_key row_id) in
    if bool_decide (row_id ∈ pdf_ids) then Some Success else Some Failure.


(** Lines 170-173. *)
Definition extract_id_number_from_filename (pdf_filename : str) : option str :=
  match extract_name_and_id_from_filename pdf_filename with
  | Some result => Some result.2
  | None => None
  end.

Definition MARK_COL : str := Eval vm_compute in py "匹配状态".
Definition SUCCESS : str := Eval vm_compute in py "成功".
Definition FAILURE : str := Eval vm_compute in py "失败".

Definition mark_text (m : mark) : str :=
  match m with Success => SUCCESS | Failure => FAILURE end.

(** The table with its status column and the two row counters, and
    whether the pass was left by an exception: the [try] of line 288 only
    prints it, nothing is counted or written back after it. *)
Record annotated := {
  table : pandas.DataFrame;
  success_count : nat;
  failed_count : nat;
  raised : bool
}.

Definition counted (m : mark) (acc : annotated) (df : pandas.DataFrame) : annotated :=
  match m with
  | Success => {| table := df; success_count := S (success_count acc);
                  failed_count := failed_count acc; raised := false |}
  | Failure => {| table := df; success_count := success_count acc;
                  failed_count := S (failed_count acc); raised := false |}
  end.

Section annotate.
(** Whether a column the spreadsheet came with takes a text, see
    [pandas.set_at]. *)
Variable takes_text : str → bool.
(** How a key cell is marked: [mark_row] here, its namesake in
    [match_pdfs_by_name.py]. *)
Variable mark_of : pandas.cell → option mark.
Variable key_col : str.

(** Lines 291-292: [if mark_col not in df_excel.columns: df_excel[mark_col] = ""]. *)
Definition with_mark_col (df_excel : pandas.DataFrame) : pandas.DataFrame :=
  if bool_decide (MARK_COL ∈ pandas.columns df_excel) then df_excel
  else pandas.add_column df_excel MARK_COL (pandas.Val []).

(** The status column takes a text when line 292 has made it; one that the
    spreadsheet came with has the dtype it was read with. *)
Definition status_takes_text (df_excel : pandas.DataFrame) : bool :=
  if bool_decide (MARK_COL ∈ pandas.columns df_excel) then takes_text MARK_COL else true.

(** One iteration of [for idx, row in df_excel.iterrows()] (lines 298-320):
    the cell is written before the counter goes up, and an exception of the
    write ends the loop. *)
Definition annotate_row (takes : bool) (acc : annotated)
    (idx_row : nat * list pandas.cell) : annotated :=
  if raised acc then acc
  else
    let '(idx, row) := idx_row in
    match mark_of (pandas.at_col (table acc) row key_col) with
    | None => acc
    | Some m =>
      match pandas.set_at (table acc) takes idx MARK_COL (pandas.Val (mark_text m)) with
      | Some df => counted m acc df
      | None => {| table := table acc; success_count := success_count acc;
                   failed_count := failed_count acc; raised := true |}
      end
    end.

(** Lines 288-320: the rows are those the table has when the loop starts. *)
Definition annotate (df_excel : pandas.DataFrame) : annotated :=
  let df := with_mark_col df_excel in
  fold_left (annotate_row (status_takes_text df_excel)) (imap pair (pandas.rows df))
    {| table := df; success_count := 0; failed_count := 0; raised := false |}.

(** A row after the pass: its status cell set when the key is marked. *)
Definition marked_row (df : pandas.DataFrame) (row : list pandas.cell) : list pandas.cell :=
  match mark_of (pandas.at_col df row key_col) with
  | Some m => pandas.set_col df MARK_COL (pandas.Val (mark_text m)) row
  | None => row
  end.

(** The rows whose key cell is marked as [p] says. *)
Definition count_rows (p : option mark → bool) (df : pandas.DataFrame)
    (rows : list (list pandas.cell)) : nat :=
  length (List.filter (λ row, p (mark_of (pandas.at_col df row key_col))) rows).
End annotate.

Definition is_mark (m : mark) (o : option mark) : bool :=
  match o, m with
  | Some Success, Success | Some Failure, Failure => true
  | _, _ => false
  end.

Definition is_skipped (o : option mark) : bool :=
  match o with None => true | Some _ => false end.

(** A spreadsheet whose ID ends in a lower-case x, and a document whose
    name carries the same ID with a capital X; and the other way round. *)
Definition lowercase_cell : pandas.cell := pandas.Val (py "11010119900101123x").
Definition capital_cell : pandas.cell := pandas.Val (py "11010119900101123X").
Definition sheet (id : pandas.cell) : pandas.DataFrame :=
  {| pandas.columns := [py "姓名"; py "身份证号"];
     pandas.rows := [[pandas.Val (py "张三"); id]] |}.
Definition capital_file : str := py "协商解除劳动合同协议书_张三11010119900101123X.pdf".
Definition lowercase_file : str := py "协商解除劳动合同协议书_张三11010119900101123x.pdf".

End match_pdfs.

(* ===================================================================== *)
(** ** match_pdfs_by_name.py : the move pipeline *)
(* ===================================================================== *)

Module match_pdfs_by_name.

Definition NAME : str := Eval vm_compute in py "姓名".
Definition MARKER : str := Eval vm_compute in py "承诺书".
Definition DASH_MARKER : str := Eval vm_compute in py "-承诺书".
Definition MARKER_DASH : str := Eval vm_compute in py "承诺书-".
Definition DOT_PDF : str := Eval vm_compute in py ".pdf".
Definition DASH : str := Eval vm_compute in py "-".

(** The column loop of [read_excel_dataframe] (lines 58-63), with its [break]. *)
Fixpoint find_name_col (header : list str) : option str :=
  match header with
  | [] => None
  | col :: header' =>
    let col_str := strip col in
    if contains col_str NAME then Some col else find_name_col header'
  end.

(** Whether a header carries the name marker. *)
Definition has_name (col : str) : bool := contains (strip col) NAME.

Definition add_name (names : gset str) (c : pandas.cell) : gset str :=
  let name_value := strip (pandas.str_of_cell c) in
  if blank c then names else {[name_value]} ∪ names.

(** [read_excel_dataframe], from the table on; [None] stands for the
    [ValueError] of a missing column. *)
Definition read_excel_dataframe (df : pandas.DataFrame) : option (pandas.DataFrame * str) :=
  match find_name_col (pandas.columns df) with
  | Some name_col => Some (df, name_col)
  | None => None
  end.

Definition read_excel_names (df0 : pandas.DataFrame) : option (gset str) :=
  match read_excel_dataframe df0 with
  | Some (df, name_col) =>
    Some (fold_left add_name ((λ row, pandas.at_col df row name_col) <$> pandas.rows df) ∅)
  | None => None
  end.

(** [(?:\(\d+\))?] *)
Definition copy_number : regex := Opt (Lit [40%N] · Plus Digit · Lit [41%N]).

(** [^(.+?)-承诺书(?:\(\d+\))?\.pdf$] *)
Definition pattern1 : regex :=
  Bol · Group 1 (PlusLazy Dot) · Lit DASH_MARKER · copy_number · Lit DOT_PDF · Eol.

(** [^承诺书-(.+?)(?:\(\d+\))?\.pdf$] *)
Definition pattern2 : regex :=
  Bol · Lit MARKER_DASH · Group 1 (PlusLazy Dot) · copy_number · Lit DOT_PDF · Eol.

(** [^(.+?)-(.+?)(?:\(\d+\))?\.pdf$] *)
Definition pattern3 : regex :=
  Bol · Group 1 (PlusLazy Dot) · Lit DASH · Group 2 (PlusLazy Dot) · copy_number
    · Lit DOT_PDF · Eol.

Definition nonempty (name : str) : option str :=
  match name with [] => None | _ => Some name end.

(** Lines 121-127. *)
Definition try1 (pdf_filename : str) : option str :=
  match match_ false pattern1 pdf_filename with
  | Some m => nonempty (strip (group m 1))
  | None => None
  end.

(** Lines 130-136. *)
Definition try2 (pdf_filename : str) : option str :=
  match match_ false pattern2 pdf_filename with
  | Some m => nonempty (strip (group m 1))
  | None => None
  end.

(** Lines 140-152. *)
Definition try3 (pdf_filename : str) : option str :=
  match match_ false pattern3 pdf_filename with
  | Some m =>
    let part1 := strip (group m 1) in
    let part2 := strip (group m 2) in
    if contains part2 MARKER then nonempty part1
    else if contains part1 MARKER then nonempty part2
    else None
  | None => None
  end.

Definition extract_name_from_filename (pdf_filename : str) : option str :=
  match try1 pdf_filename with
  | Some name => Some name
  | None =>
    match try2 pdf_filename with
    | Some name => Some name
    | None => try3 pdf_filename
    end
  end.

Section loop.
Variable excel_names : gset str.
(** Whether the output folder is the scanned folder, see [output.moved]. *)
Variable in_place : bool.
(** Whether [shutil.move] raises for this document. *)
Variable move_raises : str → bool.

(** The body of [for pdf_file in pdf_files] (lines 214-251). *)
Definition process (st : output.state) (pdf_filename : str) : output.state :=
  match extract_name_from_filename pdf_filename with
  | None => output.unmatched st
  | Some name =>
    if bool_decide (name ∈ excel_names)
    then output.place_moved in_place move_raises st pdf_filename
    else output.unmatched st
  end.

Definition match_and_copy_pdfs (out : gset str) (pdf_files : list str) : output.state :=
  fold_left process pdf_files (output.start out).
End loop.


(** Lines 254-258: the names of all scanned documents. *)
Definition add_pdf_name (pdf_names : gset str) (pdf_filename : str) : gset str :=
  match extract_name_from_filename pdf_filename with
  | Some (c :: name) => {[c :: name]} ∪ pdf_names
  | _ => pdf_names
  end.

Definition pdf_names (pdf_files : list str) : gset str :=
  fold_left add_pdf_name pdf_files ∅.

(** Lines 273-285: the mark written for one row; [None] for a skipped row. *)
Definition mark_row (pdf_names : gset str) (c : pandas.cell) : option match_pdfs.mark :=
  let row_name := strip (pandas.str_of_cell c) in
  if blank c then None
  else if bool_decide (row_name ∈ pdf_names) then Some match_pdfs.Success
  else Some match_pdfs.Failure.

(** The optional copy number: nothing, or digits in parentheses. *)
Definition copy_ok (o : str) : Prop :=
  o = [] ∨ ∃ ds, ds ≠ [] ∧ main.digits ds ∧ o = 40%N :: ds ++ [41%N].

(** What may follow [.pdf]: nothing, or one newline ([$]). *)
Definition end_ok (nl : str) : Prop := nl = [] ∨ nl = [10%N].

Definition no_newline (s : str) : Prop := Forall (λ c, c ≠ 10%N) s.

(** The file names [pattern1] accepts, and the first group. *)
Definition shape1 (s g1 : str) : Prop :=
  ∃ o nl, s = g1 ++ DASH_MARKER ++ o ++ DOT_PDF ++ nl
          ∧ g1 ≠ [] ∧ no_newline g1 ∧ copy_ok o ∧ end_ok nl.

Definition shape2 (s g1 : str) : Prop :=
  ∃ o nl, s = MARKER_DASH ++ g1 ++ o ++ DOT_PDF ++ nl
          ∧ g1 ≠ [] ∧ no_newline g1 ∧ copy_ok o ∧ end_ok nl.

Definition shape3 (s g1 g2 : str) : Prop :=
  ∃ o nl, s = g1 ++ DASH ++ g2 ++ o ++ DOT_PDF ++ nl
          ∧ g1 ≠ [] ∧ no_newline g1 ∧ g2 ≠ [] ∧ no_newline g2 ∧ copy_ok o ∧ end_ok nl.

End match_pdfs_by_name.

(* ===================================================================== *)
(** ** Writing the annotated spreadsheet back (both pipelines) *)
(* ===================================================================== *)

Module writeback.

Definition XLS : str := Eval vm_compute in py ".xls".
Definition XLSX : str := Eval vm_compute in py ".xlsx".
Definition XLSX_BACKUP : str := Eval vm_compute in py ".xlsx.backup".
Definition BACKUP : str := Eval vm_compute in py ".backup".

(** What was done to the spreadsheet's folder, in order. *)
Inductive event :=
  | Unlinked (p : str)
  | Renamed (src dst : str)
  | Copied (src dst : str)
  | Written (p : str).

Section folder.
(** File contents are left abstract. *)
Context {content : Type}.

(** The spreadsheet's folder, by file name, and the log of operations. *)
Record world := { files : gmap str content; log : list event }.

(** A file operation returns a value and a new world, or raises ([None]). *)
Definition io (T : Type) : Type := world → option (T * world).

Definition ret {T} (x : T) : io T := λ w, Some (x, w).

Definition bind {T U} (m : io T) (k : T → io U) : io U :=
  λ w, match m w with Some (x, w') => k x w' | None => None end.

Notation "'let*' x ':=' m 'in' k" := (bind m (λ x, k))
  (at level 10, x name, m at level 100, k at level 200).
Notation "'run*' m 'in' k" := (bind m (λ _, k))
  (at level 10, m at level 100, k at level 200).

(** [path.exists()] *)
Definition exists_ (p : str) : io bool :=
  λ w, Some (bool_decide (is_Some (files w !! p)), w).

(** [path.unlink()] *)
Definition unlink (p : str) : io unit :=
  λ w, match files w !! p with
       | Some _ => Some (tt, {| files := delete p (files w);
                                log := log w ++ [Unlinked p] |})
       | None => None
       end.

(** [src.rename(dst)] *)
Definition rename (src dst : str) : io unit :=
  λ w, match files w !! src with
       | Some v => Some (tt, {| files := <[dst := v]> (delete src (files w));
                                log := log w ++ [Renamed src dst] |})
       | None => None
       end.

(** [shutil.copy2(src, dst)] *)
Definition copy2 (src dst : str) : io unit :=
  λ w, match files w !! src with
       | Some v => Some (tt, {| files := <[dst := v]> (files w);
                                log := log w ++ [Copied src dst] |})
       | None => None
       end.

(** [df.to_excel(p, ...)] *)
Definition to_excel (df : content) (p : str) : io unit :=
  λ w, Some (tt, {| files := <[p := df]> (files w); log := log w ++ [Written p] |}).

Definition is_xls (excel_path : str) : bool :=
  bool_decide (lower (pathlib.suffix excel_path) = XLS).

Definition backup_path (excel_path : str) : str :=
  if is_xls excel_path then pathlib.with_suffix excel_path XLSX_BACKUP
  else pathlib.with_suffix excel_path BACKUP.

(** Lines 324-332 and 338-341 of [match_pdfs.py] (289-297 and 303-306 of
    [match_pdfs_by_name.py]): set the original aside; the result is the
    path the annotated table is written to. *)
Definition make_backup (excel_path : str) : io str :=
  if is_xls excel_path then
    let backup_path := pathlib.with_suffix excel_path XLSX_BACKUP in
    let* present := exists_ backup_path in
    run* (if present : bool then unlink backup_path else ret tt) in
    run* rename excel_path backup_path in
    ret (pathlib.with_suffix excel_path XLSX)
  else
    let backup_path := pathlib.with_suffix excel_path BACKUP in
    let* present := exists_ backup_path in
    run* (if present : bool then unlink backup_path else ret tt) in
    run* copy2 excel_path backup_path in
    ret excel_path.

(** Lines 333 and 342: write the annotated table. *)
Definition save_annotated (df : content) (excel_path : str) : io unit :=
  let* target := make_backup excel_path in
  to_excel df target.

(** The events of removing a stale backup. *)
Definition removed (w : world) (bk : str) : list event :=
  if bool_decide (is_Some (files w !! bk)) then [Unlinked bk] else [].
End folder.

Arguments world : clear implicits.
Arguments io : clear implicits.


(** A folder with a spreadsheet and the backup of an earlier run; file
    contents are numbered. *)
Definition second_run : world nat :=
  {| files := {[ py "list.xls" := 1; py "list.xlsx.backup" := 0 ]}; log := [] |}.

(** The same for an [.xlsx] spreadsheet. *)
Definition third_run : world nat :=
  {| files := {[ py "list.xlsx" := 2; py "list.backup" := 1 ]}; log := [] |}.

(** An [.xlsx] spreadsheet in a folder that holds another file too. *)
Definition shared_folder : world nat :=
  {| files := {[ py "list.xlsx" := 2; py "list.backup" := 1; py "notes.txt" := 7 ]};
     log := [] |}.

End writeback.


(* ===================================================================== *)
(** * Properties *)
(* ===================================================================== *)

(** ** Column resolution *)

Module columns_spec.

Import main.

Lemma scan_column_contract cs col :
  contract_col (scan_column cs col) =
    if has_contract col then Some col else contract_col cs.
Proof.
  unfold scan_column, has_contract.
  destruct (contains (strip col) CONTRACT); [done|].
  destruct (contains (strip col) NAME); [done|].
  by destruct (contains (strip col) ID_NUMBER || contains (strip col) ID_CARD).
Qed.

Lemma fold_scan_contract header cs :
  contract_col (fold_left scan_column header cs) =
    match last (filter (λ col, has_contract col = true) header) with
    | Some col => Some col
    | None => contract_col cs
    end.
Proof.
  revert cs. induction header as [|col header IH]; intros cs; [done|].
  cbn [fold_left]. rewrite IH, scan_column_contract.
  rewrite filter_cons. destruct (decide (has_contract col = true)) as [E|E].
  - rewrite E, last_cons. by destruct (last _).
  - by apply not_true_is_false in E; rewrite E.
Qed.

(** In [main.py] the contract column is the LAST header with the marker. *)
Lemma find_columns_contract_last header :
  contract_col (find_columns header) =
    last (filter (λ col, has_contract col = true) header).
Proof.
  unfold find_columns. rewrite fold_scan_contract.
  by destruct (last _).
Qed.

(** In [match_pdfs.py] the ID column is the first header with the marker. *)
Lemma find_id_col_first header :
  match_pdfs.find_id_col header = head (filter (λ col, match_pdfs.has_id col = true) header).
Proof.
  induction header as [|col header IH]; [done|].
  cbn [match_pdfs.find_id_col]. rewrite filter_cons.
  fold (match_pdfs.has_id col). destruct (match_pdfs.has_id col) eqn:E.
  - by rewrite decide_True.
  - by rewrite decide_False.
Qed.

(** In [match_pdfs_by_name.py] the name column is the first header with the
    marker. *)
Lemma find_name_col_first header :
  match_pdfs_by_name.find_name_col header =
    head (filter (λ col, match_pdfs_by_name.has_name col = true) header).
Proof.
  induction header as [|col header IH]; [done|].
  cbn [match_pdfs_by_name.find_name_col]. rewrite filter_cons.
  fold (match_pdfs_by_name.has_name col). destruct (match_pdfs_by_name.has_name col) eqn:E.
  - by rewrite decide_True.
  - by rewrite decide_False.
Qed.

(** C2: the column resolver of [main.py] does not stop at the first header
    that contains the marker: on the header row 合同编号, 姓名, 身份证号,
    原合同编号 it resolves the contract column to 原合同编号, the last match,
    and the mapping is keyed by that column; the resolvers of the two other
    scripts, which [break], return the first match on rows with two matching
    headers. *)
Theorem main_resolver_takes_last_match :
  contract_col (find_columns two_contract_columns) = Some (py "原合同编号")
  ∧ read_excel_mapping renumbered
      = Some {[py "777" := (py "张三", py "110101199001011234")]}
  ∧ head (filter (λ col, has_contract col = true) two_contract_columns)
      = Some (py "合同编号")
  ∧ match_pdfs.find_id_col [py "身份证号"; py "配偶身份证号"] = Some (py "身份证号")
  ∧ match_pdfs_by_name.find_name_col [py "姓名"; py "曾用姓名"] = Some (py "姓名").
Proof. repeat split; vm_compute; reflexivity. Qed.

End columns_spec.

(** ** Grammar C *)

Module grammar_c_spec.

Import match_pdfs_by_name.

(** C7: on 承诺书-李雷(2).pdf the first pattern fails, the second yields 李雷,
    and that is the result, although the third pattern matches the same
    string too. *)
Theorem second_pattern_wins :
  let f := py "承诺书-李雷(2).pdf" in
  try1 f = None
  ∧ try2 f = Some (py "李雷")
  ∧ is_Some (match_ false pattern3 f) ∧ try3 f = Some (py "李雷")
  ∧ extract_name_from_filename f = Some (py "李雷").
Proof.
  repeat split; try (vm_compute; reflexivity).
  vm_compute. eexists; reflexivity.
Qed.

End grammar_c_spec.

(** ** Decimal rendering and the numeric key clean-up *)

Module text_spec.

Local Open Scope N_scope.

Lemma dec_value_snoc s c : dec_value (s ++ [c]) = 10 * dec_value s + (c - 48).
Proof. unfold dec_value. by rewrite fold_left_app. Qed.

Lemma is_ascii_digit_spec c : is_ascii_digit c = true ↔ 48 ≤ c ≤ 57.
Proof. unfold is_ascii_digit. rewrite andb_true_iff, !N.leb_le. tauto. Qed.

Lemma digits_fuel_S fuel n acc :
  digits_fuel (S fuel) n acc =
    if n <? 10 then (48 + n mod 10) :: acc
    else digits_fuel fuel (n / 10) ((48 + n mod 10) :: acc).
Proof. reflexivity. Qed.

(** With fuel for every bit of [n], [digits_fuel] puts the decimal digits of
    [n] in front of the accumulator. *)
Lemma digits_fuel_spec fuel n acc :
  n < 2 ^ N.of_nat (S fuel) →
  ∃ l, digits_fuel (S fuel) n acc = l ++ acc
       ∧ l ≠ [] ∧ Forall (λ c, is_ascii_digit c = true) l ∧ dec_value l = n.
Proof.
  revert n acc. induction fuel as [|fuel IH]; intros n acc Hn.
  - assert (n < 10) as Hlt by (cbn in Hn; lia).
    exists [48 + n]. rewrite digits_fuel_S. apply N.ltb_lt in Hlt as Hb. rewrite Hb.
    rewrite N.mod_small by done. repeat split; [done | |].
    + constructor; [|constructor]. apply is_ascii_digit_spec. lia.
    + unfold dec_value. cbn. lia.
  - rewrite digits_fuel_S. destruct (n <? 10) eqn:Hb.
    + apply N.ltb_lt in Hb. exists [48 + n].
      rewrite N.mod_small by done. repeat split; [done | |].
      * constructor; [|constructor]. apply is_ascii_digit_spec. lia.
      * unfold dec_value. cbn. lia.
    + apply N.ltb_ge in Hb.
      assert (n / 10 < 2 ^ N.of_nat (S fuel)) as Hq.
      { apply N.Div0.div_lt_upper_bound.
        replace (N.of_nat (S (S fuel))) with (N.succ (N.of_nat (S fuel))) in Hn by lia.
        rewrite N.pow_succ_r' in Hn. lia. }
      destruct (IH (n / 10) ((48 + n mod 10) :: acc) Hq) as (l & El & Hne & Hd & Hv).
      exists (l ++ [48 + n mod 10]). rewrite El, <- app_assoc. repeat split.
      * by destruct l.
      * apply Forall_app. split; [done|]. constructor; [|constructor].
        apply is_ascii_digit_spec.
        assert (n mod 10 < 10) as Hr by (apply N.mod_lt; lia).
        revert Hr. generalize (n mod 10). lia.
      * rewrite dec_value_snoc, Hv.
        pose proof (N.Div0.div_mod n 10) as Hdm. revert Hdm.
        generalize (n mod 10) (n / 10). lia.
Qed.

Lemma str_of_N_spec n :
  str_of_N n ≠ [] ∧ Forall (λ c, is_ascii_digit c = true) (str_of_N n)
  ∧ dec_value (str_of_N n) = n.
Proof.
  unfold str_of_N.
  destruct (digits_fuel_spec (N.to_nat (N.log2 n)) n []) as (l & El & ? & ? & ?).
  - replace (N.of_nat (S (N.to_nat (N.log2 n)))) with (N.succ (N.log2 n)) by lia.
    destruct (decide (n = 0)) as [->|]; [done|].
    apply N.log2_spec. lia.
  - rewrite El, app_nil_r. done.
Qed.

Lemma str_of_N_inj n m : str_of_N n = str_of_N m → n = m.
Proof.
  intros E. destruct (str_of_N_spec n) as (_ & _ & <-).
  destruct (str_of_N_spec m) as (_ & _ & <-). by rewrite E.
Qed.

(** *** [float] on the text of a natural number followed by [.0] *)

Lemma span_digits_app l rest :
  Forall (λ c, is_ascii_digit c = true) l →
  head (map is_ascii_digit rest) ≠ Some true →
  span_digits (l ++ rest) = (digit_values l, rest).
Proof.
  intros Hl Hrest. induction Hl as [|c l Hc Hl IH]; cbn [app span_digits].
  - destruct rest as [|c rest]; [done|]. cbn in Hrest. cbn [span_digits].
    destruct (is_ascii_digit c); [by destruct Hrest | done].
  - by rewrite Hc, IH.
Qed.

Lemma digits_value_from l v :
  fold_left (λ acc d, 10 * acc + d)%Z (digit_values l) (Z.of_N v)
  = Z.of_N (fold_left (λ acc c, 10 * acc + (c - 48)) l v).
Proof.
  revert v. induction l as [|c l IH]; intros v; [done|].
  cbn [digit_values map fold_left]. rewrite <- IH. f_equal. lia.
Qed.

Lemma digits_value_dec l : digits_value (digit_values l) = Z.of_N (dec_value l).
Proof. apply (digits_value_from l 0). Qed.

Lemma digits_value_snoc ds d : digits_value (ds ++ [d]) = (10 * digits_value ds + d)%Z.
Proof. unfold digits_value. by rewrite fold_left_app. Qed.

Lemma to_ascii_digits l :
  Forall (λ c, c < 127) l → map to_ascii l = l.
Proof.
  induction 1 as [|c l Hc Hl IH]; [done|]. cbn [map]. rewrite IH. f_equal.
  unfold to_ascii. by apply N.ltb_lt in Hc as ->.
Qed.

Lemma read_sign_digit c s :
  is_ascii_digit c = true → read_sign (c :: s) = (false, c :: s).
Proof.
  intros Hc%is_ascii_digit_spec. unfold read_sign.
  destruct (c =? 45) eqn:E1; [apply N.eqb_eq in E1; lia|].
  destruct (c =? 43) eqn:E2; [apply N.eqb_eq in E2; lia|]. done.
Qed.

Lemma c_isspace_digit c : is_ascii_digit c = true → c_isspace c = false.
Proof.
  intros Hc%is_ascii_digit_spec. unfold c_isspace.
  apply orb_false_iff. split.
  - apply andb_false_iff. right. apply N.leb_gt. lia.
  - apply N.eqb_neq. lia.
Qed.

(** A string that begins and ends with a digit has no blanks to strip. *)
Lemma c_strip_digits c m z :
  is_ascii_digit c = true → is_ascii_digit z = true →
  c_strip (c :: m ++ [z]) = c :: m ++ [z].
Proof.
  intros Hc Hz. unfold c_strip. cbn [c_lstrip]. rewrite (c_isspace_digit c Hc).
  change (c :: m ++ [z]) with ((c :: m) ++ [z]).
  rewrite rev_app_distr. cbn [rev app c_lstrip]. rewrite (c_isspace_digit z Hz).
  change (z :: rev m ++ [c]) with ([z] ++ rev (c :: m)).
  rewrite rev_app_distr, rev_involutive. done.
Qed.

(** The text of [n] followed by [.0] is read as the fraction [10 n / 10]. *)
Lemma float_of_point_zero n :
  float_of_str (str_of_N n ++ POINT_ZERO)
  = Some (round_binary64 false (10 * Z.of_N n) 10).
Proof.
  destruct (str_of_N_spec n) as (Hne & Hd & Hv).
  destruct (str_of_N n) as [|c l] eqn:El; [done|]. clear Hne.
  assert (is_ascii_digit c = true) as Hc by (by inversion Hd).
  assert (Forall (λ x, x < 127) ((c :: l) ++ POINT_ZERO)) as Hascii.
  { apply Forall_app. split.
    - eapply Forall_impl; [exact Hd|]. intros x Hx%is_ascii_digit_spec. lia.
    - repeat constructor. }
  assert (95 ∉ (c :: l) ++ POINT_ZERO) as Hus.
  { intros [Hin|Hin]%elem_of_app.
    - rewrite Forall_forall in Hd. apply Hd, is_ascii_digit_spec in Hin. lia.
    - unfold POINT_ZERO in Hin. apply elem_of_cons in Hin as [?|Hin]; [done|].
      by apply list_elem_of_singleton in Hin. }
  unfold float_of_str. rewrite (to_ascii_digits _ Hascii).
  rewrite (bool_decide_eq_false_2 _ Hus).
  assert (c_strip ((c :: l) ++ POINT_ZERO) = (c :: l) ++ POINT_ZERO) as ->.
  { replace ((c :: l) ++ POINT_ZERO) with (c :: (l ++ [46]) ++ [48])
      by (by cbn; rewrite <- app_assoc).
    by apply c_strip_digits. }
  cbn [app]. rewrite (read_sign_digit _ _ Hc).
  assert (lower_cp c = c) as Hlow.
  { apply is_ascii_digit_spec in Hc. unfold lower_cp.
    destruct (65 <=? c) eqn:E; [|done]. apply N.leb_le in E. lia. }
  cbn [lower map]. rewrite Hlow.
  apply is_ascii_digit_spec in Hc as Hc'.
  rewrite !bool_decide_eq_false_2 by (intros [= ->]; lia).
  cbn [orb]. unfold read_decimal.
  change (c :: l ++ POINT_ZERO) with ((c :: l) ++ POINT_ZERO).
  rewrite (span_digits_app _ POINT_ZERO Hd) by done.
  cbn [POINT_ZERO N.eqb Pos.eqb span_digits is_ascii_digit N.leb N.compare Pos.compare
       Pos.compare_cont andb].
  cbn [digit_values map app read_exponent length].
  change (0 - Z.of_nat 1)%Z with (-1)%Z.
  change (0 <=? -1)%Z with false. cbn iota.
  change (10 ^ (- -1))%Z with 10%Z.
  change (Z.of_N (c - 48) :: map (λ c0, Z.of_N (c0 - 48)) l ++ [Z.of_N (48 - 48)])
    with (digit_values (c :: l) ++ [0%Z]).
  rewrite digits_value_snoc, digits_value_dec, Hv.
  do 2 f_equal; lia.
Qed.

(** *** Rounding a natural number to binary64 *)

Local Open Scope Z_scope.

Lemma round_half_even_exact q b : 0 < b → round_half_even (b * q) b = q.
Proof.
  intros Hb. unfold round_half_even.
  rewrite (Z.mul_comm b q), Z.mod_mul, Z.div_mul by lia.
  change (2 * 0) with 0. by apply Z.compare_lt_iff in Hb as ->.
Qed.

(** Below [2^53] every natural number is a binary64 number: rounding
    [10 n / 10] and truncating gives [n] back. *)
Lemma int_of_round_small n :
  0 < n < 2 ^ 53 → int_of_float (round_binary64 false (10 * n) 10) = Some n.
Proof.
  intros [Hpos Hlt]. unfold round_binary64, floor_log2_ratio.
  rewrite (proj2 (Z.eqb_neq _ _)) by lia.
  rewrite (proj2 (Z.leb_le 10 (10 * n))) by lia.
  rewrite (Z.mul_comm 10 n), Z.div_mul by lia.
  pose proof (Z.log2_nonneg n) as Hl0.
  assert (Z.log2 n < 53) as Hl by (by apply Z.log2_lt_pow2).
  rewrite Z.max_l by lia.
  set (k := 52 - Z.log2 n).
  assert (Z.log2 (n * 2 ^ k) = 52) as Hlog.
  { rewrite Z.log2_mul_pow2 by lia. lia. }
  assert (0 < 2 ^ k) as Hpow by (apply Z.pow_pos_nonneg; lia).
  destruct (Z.leb_spec 0 (Z.log2 n - 52)) as [Hge|Hneg].
  - assert (Z.log2 n - 52 = 0) as -> by lia.
    assert (k = 0) as Hk by lia. rewrite Hk in Hlog.
    change (2 ^ 0) with 1 in *. rewrite Z.mul_1_r in *.
    rewrite (Z.mul_comm n 10), round_half_even_exact, Hlog by done.
    rewrite (proj2 (Z.leb_gt _ _)) by lia.
    cbn [int_of_float]. rewrite (proj2 (Z.leb_le 0 0)) by lia.
    change (2 ^ 0) with 1. by rewrite Z.mul_1_r.
  - replace (- (Z.log2 n - 52)) with k by lia.
    replace (n * 10 * 2 ^ k) with (10 * (n * 2 ^ k)) by lia.
    rewrite round_half_even_exact, Hlog by lia.
    rewrite (proj2 (Z.leb_gt _ _)) by lia.
    cbn [int_of_float]. rewrite (proj2 (Z.leb_gt _ _)) by lia.
    replace (- (Z.log2 n - 52)) with k by lia.
    rewrite Z.div_mul by lia. done.
Qed.

Lemma int_of_round_exact n :
  0 ≤ n ≤ 2 ^ 53 → int_of_float (round_binary64 false (10 * n) 10) = Some n.
Proof.
  intros [H0 H1].
  destruct (decide (n = 0)) as [->|]; [done|].
  destruct (decide (n = 2 ^ 53)) as [->|]; [by vm_compute|].
  apply int_of_round_small. lia.
Qed.

Lemma str_of_Z_of_N n : str_of_Z (Z.of_N n) = str_of_N n.
Proof. destruct n; [done|]. cbn. done. Qed.

End text_spec.

(** ** The matcher finds exactly the splits the patterns describe *)

Module re_spec.

Section run.
Variable ic : bool.
Context {A : Type}.
Implicit Types (s : str) (k : str → option A) (a : atom).

Lemma take_app_suffix (s1 s2 : str) :
  take (length (s1 ++ s2) - length s2) (s1 ++ s2) = s1.
Proof.
  rewrite length_app. replace (length s1 + length s2 - length s2) with (length s1) by lia.
  by rewrite take_app_length.
Qed.

Lemma lit_complete l s1 s2 k :
  lit_ok ic l s1 → lit ic l (s1 ++ s2) k = k s2.
Proof.
  induction 1 as [|x c l s1 Hc Hl IH]; [done|].
  cbn [lit app]. by rewrite Hc.
Qed.

Lemma lit_sound l s k x :
  lit ic l s k = Some x → ∃ s1 s2, s = s1 ++ s2 ∧ lit_ok ic l s1 ∧ k s2 = Some x.
Proof.
  revert s. induction l as [|y l IH]; intros s; cbn [lit].
  - intros Hk. exists [], s. repeat split; [constructor | done].
  - destruct s as [|c s]; [done|]. destruct (chr_ok ic y c) eqn:Hc; [|done].
    intros (s1 & s2 & -> & Hl & Hk)%IH.
    exists (c :: s1), s2. repeat split; [by constructor | done].
Qed.

Lemma times_complete n a s1 s2 k :
  length s1 = n → all_ok ic a s1 → times ic n a (s1 ++ s2) k = k s2.
Proof.
  intros <- Hok. induction Hok as [|c s1 Hc Hs IH]; [done|].
  cbn [length times app]. by rewrite Hc.
Qed.

Lemma times_sound n a s k x :
  times ic n a s k = Some x →
  ∃ s1 s2, s = s1 ++ s2 ∧ length s1 = n ∧ all_ok ic a s1 ∧ k s2 = Some x.
Proof.
  revert s. induction n as [|n IH]; intros s; cbn [times].
  - intros Hk. exists [], s. repeat split; [constructor | done].
  - destruct s as [|c s]; [done|]. destruct (atom_ok ic a c) eqn:Hc; [|done].
    intros (s1 & s2 & -> & Hn & Hl & Hk)%IH.
    exists (c :: s1), s2. repeat split; [by cbn; rewrite Hn | by constructor | done].
Qed.

Lemma plus_complete a s1 s2 k :
  s1 ≠ [] → all_ok ic a s1 → is_Some (k s2) → is_Some (plus ic a (s1 ++ s2) k).
Proof.
  intros Hne Hok Hk. induction Hok as [|c s1 Hc Hs IH]; [done|].
  cbn [plus app]. rewrite Hc.
  destruct s1 as [|c' s1].
  - cbn [app]. by destruct (plus ic a s2 k).
  - by destruct IH as [y ->].
Qed.

Lemma plus_sound a s k x :
  plus ic a s k = Some x →
  ∃ s1 s2, s = s1 ++ s2 ∧ s1 ≠ [] ∧ all_ok ic a s1 ∧ k s2 = Some x.
Proof.
  induction s as [|c s IH]; cbn [plus]; [done|].
  destruct (atom_ok ic a c) eqn:Hc; [|done].
  destruct (plus ic a s k) as [y|] eqn:E.
  - intros [= ->]. destruct (IH eq_refl) as (s1 & s2 & -> & _ & Hl & Hk).
    exists (c :: s1), s2. repeat split; [done | by constructor | done].
  - intros Hk. exists [c], s. repeat split; [done | by repeat constructor | done].
Qed.

Lemma plus_lazy_complete a s1 s2 k :
  s1 ≠ [] → all_ok ic a s1 → is_Some (k s2) → is_Some (plus_lazy ic a (s1 ++ s2) k).
Proof.
  intros Hne Hok Hk. induction Hok as [|c s1 Hc Hs IH]; [done|].
  cbn [plus_lazy app]. rewrite Hc.
  destruct s1 as [|c' s1].
  - cbn [app]. by destruct Hk as [y ->].
  - destruct (k ((c' :: s1) ++ s2)); [done|]. by apply IH.
Qed.

Lemma plus_lazy_sound a s k x :
  plus_lazy ic a s k = Some x →
  ∃ s1 s2, s = s1 ++ s2 ∧ s1 ≠ [] ∧ all_ok ic a s1 ∧ k s2 = Some x.
Proof.
  induction s as [|c s IH]; cbn [plus_lazy]; [done|].
  destruct (atom_ok ic a c) eqn:Hc; [|done].
  destruct (k s) as [y|] eqn:E.
  - intros [= ->]. exists [c], s. repeat split; [done | by repeat constructor | done].
  - intros (s1 & s2 & -> & _ & Hl & Hk)%IH.
    exists (c :: s1), s2. repeat split; [done | by constructor | done].
Qed.
End run.

Section run_spec.
Variable ic : bool.
Variable whole : str.
Context {A : Type}.

(** Whatever the matcher returns comes from a split the pattern allows. *)
Lemma run_sound r s g (k : str → groups → option A) x :
  run ic whole r s g k = Some x →
  ∃ s1 s2 g', s = s1 ++ s2 ∧ matches ic whole r s1 s2 g g' ∧ k s2 g' = Some x.
Proof.
  revert s g k. induction r as [l|a|n a|a|a|r IH|i r IH|r1 IH1 r2 IH2| |];
    intros s g k; cbn [run matches].
  - intros (s1 & s2 & -> & ? & ?)%lit_sound. by exists s1, s2, g.
  - intros (s1 & s2 & -> & ? & ? & ?)%times_sound. by exists s1, s2, g.
  - intros (s1 & s2 & -> & ? & ? & ?)%times_sound. by exists s1, s2, g.
  - intros (s1 & s2 & -> & ? & ? & ?)%plus_sound. by exists s1, s2, g.
  - intros (s1 & s2 & -> & ? & ? & ?)%plus_lazy_sound. by exists s1, s2, g.
  - destruct (run ic whole r s g k) as [y|] eqn:E.
    + intros [= ->]. destruct (IH _ _ _ E) as (s1 & s2 & g' & -> & ? & ?).
      exists s1, s2, g'. auto.
    + intros Hk. exists [], s, g. auto.
  - intros (s1 & s2 & g' & -> & Hm & Hk)%IH.
    rewrite take_app_suffix in Hk. exists s1, s2, (<[i := s1]> g'). eauto.
  - intros (s1 & s2 & gm & -> & Hm1 & (t1 & t2 & g' & -> & Hm2 & Hk)%IH2)%IH1.
    exists (s1 ++ t1), t2, g'. rewrite <- app_assoc. repeat split; [|done].
    by exists s1, t1, gm.
  - case_decide; [|done]. intros Hk. by exists [], s, g.
  - case_decide; [|done]. intros Hk. by exists [], s, g.
Qed.

(** Every split the pattern allows, and that the rest of the pattern
    accepts, makes the matcher succeed. *)
Lemma run_complete r s1 s2 g g' (k : str → groups → option A) :
  matches ic whole r s1 s2 g g' → is_Some (k s2 g') →
  is_Some (run ic whole r (s1 ++ s2) g k).
Proof.
  revert s1 s2 g g' k. induction r as [l|a|n a|a|a|r IH|i r IH|r1 IH1 r2 IH2| |];
    intros s1 s2 g g' k; cbn [run matches].
  - intros [Hl ->] Hk. by rewrite lit_complete.
  - intros (Hn & Hl & ->) Hk. by rewrite times_complete.
  - intros (Hn & Hl & ->) Hk. by rewrite times_complete.
  - intros (Hn & Hl & ->) Hk. by apply plus_complete.
  - intros (Hn & Hl & ->) Hk. by apply plus_lazy_complete.
  - intros [[-> ->]|Hm] Hk.
    + by destruct (run ic whole r _ g k).
    + destruct (IH _ _ _ _ k Hm Hk) as [y ->]. done.
  - intros (gm & Hm & ->) Hk. apply (IH _ _ _ _ _ Hm).
    by rewrite take_app_suffix.
  - intros (a & b & gm & -> & Hm1 & Hm2) Hk. rewrite <- app_assoc.
    apply (IH1 _ _ _ _ _ Hm1). by apply (IH2 _ _ _ _ _ Hm2).
  - intros (-> & Hlen & ->) Hk. cbn [app]. by rewrite decide_True.
  - intros (-> & Hend & ->) Hk. cbn [app]. by rewrite decide_True.
Qed.
End run_spec.

Section entry_points.
Variable ic : bool.
Variable whole : str.

Lemma match_at_sound r s m :
  match_at ic whole r s = Some m →
  ∃ s1 s2, s = s1 ++ s2 ∧ group0 m = s1 ∧ matches ic whole r s1 s2 ∅ (captures m).
Proof.
  unfold match_at. intros (s1 & s2 & g' & -> & Hm & [= <-])%run_sound.
  exists s1, s2. cbn. by rewrite take_app_suffix.
Qed.

Lemma match_at_complete r s1 s2 g' :
  matches ic whole r s1 s2 ∅ g' → is_Some (match_at ic whole r (s1 ++ s2)).
Proof. intros Hm. unfold match_at. by apply (run_complete _ _ _ _ _ _ _ _ Hm). Qed.

Lemma search_from_sound r s m :
  search_from ic whole r s = Some m →
  ∃ pre s', s = pre ++ s' ∧ match_at ic whole r s' = Some m.
Proof.
  induction s as [|c s IH]; cbn [search_from].
  - destruct (match_at ic whole r []) eqn:E; [|done]. intros [= ->]. by exists [], [].
  - destruct (match_at ic whole r (c :: s)) eqn:E.
    + intros [= ->]. by exists [], (c :: s).
    + intros (pre & s' & -> & Hm)%IH. by exists (c :: pre), s'.
Qed.

Lemma search_from_complete r pre s' :
  is_Some (match_at ic whole r s') → is_Some (search_from ic whole r (pre ++ s')).
Proof.
  intros Hm. induction pre as [|c pre IH]; cbn [app].
  - destruct s'; cbn [search_from]; destruct Hm as [m ->]; done.
  - cbn [search_from]. by destruct (match_at ic whole r (c :: pre ++ s')).
Qed.
End entry_points.

End re_spec.

(** ** Grammar A : the contract number *)

Module grammar_a_spec.

Import main re_spec.

Lemma lit_ok_exact l s : lit_ok false l s ↔ s = l.
Proof.
  unfold lit_ok, chr_ok. split.
  - induction 1 as [|x c l s Hc%N.eqb_eq Hl IH]; [done|]. by subst.
  - intros ->. induction l; constructor; [apply N.eqb_refl | done].
Qed.

(** A run of characters of one class, followed by a character outside the
    class, is determined by the string it starts. *)
Lemma run_unique (P : N → Prop) d d' x r r' :
  Forall P d → Forall P d' → ¬ P x → d ++ x :: r = d' ++ x :: r' → d = d'.
Proof.
  intros Hd. revert d'. induction Hd as [|c d Hc Hd IH]; intros d' Hd' Hx E.
  - destruct Hd' as [|c' d' Hc' _]; [done|]. cbn in E. by injection E as -> _.
  - destruct Hd' as [|c' d' Hc' Hd']; cbn in E.
    + by injection E as -> _.
    + injection E as -> E. f_equal. by apply IH.
Qed.

Lemma shape_unique s d d' : shape s d → shape s d' → d = d'.
Proof.
  intros (_ & Hd & rest & ->) (_ & Hd' & rest' & E).
  apply app_inv_head in E.
  by apply (run_unique (λ c, isdecimal c = true) d d' 46%N
              (drop 1 DOT_PDF ++ rest) (drop 1 DOT_PDF ++ rest') Hd Hd').
Qed.

Lemma match_shape s m :
  match_ false pattern s = Some m → shape s (group m 1).
Proof.
  intros (s1 & s2 & -> & _ & Hm)%match_at_sound.
  unfold pattern in Hm. cbn [matches] in Hm.
  destruct Hm as (a & b & gm & -> & [->%lit_ok_exact ->] & Hm).
  destruct Hm as (d & e & gm' & -> & (g0 & (Hne & Hd & ->) & ->) & [->%lit_ok_exact E]).
  unfold group. rewrite E, lookup_insert_eq. cbn [default].
  repeat split; [done..|]. exists s2. by rewrite <- !app_assoc.
Qed.

Lemma shape_match s d : shape s d → is_Some (match_ false pattern s).
Proof.
  intros (Hne & Hd & rest & ->). unfold match_.
  replace (PREFIX ++ d ++ DOT_PDF ++ rest) with ((PREFIX ++ d ++ DOT_PDF) ++ rest)
    by (by rewrite <- !app_assoc).
  apply (match_at_complete _ _ _ _ _ (<[1%nat := d]> ∅)).
  unfold pattern. cbn [matches].
  exists PREFIX, (d ++ DOT_PDF), ∅. repeat split; [by apply lit_ok_exact|].
  exists d, DOT_PDF, (<[1%nat := d]> ∅). repeat split; [|by apply lit_ok_exact].
  by exists ∅.
Qed.

(** C3, as the code has it: [re.match] anchors the pattern at the start only.
    [extract_contract_number] returns the digits [d] exactly when the file
    name begins with the prefix, then the non-empty digit run [d], then
    [.pdf] - whatever follows the extension - and returns [None] (it never
    raises) for every file name without such a beginning. *)
Theorem extract_contract_number_spec s :
  (∀ d, extract_contract_number s = Some d ↔ shape s d)
  ∧ (extract_contract_number s = None ↔ ¬ ∃ d, shape s d).
Proof.
  assert (∀ d, extract_contract_number s = Some d ↔ shape s d) as Hsome.
  { intros d. unfold extract_contract_number. split.
    - destruct (match_ false pattern s) as [m|] eqn:E; [|done].
      intros [= <-]. by apply match_shape.
    - intros Hs. destruct (shape_match _ _ Hs) as [m E]. rewrite E. f_equal.
      apply (shape_unique s); [by apply match_shape | done]. }
  split; [done|]. split.
  - intros E (d & Hd%Hsome). congruence.
  - intros Hno. destruct (extract_contract_number s) as [d|] eqn:E; [|done].
    destruct Hno. exists d. by apply Hsome.
Qed.

(** C3 as stated fails: trailing characters after [.pdf] do not stop the
    match. *)
Lemma trailing_text_is_accepted :
  extract_contract_number (py "协商解除劳动合同协议书_12345.pdf.bak.pdf") ≠ None.
Proof. vm_compute. discriminate. Qed.

End grammar_a_spec.

(** ** Grammar B : name and ID number *)

Module grammar_b_spec.

Import match_pdfs re_spec.

Lemma lower_cp_cases c :
  ((65 ≤ c ≤ 90 ∧ lower_cp c = c + 32) ∨ (¬ (65 ≤ c ≤ 90) ∧ lower_cp c = c))%N.
Proof.
  unfold lower_cp. destruct (65 <=? c)%N eqn:E1; destruct (c <=? 90)%N eqn:E2; cbn [andb];
    rewrite ?N.leb_le, ?N.leb_gt in *; (left; split; [lia|done]) || (right; split; [lia|done]).
Qed.

Lemma chr_ok_uncased x c : uncased x → chr_ok true x c = true ↔ c = x.
Proof.
  intros [Hu Hl]. unfold chr_ok. rewrite N.eqb_eq.
  destruct (lower_cp_cases c) as [[? ->]|[? ->]], (lower_cp_cases x) as [[? ->]|[? ->]]; lia.
Qed.

Lemma lit_ok_uncased l s : Forall uncased l → lit_ok true l s ↔ s = l.
Proof.
  intros Hl. unfold lit_ok. split.
  - intros H. induction H as [|x c l s Hc H IH]; [done|].
    inversion_clear Hl as [|?? Hx Hl']. apply chr_ok_uncased in Hc as ->; [|done].
    by rewrite IH.
  - intros ->. induction Hl as [|x l Hx Hl IH]; constructor; [|done].
    by apply chr_ok_uncased.
Qed.

Lemma lit_ok_lowercase l s :
  Forall (λ x, lower_cp x = x) l → lit_ok true l s ↔ lower s = l.
Proof.
  intros Hl. unfold lit_ok, chr_ok, lower. split.
  - intros H. induction H as [|x c l s Hc%N.eqb_eq H IH]; [done|].
    inversion_clear Hl as [|?? Hx Hl']. cbn [map]. rewrite Hc, Hx. f_equal. by apply IH.
  - intros <-. induction s as [|c s IH]; cbn [map]; [constructor|].
    inversion_clear Hl as [|?? Hx Hl']. constructor; [|by apply IH].
    apply N.eqb_eq. by rewrite Hx.
Qed.

Lemma prefix_uncased : Forall uncased PREFIX.
Proof. unfold uncased. repeat constructor; lia. Qed.

Lemma dot_pdf_lowercase : Forall (λ x, lower_cp x = x) DOT_PDF.
Proof. repeat constructor. Qed.

(** The letter X of the ID pattern, with [re.IGNORECASE]. *)
Lemma chr_ok_X c : chr_ok true X c = ((c =? 88) || (c =? 120))%N.
Proof.
  unfold chr_ok, X. change (lower_cp 88) with 120%N.
  destruct (lower_cp_cases c) as [[? ->]|[? ->]];
    destruct (c =? 88)%N eqn:E1; destruct (c =? 120)%N eqn:E2;
    rewrite ?N.eqb_eq, ?N.eqb_neq in *; cbn [orb];
    rewrite ?N.eqb_eq, ?N.eqb_neq; lia.
Qed.

Lemma forallb_Forall (f : N → bool) l :
  forallb f l = true ↔ Forall (λ c, f c = true) l.
Proof.
  induction l as [|c l IH]; cbn [forallb].
  - split; [constructor | done].
  - rewrite andb_true_iff, IH, Forall_cons. done.
Qed.

Lemma id_pattern_matches whole t s2 g g' :
  matches true whole id_pattern t s2 g g' ↔ is_id_token t = true ∧ g' = g.
Proof.
  unfold id_pattern, is_id_token. cbn [matches]. unfold all_ok.
  rewrite !andb_true_iff, bool_decide_eq_true, !forallb_Forall.
  split.
  - intros (a & b & gm & -> & (Ha & Hda & ->) & (Hb & Hdb & ->)).
    rewrite length_app, take_app_length', drop_app_length' by done.
    repeat split; [lia | done |].
    eapply Forall_impl; [exact Hdb|]. intros c. cbn [atom_ok]. by rewrite chr_ok_X, orb_assoc.
  - intros ([[Hlen Ha] Hb] & ->).
    exists (take 17 t), (drop 17 t), g.
    rewrite take_drop, length_take, length_drop.
    repeat split; [lia | done | lia |].
    eapply Forall_impl; [exact Hb|]. intros c. cbn [atom_ok]. by rewrite chr_ok_X, orb_assoc.
Qed.

Lemma pattern_matches whole s1 s2 g' :
  matches true whole pattern s1 s2 ∅ g' ↔
  ∃ name token ext,
    s1 = PREFIX ++ name ++ token ++ ext
    ∧ name_ok name ∧ is_id_token token = true ∧ lower ext = DOT_PDF
    ∧ g' = <[2%nat := token]> (<[1%nat := name]> ∅).
Proof.
  unfold pattern. cbn [matches]. split.
  - intros (a & b & gm & -> & [Ha ->] & c & d & g1 & -> & (g0 & (Hne & Hc & ->) & ->)
            & e & f & g2 & -> & (g3 & [He ->]%id_pattern_matches & ->) & [Hf ->]).
    apply lit_ok_uncased in Ha as ->; [|exact prefix_uncased].
    apply lit_ok_lowercase in Hf; [|exact dot_pdf_lowercase].
    exists c, e, f. repeat split; [done.. | | done | done].
    eapply Forall_impl; [exact Hc|]. intros x. cbn [atom_ok].
    intros Hx ->. done.
  - intros (name & token & ext & -> & [Hne Hnl] & Ht & He & ->).
    exists PREFIX, (name ++ token ++ ext), ∅.
    repeat split; [by apply lit_ok_uncased; [exact prefix_uncased|]|].
    exists name, (token ++ ext), (<[1%nat := name]> ∅). repeat split.
    + exists ∅. repeat split; [done|].
      eapply Forall_impl; [exact Hnl|]. intros x Hx. cbn [atom_ok].
      apply negb_true_iff, N.eqb_neq. done.
    + exists token, ext, (<[2%nat := token]> (<[1%nat := name]> ∅)). repeat split.
      * exists (<[1%nat := name]> ∅). split; [|done]. by apply id_pattern_matches.
      * by apply lit_ok_lowercase; [exact dot_pdf_lowercase|].
Qed.

Lemma primary_sound s name id :
  primary s = Some (name, id) →
  ∃ token, primary_shape s name token ∧ id = upper token.
Proof.
  unfold primary, search.
  destruct (search_from true s pattern s) as [m|] eqn:E; [|done].
  intros [= <- <-].
  apply search_from_sound in E as (pre & s' & -> & (s1 & s2 & -> & _ & Hm)%match_at_sound).
  apply pattern_matches in Hm as (name & token & ext & -> & Hn & Ht & He & Hc).
  unfold group. rewrite Hc, lookup_insert_eq, lookup_insert_ne, lookup_insert_eq by done.
  exists token. split; [|done]. exists pre, ext, s2.
  by rewrite <- !app_assoc.
Qed.

Lemma primary_complete s name token :
  primary_shape s name token → is_Some (primary s).
Proof.
  intros (pre & ext & post & -> & Hn & Ht & He). unfold primary, search.
  assert (is_Some (search_from true (pre ++ PREFIX ++ name ++ token ++ ext ++ post) pattern
                     (pre ++ (PREFIX ++ name ++ token ++ ext) ++ post))) as [m Hm].
  { apply search_from_complete.
    apply (match_at_complete _ _ _ _ _ (<[2%nat := token]> (<[1%nat := name]> ∅))).
    apply pattern_matches. by exists name, token, ext. }
  rewrite <- !app_assoc in Hm. by rewrite Hm.
Qed.

(** C5, as the code has it: the primary attempt is an unanchored,
    case-insensitive [re.search].  It succeeds exactly on the file names that
    contain, at any position, the prefix, then a non-empty name without a
    newline, then an ID token, then [.pdf] in any case; text before the
    prefix or after the extension does not prevent the match, and the pair
    returned is a name and the upper-cased token of such an occurrence. *)
Theorem primary_spec s :
  (is_Some (primary s) ↔ ∃ name token, primary_shape s name token)
  ∧ (∀ name id, primary s = Some (name, id) →
       extract_name_and_id_from_filename s = Some (name, id)
       ∧ ∃ token, primary_shape s name token ∧ id = upper token).
Proof.
  split; [split|].
  - intros [[name id] E]. apply primary_sound in E as (token & ? & _). eauto.
  - intros (name & token & H). by apply (primary_complete _ name token).
  - intros name id E. split; [|by apply primary_sound].
    unfold extract_name_and_id_from_filename. by rewrite E.
Qed.

Lemma primary_spec_witness :
  extract_name_and_id_from_filename
    (py "副本协商解除劳动合同协议书_张三11010119900101123x.PDF")
    = Some (py "张三", py "11010119900101123X")
  ∧ ∃ token,
      primary_shape (py "副本协商解除劳动合同协议书_张三11010119900101123x.PDF")
        (py "张三") token
      ∧ py "11010119900101123X" = upper token.
Proof.
  apply (proj2 (primary_spec (py "副本协商解除劳动合同协议书_张三11010119900101123x.PDF"))
           (py "张三") (py "11010119900101123X")).
  vm_compute. reflexivity.
Defined.

(** C5 as stated fails: extra characters before the prefix do not stop the
    primary attempt, and the file name is matched. *)
Lemma text_before_prefix_is_matched :
  primary (py "副本协商解除劳动合同协议书_张三110101199001011234.pdf")
    = Some (py "张三", py "110101199001011234")
  ∧ extract_name_and_id_from_filename
      (py "副本协商解除劳动合同协议书_张三110101199001011234.pdf") ≠ None.
Proof. split; [vm_compute; reflexivity | vm_compute; discriminate]. Qed.

End grammar_b_spec.

(** ** The copy pipeline on ID tokens *)

Module copy_spec.

Import match_pdfs re_spec grammar_b_spec.

Lemma digit_in_ge runs c d :
  Forall (λ z, 48 ≤ z)%N runs → digit_in runs c = Some d → (48 ≤ c)%N.
Proof.
  induction 1 as [|z runs Hz Hr IH]; cbn [digit_in]; [done|].
  destruct ((z <=? c)%N && (c <? z + 10)%N) eqn:E; [|done].
  apply andb_true_iff in E as [E%N.leb_le _]. lia.
Qed.

Lemma isdecimal_ge c : isdecimal c = true → (48 ≤ c)%N.
Proof.
  unfold isdecimal, digit_value. destruct (digit_in decimal_runs c) eqn:E; [|done].
  intros _. eapply digit_in_ge; [|exact E].
  apply (Forall_impl (λ z, (48 <=? z)%N = true)).
  - by apply forallb_Forall.
  - by intros z Hz%N.leb_le.
Qed.

Lemma id_token_chars t :
  is_id_token t = true → length t = 18 ∧ Forall id_char t.
Proof.
  unfold is_id_token. rewrite !andb_true_iff, bool_decide_eq_true, !forallb_Forall.
  intros [[Hlen Ha] Hb]. split; [done|].
  rewrite <- (take_drop 17 t). apply Forall_app. split.
  - eapply Forall_impl; [exact Ha|]. intros c Hc. by left.
  - eapply Forall_impl; [exact Hb|]. intros c.
    rewrite !orb_true_iff, !N.eqb_eq. unfold id_char. tauto.
Qed.

Lemma id_char_not_dot c : id_char c → c ≠ 46%N.
Proof. intros [Hc%isdecimal_ge|[->| ->]]; lia. Qed.

(** *** Helpers on the string builtins *)

Lemma startswith_app p s : startswith (p ++ s) p = true.
Proof. induction p as [|x p IH]; [by destruct s|]. cbn. by rewrite N.eqb_refl. Qed.

Lemma endswith_refl s : endswith s s = true.
Proof.
  unfold endswith. rewrite <- (app_nil_r (rev s)) at 1. apply startswith_app.
Qed.

Lemma replace_ext a :
  Forall (λ c, c ≠ 46%N) a → replace (a ++ DOT_PDF) DOT_PDF [] = a.
Proof.
  unfold replace. induction 1 as [|c a Hc Ha IH]; [done|].
  cbn [app replace_from]. unfold DOT_PDF at 2. cbn [startswith].
  apply N.eqb_neq in Hc as ->. cbn [andb]. by rewrite IH.
Qed.

(** *** [findall] with the ID pattern *)

Lemma findall_from_short ic whole r s n :
  length s ≤ n → findall_from ic whole r s n = [].
Proof.
  revert n. induction s as [|c s IH]; intros n Hn; [done|].
  cbn [length] in Hn. destruct n as [|n]; [lia|].
  cbn [findall_from]. apply IH. lia.
Qed.

Lemma id_match_not_digit whole c s :
  isdecimal c = false → match_at true whole id_pattern (c :: s) = None.
Proof.
  intros Hc. unfold match_at, id_pattern. cbn [run times atom_ok]. by rewrite Hc.
Qed.

Lemma findall_skip whole a s :
  Forall (λ c, isdecimal c = false) a →
  findall_from true whole id_pattern (a ++ s) 0 = findall_from true whole id_pattern s 0.
Proof.
  induction 1 as [|c a Hc Ha IH]; [done|].
  cbn [app findall_from]. by rewrite id_match_not_digit.
Qed.

Lemma id_match_token whole t rest :
  is_id_token t = true →
  match_at true whole id_pattern (t ++ rest) = Some {| group0 := t; captures := ∅ |}.
Proof.
  intros Ht.
  destruct (match_at_complete true whole id_pattern t rest ∅) as [m Hm];
    [by apply id_pattern_matches|].
  rewrite Hm. f_equal.
  apply match_at_sound in Hm as (s1 & s2 & E & Hg & [Hs1 Hc]%id_pattern_matches).
  apply id_token_chars in Ht as [Hlen _]. apply id_token_chars in Hs1 as [Hlen1 _].
  apply app_inj_1 in E as [-> _]; [|lia].
  destruct m as [g0 cs]. cbn in *. by subst.
Qed.

Lemma findall_token whole t :
  is_id_token t = true → findall_from true whole id_pattern t 0 = [t].
Proof.
  intros Ht. pose proof (id_match_token whole t [] Ht) as Hm.
  rewrite app_nil_r in Hm.
  apply id_token_chars in Ht as [Hlen _].
  destruct t as [|c t]; [done|].
  cbn [findall_from]. rewrite Hm. cbn [group0]. f_equal.
  apply findall_from_short. cbn [length] in *. lia.
Qed.

Lemma prefix_no_digit : Forall (λ c, isdecimal c = false) PREFIX.
Proof. repeat constructor. Qed.

Lemma prefix_no_dot : Forall (λ c, c ≠ 46%N) PREFIX.
Proof. repeat constructor; done. Qed.

(** The fallback on the prefix directly followed by an ID token. *)
Lemma fallback_bare_id t :
  is_id_token t = true →
  fallback (PREFIX ++ t ++ DOT_PDF) = Some ([], upper t).
Proof.
  intros Ht. pose proof (id_token_chars t Ht) as [Hlen Hch].
  unfold fallback.
  replace (PREFIX ++ t ++ DOT_PDF) with ((PREFIX ++ t) ++ DOT_PDF) by (by rewrite <- app_assoc).
  rewrite replace_ext.
  2:{ apply Forall_app. split; [exact prefix_no_dot|].
      eapply Forall_impl; [exact Hch|]. apply id_char_not_dot. }
  unfold findall. rewrite (findall_skip _ _ _ prefix_no_digit), (findall_token _ _ Ht).
  cbn [last]. rewrite startswith_app.
  unfold slice_from, slice_to_minus. rewrite drop_app_length, endswith_refl.
  by rewrite Hlen, Nat.sub_diag, take_0.
Qed.

(** The primary attempt needs at least one character of name. *)
Lemma primary_bare_id t :
  is_id_token t = true → primary (PREFIX ++ t ++ DOT_PDF) = None.
Proof.
  intros Ht. destruct (primary _) as [[name id]|] eqn:E; [|done].
  apply primary_sound in E
    as (token & (pre & ext & post & E & [Hne _] & Htok & Hext) & _).
  apply (f_equal length) in E, Hext.
  apply id_token_chars in Ht as [Hlen _]. apply id_token_chars in Htok as [Hlen' _].
  unfold lower in Hext. rewrite length_map in Hext.
  rewrite !length_app, Hlen, Hlen', Hext in E.
  destruct name; [done|]. cbn [length] in E. lia.
Qed.

(** C9: a file name made of the prefix, an ID token and [.pdf], with no name
    in between, is not matched by the primary attempt, the fallback returns
    the empty name with the upper-cased token, and the copy loop goes on to
    the membership test with it: the document is placed in the output folder
    when the token is among the spreadsheet IDs. *)
Theorem bare_id_gives_empty_name t :
  is_id_token t = true →
  let f := PREFIX ++ t ++ DOT_PDF in
  primary f = None
  ∧ extract_name_and_id_from_filename f = Some ([], upper t)
  ∧ ∀ ids raises st,
      process ids raises st f =
        if bool_decide (upper t ∈ ids) then output.place raises st f
        else output.unmatched st.
Proof.
  intros Ht f.
  assert (extract_name_and_id_from_filename f = Some ([], upper t)) as E.
  { unfold extract_name_and_id_from_filename, f.
    by rewrite (primary_bare_id t Ht), (fallback_bare_id t Ht). }
  split; [by apply primary_bare_id|]. split; [done|].
  intros ids raises st. unfold process. by rewrite E.
Qed.

Lemma bare_id_gives_empty_name_witness :
  extract_name_and_id_from_filename
    (PREFIX ++ py "11010119900101123x" ++ DOT_PDF) = Some ([], py "11010119900101123X").
Proof.
  exact (proj1 (proj2 (bare_id_gives_empty_name (py "11010119900101123x") eq_refl))).
Defined.

(** C1: the main loop does not treat the two spellings of the check
    character as one key.  The ID set read from the spreadsheet keeps the
    cell's lower-case x, the extracted ID is upper-cased, so the membership
    test fails and the document is counted as unmatched; the annotation pass
    of the same script upper-cases the cell first and marks the row as found. *)
Theorem copy_loop_is_case_sensitive :
  let ids := default ∅ (read_excel_id_numbers (sheet lowercase_cell)) in
  let st := match_and_copy_pdfs ids (λ _, false) ∅ [capital_file] in
  read_excel_id_numbers (sheet lowercase_cell) = Some {[py "11010119900101123x"]}
  ∧ extract_name_and_id_from_filename capital_file
      = Some (py "张三", py "11010119900101123X")
  ∧ bool_decide (py "11010119900101123X" ∈ ids) = false
  ∧ output.matched_count st = 0 ∧ output.unmatched_count st = 1
  ∧ mark_row (pdf_id_numbers [capital_file]) lowercase_cell = Some Success.
Proof. repeat split; vm_compute; reflexivity. Qed.

(** The other way round the two spellings do meet: the extracted ID is
    upper-cased and the cell already is. *)
Example lowercase_file_is_matched :
  let ids := default ∅ (read_excel_id_numbers (sheet capital_cell)) in
  output.matched_count (match_and_copy_pdfs ids (λ _, false) ∅ [lowercase_file]) = 1.
Proof. vm_compute. reflexivity. Qed.

End copy_spec.

(** ** The numeric key clean-up *)

Module key_spec.

Import text_spec.

Lemma contains_dot l r : contains (l ++ DOT ++ r) DOT = true.
Proof.
  induction l as [|c l IH]; [by destruct r|].
  cbn [app contains]. rewrite IH. apply orb_true_r.
Qed.

(** C4, as the code has it: the text of a natural number [n] up to [2^53]
    followed by [.0] is normalised to the text of [n] (beyond [2^53] the
    detour through binary64 may round), and a key whose conversion fails -
    [float] rejects it, or [int] rejects an infinity or a NaN - is left as
    it is. *)
Theorem normalize_key_spec (n : N) (key : str) :
  (n ≤ 2 ^ 53)%N →
  float_of_str key ≫= int_of_float = None →
  normalize_key (str_of_N n ++ POINT_ZERO) = str_of_N n
  ∧ normalize_key key = key.
Proof.
  intros Hn Hfail. split.
  - unfold normalize_key.
    change POINT_ZERO with (DOT ++ [48%N]) at 1.
    rewrite (contains_dot (str_of_N n) [48%N]).
    change (DOT ++ [48%N]) with POINT_ZERO. rewrite float_of_point_zero.
    rewrite int_of_round_exact; [apply str_of_Z_of_N|].
    split; [lia|]. change (2 ^ 53)%Z with (Z.of_N (2 ^ 53)). by apply N2Z.inj_le.
  - unfold normalize_key. destruct (contains key DOT); [|done].
    destruct (float_of_str key) as [x|]; [|done].
    cbn in Hfail. by rewrite Hfail.
Qed.

Lemma normalize_key_spec_witness :
  normalize_key (str_of_N 100000123 ++ POINT_ZERO) = str_of_N 100000123
  ∧ normalize_key (py "2024.01.15") = py "2024.01.15".
Proof.
  apply (normalize_key_spec 100000123 (py "2024.01.15")).
  - vm_compute. discriminate.
  - vm_compute. reflexivity.
Defined.

(** C4 as stated fails: above [2^53] the key changes. *)
Lemma large_key_is_rounded :
  normalize_key (str_of_N 9007199254740993 ++ POINT_ZERO) = str_of_N 9007199254740992.
Proof. vm_compute. reflexivity. Qed.

Lemma large_key_not_preserved :
  normalize_key (str_of_N 9007199254740993 ++ POINT_ZERO) ≠ str_of_N 9007199254740993.
Proof. vm_compute. discriminate. Qed.

End key_spec.

(** ** Collision-safe names and the counters of the three loops *)

Module output_spec.

Import output text_spec.

Lemma new_name_inj base ext j k : new_name base ext j = new_name base ext k → j = k.
Proof.
  unfold new_name. intros E. do 2 apply app_inv_head in E.
  apply app_inv_tail in E. by apply str_of_N_inj.
Qed.

(** The first [n] suffixed names, for [n] above the size of the folder, are
    not all taken. *)
Lemma free_suffix_exists (out : gset str) base ext :
  ∃ k, (1 ≤ k < 1 + N.of_nat (S (size out)))%N ∧ new_name base ext k ∉ out.
Proof.
  set (name i := new_name base ext (N.of_nat i)).
  set (l := name <$> seq 1 (S (size out))).
  destruct (decide (Forall (λ x, x ∈ out) l)) as [Hall|Hex].
  - assert (NoDup l) as Hnd.
    { apply NoDup_fmap_2; [|apply NoDup_seq].
      intros i j E%new_name_inj. lia. }
    assert (list_to_set l ⊆ out) as Hsub.
    { intros x Hx%elem_of_list_to_set. rewrite Forall_forall in Hall. by apply Hall. }
    apply subseteq_size in Hsub. rewrite size_list_to_set in Hsub by done.
    unfold l in Hsub. rewrite length_fmap, length_seq in Hsub. lia.
  - apply not_Forall_Exists, Exists_exists in Hex as (x & Hx & Hfree); [|apply _].
    apply list_elem_of_fmap in Hx as (i & -> & Hi%elem_of_seq).
    exists (N.of_nat i). split; [lia | done].
Qed.

Lemma avoid_finds (out : gset str) base ext fuel dest c :
  dest ∈ out →
  (∃ k, (c ≤ k < c + N.of_nat fuel)%N ∧ new_name base ext k ∉ out) →
  ∃ k, (c ≤ k)%N
       ∧ avoid out base ext fuel dest c = Some (new_name base ext k)
       ∧ (new_name base ext k ∉ out)
       ∧ ∀ j, (c ≤ j < k)%N → new_name base ext j ∈ out.
Proof.
  revert dest c. induction fuel as [|fuel IH]; intros dest c Hin (k & Hk & Hfree); [lia|].
  cbn [avoid]. rewrite bool_decide_eq_true_2 by done.
  destruct (decide (new_name base ext c ∈ out)) as [Hc|Hc].
  - destruct (IH (new_name base ext c) (c + 1)%N Hc) as (k' & Hk' & E & Hfree' & Hmin).
    { exists k. split; [|done]. assert (k ≠ c) by (by intros ->). lia. }
    exists k'. repeat split; [lia | done | done |].
    intros j Hj. destruct (decide (j = c)) as [->|]; [done|]. apply Hmin. lia.
  - exists c. repeat split; [lia | | done | intros; lia].
    destruct fuel; cbn [avoid]; by rewrite bool_decide_eq_false_2.
Qed.

(** The search for a destination always ends. *)
Lemma dest_name_total (out : gset str) f : is_Some (dest_name out f).
Proof.
  unfold dest_name. case_bool_decide as Hin; [|done].
  destruct (avoid_finds out (pathlib.stem f) (pathlib.suffix f) (S (size out)) f 1 Hin
              (free_suffix_exists out _ _)) as (k & _ & -> & _).
  done.
Qed.

(** C8: when the file name is already present in the output folder, the
    destination is the name with suffix [_k] before the extension for the
    smallest [k >= 1] whose name is not in the folder; the name chosen is
    not in the folder. *)
Theorem dest_name_smallest_free (out : gset str) f :
  f ∈ out →
  ∃ k, (1 ≤ k)%N
       ∧ dest_name out f = Some (new_name (pathlib.stem f) (pathlib.suffix f) k)
       ∧ (new_name (pathlib.stem f) (pathlib.suffix f) k ∉ out)
       ∧ ∀ j, (1 ≤ j < k)%N → new_name (pathlib.stem f) (pathlib.suffix f) j ∈ out.
Proof.
  intros Hin. unfold dest_name. rewrite bool_decide_eq_true_2 by done.
  apply avoid_finds; [done | apply free_suffix_exists].
Qed.

Lemma dest_name_smallest_free_witness :
  ∃ k, (1 ≤ k)%N
       ∧ dest_name busy_folder (py "a.pdf")
           = Some (new_name (pathlib.stem (py "a.pdf")) (pathlib.suffix (py "a.pdf")) k)
       ∧ (new_name (pathlib.stem (py "a.pdf")) (pathlib.suffix (py "a.pdf")) k
            ∉ busy_folder)
       ∧ ∀ j, (1 ≤ j < k)%N →
           new_name (pathlib.stem (py "a.pdf")) (pathlib.suffix (py "a.pdf")) j
             ∈ busy_folder.
Proof.
  apply (dest_name_smallest_free busy_folder (py "a.pdf")).
  apply (bool_decide_eq_true_1 (py "a.pdf" ∈ busy_folder)). vm_compute. reflexivity.
Defined.

Example dest_name_ex : dest_name busy_folder (py "a.pdf") = Some (py "a_2.pdf").
Proof. vm_compute. reflexivity. Qed.

(** *** The counters *)










(** C6 fails on the code for the rename pipeline.  [new_path.exists()] is
    called before the [try] (line 201), and for a composed name that is
    longer than a file name may be it raises: the loop is left at the second
    of three documents, with one document counted, and the third is never
    looked at.  The copy and the move loop call [exists] inside the [try]
    and count such a document as an error. *)
Theorem rename_loop_stops_at_long_name :
  ∃ st,
    main.rename_pdf_files main.three_rows main.name_too_long
      (λ _, main.Elsewhere) (λ _, false) (λ _, false)
      (list_to_set main.three_documents) main.three_documents = main.Raised st
    ∧ main.success_count st = 1
    ∧ main.total st = 1
    ∧ length main.three_documents = 3.
Proof. eexists. split; [vm_compute; reflexivity|]. by vm_compute. Qed.


End output_spec.

(** ** The backup made before the annotated table is written *)

Module writeback_spec.

Import writeback pathlib.

Lemma rfind_dot_lt name i : rfind_dot name = Some i → i < length name.
Proof.
  revert i. induction name as [|c name IH]; intros i; cbn [rfind_dot length]; [done|].
  destruct (rfind_dot name) as [j|].
  - intros [= <-]. specialize (IH j eq_refl). lia.
  - destruct (c =? 46)%N; [|done]. intros [= <-]. lia.
Qed.

Lemma stem_suffix name : stem name ++ suffix name = name.
Proof.
  unfold stem, suffix. destruct (suffix_at name).
  - apply take_drop.
  - apply app_nil_r.
Qed.

(** [with_suffix] puts the new suffix after the stem. *)
Lemma with_suffix_stem name new_suffix :
  with_suffix name new_suffix = stem name ++ new_suffix.
Proof.
  unfold with_suffix, stem, suffix, suffix_at.
  destruct (rfind_dot name) as [i|] eqn:E; [|done].
  apply rfind_dot_lt in E. case_bool_decide as Hi; [|done].
  destruct (drop i name) as [|c l] eqn:Ed.
  - apply (f_equal length) in Ed. rewrite length_drop in Ed. cbn in Ed. lia.
  - rewrite <- Ed, length_drop. f_equal. f_equal. lia.
Qed.

Lemma with_suffix_ne name new_suffix :
  suffix name ≠ new_suffix → with_suffix name new_suffix ≠ name.
Proof.
  intros Hne E. rewrite with_suffix_stem in E.
  rewrite <- (stem_suffix name) in E at 2. by apply app_inv_head in E.
Qed.

Lemma with_suffix_inj name s1 s2 :
  with_suffix name s1 = with_suffix name s2 → s1 = s2.
Proof. rewrite !with_suffix_stem. apply app_inv_head. Qed.

Lemma xls_suffix_length name : is_xls name = true → length (suffix name) = 4.
Proof.
  unfold is_xls. intros E%bool_decide_eq_true. apply (f_equal length) in E.
  unfold lower in E. by rewrite length_map in E.
Qed.

Section folder.
Context {content : Type}.
Implicit Types (w : world content) (v df : content).

(** [if backup_path.exists(): backup_path.unlink()], then the rest. *)
Lemma clear_stale {T} bk (k : io content T) w :
  bind (exists_ bk) (λ present, bind (if present : bool then unlink bk else ret tt) (λ _, k)) w
  = k {| files := delete bk (files w); log := log w ++ removed w bk |}.
Proof.
  unfold bind, exists_, removed. case_bool_decide as Hex.
  - unfold unlink. destruct Hex as [x ->]. done.
  - apply eq_None_not_Some in Hex. unfold ret.
    rewrite delete_id, app_nil_r by done. by destruct w.
Qed.

Lemma make_backup_xls w excel v :
  is_xls excel = true → files w !! excel = Some v →
  with_suffix excel XLSX_BACKUP ≠ excel →
  make_backup excel w =
    Some (with_suffix excel XLSX,
          {| files := <[with_suffix excel XLSX_BACKUP := v]>
                        (delete excel (delete (with_suffix excel XLSX_BACKUP) (files w)));
             log := (log w ++ removed w (with_suffix excel XLSX_BACKUP))
                      ++ [Renamed excel (with_suffix excel XLSX_BACKUP)] |}).
Proof.
  intros Hx Hv Hne. unfold make_backup. rewrite Hx. cbv iota zeta.
  rewrite clear_stale. unfold bind, rename, ret. cbn [files log].
  by rewrite lookup_delete_ne, Hv.
Qed.

Lemma make_backup_other w excel v :
  is_xls excel = false → files w !! excel = Some v →
  with_suffix excel BACKUP ≠ excel →
  make_backup excel w =
    Some (excel,
          {| files := <[with_suffix excel BACKUP := v]>
                        (delete (with_suffix excel BACKUP) (files w));
             log := (log w ++ removed w (with_suffix excel BACKUP))
                      ++ [Copied excel (with_suffix excel BACKUP)] |}).
Proof.
  intros Hx Hv Hne. unfold make_backup. rewrite Hx. cbv iota zeta.
  rewrite clear_stale. unfold bind, copy2, ret. cbn [files log].
  by rewrite lookup_delete_ne, Hv.
Qed.

(** C10: a file found at the backup path is unlinked before the new backup
    is made, so the backup holds the spreadsheet of this run only.  For an
    [.xls] spreadsheet the original is renamed to the backup path before
    the annotated [.xlsx] is written: from the rename on, also after the
    write, no file is left at the original path.  Otherwise the original is
    copied to the backup path and then overwritten in place. *)
Theorem backup_before_write w excel v df :
  files w !! excel = Some v →
  let bk := backup_path excel in
  (is_xls excel = true →
     let target := with_suffix excel XLSX in
     ∃ w1 w2,
       make_backup excel w = Some (target, w1)
       ∧ log w1 = log w ++ removed w bk ++ [Renamed excel bk]
       ∧ files w1 !! excel = None ∧ files w1 !! bk = Some v
       ∧ save_annotated df excel w = Some (tt, w2)
       ∧ log w2 = log w1 ++ [Written target]
       ∧ files w2 !! excel = None ∧ files w2 !! bk = Some v
       ∧ files w2 !! target = Some df)
  ∧ (is_xls excel = false → suffix excel ≠ BACKUP →
     ∃ w2,
       save_annotated df excel w = Some (tt, w2)
       ∧ log w2 = log w ++ removed w bk ++ [Copied excel bk; Written excel]
       ∧ files w2 !! bk = Some v ∧ files w2 !! excel = Some df).
Proof.
  intros Hv bk. subst bk. unfold backup_path. split.
  - intros Hx. set (target := with_suffix excel XLSX). rewrite Hx.
    assert (length (suffix excel) = 4) as Hlen by (by apply xls_suffix_length).
    assert (with_suffix excel XLSX_BACKUP ≠ excel) as Hbk.
    { apply with_suffix_ne. intros E. by rewrite E in Hlen. }
    assert (target ≠ excel) as Htg.
    { apply with_suffix_ne. intros E. by rewrite E in Hlen. }
    assert (with_suffix excel XLSX_BACKUP ≠ target) as Hbt.
    { by intros E%with_suffix_inj. }
    unfold save_annotated, bind. rewrite (make_backup_xls w excel v) by done.
    unfold to_excel. fold target.
    eexists _, _. repeat split; cbn [files log].
    + by rewrite <- app_assoc.
    + rewrite lookup_insert_ne by done. apply lookup_delete_eq.
    + apply lookup_insert_eq.
    + rewrite !lookup_insert_ne by done. apply lookup_delete_eq.
    + rewrite lookup_insert_ne by done. apply lookup_insert_eq.
    + apply lookup_insert_eq.
  - intros Hx Hsuf. rewrite Hx.
    assert (with_suffix excel BACKUP ≠ excel) as Hbk by (by apply with_suffix_ne).
    unfold save_annotated, bind. rewrite (make_backup_other w excel v) by done.
    unfold to_excel.
    eexists. repeat split; cbn [files log].
    + by rewrite <- !app_assoc.
    + rewrite lookup_insert_ne by done. apply lookup_insert_eq.
    + apply lookup_insert_eq.
Qed.
End folder.

Lemma backup_before_write_witness :
  (∃ w1 w2,
     make_backup (py "list.xls") second_run = Some (py "list.xlsx", w1)
     ∧ log w1 = [Unlinked (py "list.xlsx.backup");
                 Renamed (py "list.xls") (py "list.xlsx.backup")]
     ∧ files w1 !! py "list.xls" = None
     ∧ files w1 !! py "list.xlsx.backup" = Some 1
     ∧ save_annotated 2 (py "list.xls") second_run = Some (tt, w2)
     ∧ log w2 = log w1 ++ [Written (py "list.xlsx")]
     ∧ files w2 !! py "list.xls" = None
     ∧ files w2 !! py "list.xlsx.backup" = Some 1
     ∧ files w2 !! py "list.xlsx" = Some 2)
  ∧ (∃ w2,
       save_annotated 3 (py "list.xlsx") third_run = Some (tt, w2)
       ∧ log w2 = [Unlinked (py "list.backup");
                   Copied (py "list.xlsx") (py "list.backup");
                   Written (py "list.xlsx")]
       ∧ files w2 !! py "list.backup" = Some 2
       ∧ files w2 !! py "list.xlsx" = Some 3).
Proof.
  split.
  - exact (proj1 (backup_before_write second_run (py "list.xls") 1 2 eq_refl) eq_refl).
  - apply (proj2 (backup_before_write third_run (py "list.xlsx") 2 3 eq_refl)).
    + reflexivity.
    + vm_compute. discriminate.
Defined.

End writeback_spec.

(* ===================================================================== *)
(** * More of the scripts *)
(* ===================================================================== *)

(** ** The string builtins *)

Module str_spec.

Lemma startswith_spec s p : startswith s p = true ↔ ∃ r, s = p ++ r.
Proof.
  revert s. induction p as [|x p IH]; intros s.
  - split; [by exists s | by destruct s].
  - destruct s as [|c s]; cbn [startswith].
    + split; [done | by intros [r ?]].
    + rewrite andb_true_iff, N.eqb_eq, IH. split.
      * intros [-> [r ->]]. by exists r.
      * intros [r [= -> ->]]. eauto.
Qed.

Lemma endswith_spec s p : endswith s p = true ↔ ∃ r, s = r ++ p.
Proof.
  unfold endswith. rewrite startswith_spec. split.
  - intros [r E]. exists (rev r). apply (f_equal (@rev N)) in E.
    by rewrite rev_app_distr, !rev_involutive in E.
  - intros [r ->]. exists (rev r). by rewrite rev_app_distr.
Qed.

Lemma contains_spec s sub : contains s sub = true ↔ ∃ a b, s = a ++ sub ++ b.
Proof.
  induction s as [|c s IH]; cbn [contains].
  - rewrite orb_false_r, startswith_spec. split.
    + intros [r E]. by exists [], r.
    + intros (a & b & E). destruct a; [by exists b|done].
  - rewrite orb_true_iff, startswith_spec, IH. split.
    + intros [[r E]|(a & b & ->)]; [by exists [], r | by exists (c :: a), b].
    + intros ([|c' a] & b & E); [left; by exists b|].
      injection E as -> ->. right. by exists a, b.
Qed.

Lemma contains_sub a s b sub : contains s sub = true → contains (a ++ s ++ b) sub = true.
Proof.
  rewrite !contains_spec. intros (a' & b' & ->).
  exists (a ++ a'), (b' ++ b). by rewrite <- !app_assoc.
Qed.

(** [lstrip] removes a run of blanks, and all of them. *)
Lemma lstrip_spec s :
  ∃ sp, s = sp ++ lstrip s ∧ Forall (λ c, isspace c = true) sp
        ∧ head (isspace <$> lstrip s) ≠ Some true.
Proof.
  induction s as [|c s (sp & E & Hsp & Hh)]; [by exists []|].
  cbn [lstrip]. destruct (isspace c) eqn:Hc.
  - exists (c :: sp). repeat split; [by rewrite E at 1 | by constructor | done].
  - exists []. repeat split; [constructor|]. cbn. by rewrite Hc.
Qed.

Lemma lstrip_id s : head (isspace <$> s) ≠ Some true → lstrip s = s.
Proof. destruct s as [|c s]; [done|]. cbn. by destruct (isspace c). Qed.

Lemma lstrip_idem s : lstrip (lstrip s) = lstrip s.
Proof. destruct (lstrip_spec s) as (_ & _ & _ & H). by apply lstrip_id. Qed.

(** [rstrip] cuts a run of blanks off the end. *)
Lemma rstrip_spec s : ∃ sp, s = rstrip s ++ sp ∧ Forall (λ c, isspace c = true) sp.
Proof.
  unfold rstrip. destruct (lstrip_spec (rev s)) as (sp & E & Hsp & _).
  exists (rev sp). split.
  - apply (f_equal (@rev N)) in E. by rewrite rev_involutive, rev_app_distr in E.
  - apply Forall_forall. intros c Hc%list_elem_of_In%in_rev%list_elem_of_In.
    rewrite Forall_forall in Hsp. by apply Hsp.
Qed.

Lemma rstrip_idem s : rstrip (rstrip s) = rstrip s.
Proof. unfold rstrip. by rewrite rev_involutive, lstrip_idem. Qed.

(** Cutting blanks off the end leaves a first character that is no blank
    in place. *)
Lemma rstrip_head s :
  head (isspace <$> s) ≠ Some true → head (isspace <$> rstrip s) ≠ Some true.
Proof.
  destruct (rstrip_spec s) as (sp & E & _). intros H.
  destruct (rstrip s) as [|c t]; [done|]. rewrite E in H. exact H.
Qed.

Lemma strip_idem s : strip (strip s) = strip s.
Proof.
  unfold strip. destruct (lstrip_spec s) as (_ & _ & _ & H).
  rewrite (lstrip_id (rstrip (lstrip s))) by (by apply rstrip_head).
  apply rstrip_idem.
Qed.

(** The stripped text is a piece of the text. *)
Lemma strip_sub s : ∃ a b, s = a ++ strip s ++ b.
Proof.
  unfold strip. destruct (lstrip_spec s) as (a & E & _).
  destruct (rstrip_spec (lstrip s)) as (b & E' & _).
  exists a, b. by rewrite <- E'.
Qed.

(** The characters of [str(z)]: a minus sign or decimal digits. *)
Lemma str_of_Z_chars z :
  str_of_Z z ≠ []
  ∧ Forall (λ c, c = 45%N ∨ is_ascii_digit c = true) (str_of_Z z).
Proof.
  destruct z as [|p|p]; cbn [str_of_Z].
  - destruct (text_spec.str_of_N_spec (Z.to_N 0)) as (? & Hd & _). split; [done|].
    eapply Forall_impl; [exact Hd|]. auto.
  - destruct (text_spec.str_of_N_spec (Z.to_N (Z.pos p))) as (? & Hd & _). split; [done|].
    eapply Forall_impl; [exact Hd|]. auto.
  - destruct (text_spec.str_of_N_spec (N.pos p)) as (? & Hd & _). split; [done|].
    constructor; [by left|]. eapply Forall_impl; [exact Hd|]. auto.
Qed.

Lemma contains_none s x :
  Forall (λ c, c ≠ x) s → contains s [x] = false.
Proof.
  induction 1 as [|c s Hc Hs IH]; [done|].
  cbn [contains startswith]. rewrite IH.
  apply N.eqb_neq in Hc as ->. done.
Qed.

End str_spec.

(** ** Keys after the clean-up *)

Module key_more.

Import str_spec.

(** A key that went through [str(int(float(key)))] has no decimal point. *)
Lemma converted_key_plain z : contains (str_of_Z z) DOT = false.
Proof.
  destruct (str_of_Z_chars z) as [_ Hc]. apply contains_none.
  eapply Forall_impl; [exact Hc|].
  intros c [->|Hd%text_spec.is_ascii_digit_spec]; lia.
Qed.

Lemma normalize_key_cases key :
  normalize_key key = key ∨ ∃ z, normalize_key key = str_of_Z z.
Proof.
  unfold normalize_key. destruct (contains key DOT); [|by left].
  destruct (float_of_str key) as [x|]; [|by left].
  destruct (int_of_float x) as [z|]; [|by left]. right. by exists z.
Qed.

Lemma normalize_key_fixed key :
  normalize_key key = key → normalize_key (normalize_key key) = normalize_key key.
Proof. intros E. by rewrite !E. Qed.

(** X: the clean-up of a join key is idempotent: a key is left as it is, or
    replaced by the text of an integer, which has no decimal point and is
    left as it is. *)
Theorem normalize_key_idempotent key :
  normalize_key (normalize_key key) = normalize_key key
  ∧ (normalize_key key = key
     ∨ ∃ z, normalize_key key = str_of_Z z ∧ contains (str_of_Z z) DOT = false).
Proof.
  destruct (normalize_key_cases key) as [E|[z E]].
  - split; [by apply normalize_key_fixed | by left].
  - split; [|right; exists z; by split; [|apply converted_key_plain]].
    rewrite E. unfold normalize_key. by rewrite converted_key_plain.
Qed.

(** A non-blank cell never gives the empty key or the key [nan]. *)
Lemma normalize_key_not_blank text :
  text ≠ [] → text ≠ pandas.NAN →
  normalize_key text ≠ [] ∧ normalize_key text ≠ pandas.NAN.
Proof.
  intros He Hn. destruct (normalize_key_cases text) as [->|[z ->]]; [done|].
  destruct (str_of_Z_chars z) as [Hne Hc]. split; [done|].
  intros E. rewrite E in Hc. inversion_clear Hc as [|?? [?|?] _]; done.
Qed.

End key_more.

(** ** What the loaders keep of the table *)

Module loaders_spec.

Import str_spec key_more.

Lemma blank_false c :
  blank c = false →
  strip (pandas.str_of_cell c) ≠ [] ∧ strip (pandas.str_of_cell c) ≠ pandas.NAN.
Proof.
  unfold blank. rewrite !orb_false_iff, !bool_decide_eq_false. tauto.
Qed.

(** *** The mapping of [main.py] *)

Lemma add_rows_entries rows m :
  fold_left main.add_row rows m = fold_left main.put (omap main.row_entry rows) m.
Proof.
  revert m. induction rows as [|[[c n] i] rows IH]; intros m; [done|].
  cbn [fold_left]. rewrite IH. csimpl. unfold main.add_row, main.row_entry.
  by destruct (blank c).
Qed.

Lemma put_all_lookup es m k :
  fold_left main.put es m !! k =
    match last (filter (λ e, e.1 = k) es) with
    | Some e => Some e.2
    | None => m !! k
    end.
Proof.
  revert m. induction es as [|e es IH]; intros m; [done|].
  cbn [fold_left]. rewrite IH, filter_cons. unfold main.put.
  destruct (decide (e.1 = k)) as [<-|Hne].
  - rewrite last_cons, lookup_insert_eq. by destruct (last _).
  - rewrite lookup_insert_ne by done. done.
Qed.

Lemma put_all_size es m : size (fold_left main.put es m) ≤ size m + length es.
Proof.
  revert m. induction es as [|e es IH]; intros m; cbn [fold_left length]; [lia|].
  etrans; [apply IH|]. unfold main.put. rewrite map_size_insert.
  destruct (m !! e.1); unfold id; lia.
Qed.

Lemma length_omap_le {A B} (f : A → option B) l : length (omap f l) ≤ length l.
Proof. induction l as [|x l IH]; [done|]. cbn. destruct (f x); cbn; lia. Qed.

(** X: the mapping of [read_excel_mapping] holds, under each key, the name
    and ID of the LAST row with a non-blank contract cell that cleans up to
    that key; a key no such row has is absent; and the mapping has no more
    entries than the table has rows. *)
Theorem read_excel_mapping_lookup df m :
  main.read_excel_mapping df = Some m →
  ∃ c n i,
    main.contract_col (main.find_columns (pandas.columns df)) = Some c
    ∧ main.name_col (main.find_columns (pandas.columns df)) = Some n
    ∧ main.id_col (main.find_columns (pandas.columns df)) = Some i
    ∧ (∀ k, m !! k =
            snd <$> last (filter (λ e, e.1 = k)
                            (omap main.row_entry (main.triples df c n i))))
    ∧ size m ≤ length (pandas.rows df).
Proof.
  unfold main.read_excel_mapping.
  destruct (main.contract_col _) as [c|]; [|done].
  destruct (main.name_col _) as [n|]; [|done].
  destruct (main.id_col _) as [i|]; [|done].
  intros [= <-]. exists c, n, i. repeat split.
  - intros k. fold (main.triples df c n i).
    rewrite add_rows_entries, put_all_lookup, lookup_empty.
    by destruct (last _).
  - fold (main.triples df c n i). rewrite add_rows_entries.
    etrans; [apply put_all_size|]. rewrite map_size_empty.
    etrans; [apply length_omap_le|]. unfold main.triples. by rewrite length_fmap.
Qed.

Lemma read_excel_mapping_lookup_witness :
  ∃ c n i,
    main.contract_col (main.find_columns (pandas.columns main.renumbered)) = Some c
    ∧ main.name_col (main.find_columns (pandas.columns main.renumbered)) = Some n
    ∧ main.id_col (main.find_columns (pandas.columns main.renumbered)) = Some i
    ∧ (∀ k, ({[py "777" := (py "张三", py "110101199001011234")]}
               : gmap str (str * str)) !! k =
            snd <$> last (filter (λ e, e.1 = k)
                            (omap main.row_entry (main.triples main.renumbered c n i))))
    ∧ size ({[py "777" := (py "张三", py "110101199001011234")]} : gmap str (str * str))
      ≤ length (pandas.rows main.renumbered).
Proof.
  apply (read_excel_mapping_lookup main.renumbered). vm_compute. reflexivity.
Defined.

(** *** The ID set of [match_pdfs.py] *)

Lemma add_ids_elem (cells : list pandas.cell) (X : gset str) (id : str) :
  id ∈ fold_left match_pdfs.add_id cells X ↔
  id ∈ X ∨ ∃ c, c ∈ cells ∧ blank c = false
              ∧ normalize_key (strip (pandas.str_of_cell c)) = id.
Proof.
  revert X. induction cells as [|c cells IH]; intros X; cbn [fold_left].
  - split; [by left|]. intros [?|(c & []%elem_of_nil & _)]. done.
  - rewrite IH. unfold match_pdfs.add_id. destruct (blank c) eqn:Hb.
    + split.
      * intros [?|(c' & ? & ? & ?)]; [by left|]. right. exists c'. by rewrite elem_of_cons; auto.
      * intros [?|(c' & [->|?]%elem_of_cons & Hb' & ?)]; [by left|congruence|].
        right. by exists c'.
    + rewrite elem_of_union, elem_of_singleton. split.
      * intros [[->|?]|(c' & ? & ? & ?)]; [|by left|].
        -- right. exists c. by rewrite elem_of_cons; auto.
        -- right. exists c'. by rewrite elem_of_cons; auto.
      * intros [?|(c' & [->|?]%elem_of_cons & Hb' & ?)]; [by left; right | by left; left |].
        right. by exists c'.
Qed.

(** X: the ID set of [read_excel_id_numbers] holds exactly the cleaned-up
    texts of the non-blank cells of the resolved ID column; the empty string
    and [nan] are never in it. *)
Theorem read_excel_id_numbers_spec df ids :
  match_pdfs.read_excel_id_numbers df = Some ids →
  ∃ id_col,
    match_pdfs.find_id_col (pandas.columns df) = Some id_col
    ∧ (∀ id, id ∈ ids ↔
         ∃ row, row ∈ pandas.rows df
                ∧ blank (pandas.at_col df row id_col) = false
                ∧ normalize_key (strip (pandas.str_of_cell (pandas.at_col df row id_col)))
                  = id)
    ∧ ([] ∉ ids) ∧ (pandas.NAN ∉ ids).
Proof.
  unfold match_pdfs.read_excel_id_numbers, match_pdfs.read_excel_dataframe.
  destruct (match_pdfs.find_id_col _) as [id_col|]; [|done].
  intros [= <-]. exists id_col. split; [done|].
  assert (∀ id, id ∈ fold_left match_pdfs.add_id
                        ((λ row, pandas.at_col df row id_col) <$> pandas.rows df) ∅ ↔
            ∃ row, row ∈ pandas.rows df
                   ∧ blank (pandas.at_col df row id_col) = false
                   ∧ normalize_key (strip (pandas.str_of_cell (pandas.at_col df row id_col)))
                     = id) as Hin.
  { intros id. rewrite add_ids_elem. split.
    - intros [[]%elem_of_empty|(c & (row & -> & Hrow)%list_elem_of_fmap & Hb & E)].
      by exists row.
    - intros (row & Hrow & Hb & E). right. exists (pandas.at_col df row id_col).
      split; [|done]. apply list_elem_of_fmap. by exists row. }
  split; [exact Hin|]. split.
  - intros (row & _ & [He Hn]%blank_false & E)%Hin.
    by destruct (normalize_key_not_blank _ He Hn).
  - intros (row & _ & [He Hn]%blank_false & E)%Hin.
    by destruct (normalize_key_not_blank _ He Hn).
Qed.

Lemma read_excel_id_numbers_spec_witness :
  ∃ id_col,
    match_pdfs.find_id_col (pandas.columns (match_pdfs.sheet match_pdfs.capital_cell))
      = Some id_col
    ∧ (∀ id, id ∈ ({[py "11010119900101123X"]} : gset str) ↔
         ∃ row, row ∈ pandas.rows (match_pdfs.sheet match_pdfs.capital_cell)
                ∧ blank (pandas.at_col (match_pdfs.sheet match_pdfs.capital_cell) row id_col)
                  = false
                ∧ normalize_key
                    (strip (pandas.str_of_cell
                              (pandas.at_col (match_pdfs.sheet match_pdfs.capital_cell)
                                 row id_col)))
                  = id)
    ∧ ([] ∉ ({[py "11010119900101123X"]} : gset str))
    ∧ (pandas.NAN ∉ ({[py "11010119900101123X"]} : gset str)).
Proof.
  apply (read_excel_id_numbers_spec (match_pdfs.sheet match_pdfs.capital_cell)).
  vm_compute. reflexivity.
Defined.

(** *** The name set of [match_pdfs_by_name.py] *)

Lemma add_names_elem (cells : list pandas.cell) (X : gset str) (name : str) :
  name ∈ fold_left match_pdfs_by_name.add_name cells X ↔
  name ∈ X ∨ ∃ c, c ∈ cells ∧ blank c = false ∧ strip (pandas.str_of_cell c) = name.
Proof.
  revert X. induction cells as [|c cells IH]; intros X; cbn [fold_left].
  - split; [by left|]. intros [?|(c & []%elem_of_nil & _)]. done.
  - rewrite IH. unfold match_pdfs_by_name.add_name. destruct (blank c) eqn:Hb.
    + split.
      * intros [?|(c' & ? & ? & ?)]; [by left|]. right. exists c'. by rewrite elem_of_cons; auto.
      * intros [?|(c' & [->|?]%elem_of_cons & Hb' & ?)]; [by left|congruence|].
        right. by exists c'.
    + rewrite elem_of_union, elem_of_singleton. split.
      * intros [[->|?]|(c' & ? & ? & ?)]; [|by left|].
        -- right. exists c. by rewrite elem_of_cons; auto.
        -- right. exists c'. by rewrite elem_of_cons; auto.
      * intros [?|(c' & [->|?]%elem_of_cons & Hb' & ?)]; [by left; right | by left; left |].
        right. by exists c'.
Qed.

(** X: the name set of [read_excel_names] holds exactly the stripped texts
    of the non-blank cells of the resolved name column; every name in it is
    non-empty, is not [nan], and has no blank at either end. *)
Theorem read_excel_names_spec df names :
  match_pdfs_by_name.read_excel_names df = Some names →
  ∃ name_col,
    match_pdfs_by_name.find_name_col (pandas.columns df) = Some name_col
    ∧ (∀ name, name ∈ names ↔
         ∃ row, row ∈ pandas.rows df
                ∧ blank (pandas.at_col df row name_col) = false
                ∧ strip (pandas.str_of_cell (pandas.at_col df row name_col)) = name)
    ∧ (∀ name, name ∈ names → name ≠ [] ∧ name ≠ pandas.NAN ∧ strip name = name).
Proof.
  unfold match_pdfs_by_name.read_excel_names, match_pdfs_by_name.read_excel_dataframe.
  destruct (match_pdfs_by_name.find_name_col _) as [name_col|]; [|done].
  intros [= <-]. exists name_col. split; [done|].
  assert (∀ name, name ∈ fold_left match_pdfs_by_name.add_name
                        ((λ row, pandas.at_col df row name_col) <$> pandas.rows df) ∅ ↔
            ∃ row, row ∈ pandas.rows df
                   ∧ blank (pandas.at_col df row name_col) = false
                   ∧ strip (pandas.str_of_cell (pandas.at_col df row name_col)) = name)
    as Hin.
  { intros name. rewrite add_names_elem. split.
    - intros [[]%elem_of_empty|(c & (row & -> & Hrow)%list_elem_of_fmap & Hb & E)].
      by exists row.
    - intros (row & Hrow & Hb & E). right. exists (pandas.at_col df row name_col).
      split; [|done]. apply list_elem_of_fmap. by exists row. }
  split; [exact Hin|].
  intros name (row & _ & [He Hn]%blank_false & <-)%Hin.
  repeat split; [done..|]. apply strip_idem.
Qed.

Lemma read_excel_names_spec_witness :
  ∃ name_col,
    match_pdfs_by_name.find_name_col
      (pandas.columns (match_pdfs.sheet match_pdfs.capital_cell)) = Some name_col
    ∧ (∀ name, name ∈ ({[py "张三"]} : gset str) ↔
         ∃ row, row ∈ pandas.rows (match_pdfs.sheet match_pdfs.capital_cell)
                ∧ blank (pandas.at_col (match_pdfs.sheet match_pdfs.capital_cell) row name_col)
                  = false
                ∧ strip (pandas.str_of_cell
                           (pandas.at_col (match_pdfs.sheet match_pdfs.capital_cell)
                              row name_col)) = name)
    ∧ (∀ name, name ∈ ({[py "张三"]} : gset str) →
         name ≠ [] ∧ name ≠ pandas.NAN ∧ strip name = name).
Proof.
  apply (read_excel_names_spec (match_pdfs.sheet match_pdfs.capital_cell)).
  vm_compute. reflexivity.
Defined.

End loaders_spec.

(** ** Grammar B : what an extracted pair is *)

Module grammar_b_more.

Import match_pdfs re_spec grammar_b_spec copy_spec str_spec.

Lemma digit_in_not_lower runs c d :
  Forall (λ z, (z + 10 ≤ 97 ∨ 122 < z)%N) runs →
  digit_in runs c = Some d → ¬ (97 ≤ c ≤ 122)%N.
Proof.
  induction 1 as [|z runs Hz Hr IH]; cbn [digit_in]; [done|].
  destruct ((z <=? c)%N && (c <? z + 10)%N) eqn:E; [|done].
  apply andb_true_iff in E as [E1%N.leb_le E2%N.ltb_lt]. lia.
Qed.

(** Decimal digits have no upper case. *)
Lemma upper_cp_decimal c : isdecimal c = true → upper_cp c = c.
Proof.
  unfold isdecimal, digit_value. destruct (digit_in decimal_runs c) eqn:E; [|done].
  intros _. assert (¬ (97 ≤ c ≤ 122)%N) as Hc.
  { eapply digit_in_not_lower; [|exact E].
    apply (Forall_impl (λ z, ((z + 10 <=? 97) || (122 <? z))%N = true)).
    - by apply forallb_Forall.
    - intros z [?%N.leb_le|?%N.ltb_lt]%orb_true_iff; lia. }
  unfold upper_cp. destruct (97 <=? c)%N eqn:E1; destruct (c <=? 122)%N eqn:E2; try done.
  apply N.leb_le in E1, E2. lia.
Qed.

Lemma upper_fixed l : Forall (λ c, upper_cp c = c) l → upper l = l.
Proof.
  induction 1 as [|c l Hc Hl IH]; [done|].
  unfold upper in *. cbn [map]. by rewrite IH, Hc.
Qed.

Lemma upper_decimals l : Forall (λ c, isdecimal c = true) l → upper l = l.
Proof.
  induction 1 as [|c l Hc Hl IH]; [done|].
  unfold upper in *. cbn [map]. by rewrite IH, upper_cp_decimal.
Qed.

Lemma upper_cp_last c :
  (isdecimal c || (c =? 88)%N || (c =? 120)%N) = true →
  (isdecimal (upper_cp c) || (upper_cp c =? 88)%N || (upper_cp c =? 120)%N) = true
  ∧ upper_cp (upper_cp c) = upper_cp c.
Proof.
  intros [[Hc|Hc]%orb_true_iff|Hc]%orb_true_iff.
  - rewrite !(upper_cp_decimal c Hc), Hc. done.
  - apply N.eqb_eq in Hc as ->. by vm_compute.
  - apply N.eqb_eq in Hc as ->. by vm_compute.
Qed.

(** The upper-cased form of an ID token is an ID token in upper case. *)
Lemma upper_id_token t :
  is_id_token t = true → is_id_token (upper t) = true ∧ upper (upper t) = upper t.
Proof.
  unfold is_id_token. rewrite !andb_true_iff, !bool_decide_eq_true, !forallb_Forall.
  intros [[Hlen Ha] Hb].
  assert (upper t = take 17 t ++ upper (drop 17 t)) as E.
  { rewrite <- (take_drop 17 t) at 1. unfold upper at 1.
    rewrite map_app. fold (upper (take 17 t)). fold (upper (drop 17 t)).
    by rewrite upper_decimals. }
  assert (length (take 17 t) = 17) as Hl17 by (rewrite length_take; lia).
  assert (length (upper (drop 17 t)) = 1) as Hl1.
  { unfold upper. rewrite length_map, length_drop. lia. }
  assert (Forall (λ c, (isdecimal c || (c =? 88)%N || (c =? 120)%N) = true
                       ∧ upper_cp c = c) (upper (drop 17 t))) as Hu.
  { unfold upper. apply Forall_fmap. eapply Forall_impl; [exact Hb|].
    intros c. cbn. apply upper_cp_last. }
  split.
  - rewrite E, length_app, Hl17, Hl1.
    rewrite take_app_length', drop_app_length' by done.
    repeat split; [done..|]. eapply Forall_impl; [exact Hu|]. by intros c [? _].
  - rewrite E at 1. unfold upper at 1. rewrite map_app.
    fold (upper (take 17 t)). rewrite (upper_decimals _ Ha), E. f_equal.
    apply upper_fixed. eapply Forall_impl; [exact Hu|]. by intros c [_ ?].
Qed.

(** Every text [findall] returns is the text of a match. *)
Lemma findall_from_sound ic whole r s skip m :
  m ∈ findall_from ic whole r s skip →
  ∃ s' mo, match_at ic whole r s' = Some mo ∧ group0 mo = m.
Proof.
  revert skip. induction s as [|c s IH]; intros skip; cbn [findall_from].
  - by intros ?%elem_of_nil.
  - destruct skip as [|n]; [|apply IH].
    destruct (match_at ic whole r (c :: s)) as [mo|] eqn:E; [|apply IH].
    intros [->|?]%elem_of_cons; [by exists (c :: s), mo | by eapply IH].
Qed.

Lemma findall_id_tokens s m :
  m ∈ findall true id_pattern s → is_id_token m = true.
Proof.
  intros (s' & mo & (s1 & s2 & -> & <- & [Ht _]%id_pattern_matches)%match_at_sound & <-)
    %findall_from_sound.
  done.
Qed.

(** What the fallback returns: the stem is the prefix, the name, and
    eighteen characters that are the ID but for their case. *)
Lemma fallback_sound s name id :
  fallback s = Some (name, id) →
  is_id_token id = true ∧ upper id = id
  ∧ ∃ token, upper token = id ∧ replace s DOT_PDF [] = PREFIX ++ name ++ token.
Proof.
  unfold fallback. set (stem := replace s DOT_PDF []).
  destruct (last (findall true id_pattern stem)) as [m|] eqn:El; [|done].
  apply last_Some_elem_of, findall_id_tokens in El.
  destruct (upper_id_token m El) as [Hid Hup].
  destruct (startswith stem PREFIX) eqn:Hs; [|done].
  apply startswith_spec in Hs as [rem Hs].
  unfold slice_from, slice_to_minus. rewrite Hs, drop_app_length.
  destruct (endswith (upper rem) (upper m)) eqn:He; [|done].
  intros [= <- <-]. split; [done|]. split; [done|].
  apply endswith_spec in He as [u He].
  exists (drop (length rem - 18) rem). split; [|by rewrite take_drop].
  assert (length (upper m) = 18) as Hlen by (by apply id_token_chars in Hid as [? _]).
  rewrite <- (take_drop (length rem - 18) rem) in He at 1.
  unfold upper at 1 in He. rewrite map_app in He.
  apply (f_equal length) in He as Hl.
  rewrite !length_app, !length_map, length_take, length_drop, Hlen in Hl.
  apply app_inj_2 in He as [_ He]; [exact He|].
  rewrite length_map, length_drop, Hlen. lia.
Qed.

(** X: whatever the file name, an extracted ID number is an 18-character
    token in upper case: seventeen decimal digits and a digit or a capital
    X. *)
Theorem extracted_id_is_upper_token s id :
  extract_id_number_from_filename s = Some id →
  is_id_token id = true ∧ upper id = id
  ∧ ∃ name, extract_name_and_id_from_filename s = Some (name, id).
Proof.
  unfold extract_id_number_from_filename.
  destruct (extract_name_and_id_from_filename s) as [[name id']|] eqn:E; [|done].
  intros [= <-]. cbn [snd]. split; [|split; [|by exists name]];
    unfold extract_name_and_id_from_filename in E;
    destruct (primary s) as [r|] eqn:Hp.
  - injection E as ->. apply primary_sound in Hp as (token & (_ & _ & _ & _ & _ & Ht & _) & ->).
    by apply upper_id_token.
  - by apply fallback_sound in E as (? & _).
  - injection E as ->. apply primary_sound in Hp as (token & (_ & _ & _ & _ & _ & Ht & _) & ->).
    by apply upper_id_token.
  - by apply fallback_sound in E as (_ & ? & _).
Qed.

Lemma extracted_id_is_upper_token_witness :
  is_id_token (py "11010119900101123X") = true
  ∧ upper (py "11010119900101123X") = py "11010119900101123X"
  ∧ ∃ name, extract_name_and_id_from_filename lowercase_file
            = Some (name, py "11010119900101123X").
Proof.
  apply (extracted_id_is_upper_token lowercase_file). vm_compute. reflexivity.
Defined.

(** X: an extracted pair reassembles the file name.  Either the name
    contains the prefix, the name, a token that is the ID but for the case
    of its last letter, and the extension; or the stem (the name without
    [.pdf]) is exactly the prefix, the name and such a token. *)
Theorem extracted_pair_reassembles s name id :
  extract_name_and_id_from_filename s = Some (name, id) →
  ∃ token,
    upper token = id
    ∧ (primary_shape s name token
       ∨ (primary s = None ∧ replace s DOT_PDF [] = PREFIX ++ name ++ token)).
Proof.
  unfold extract_name_and_id_from_filename. destruct (primary s) as [r|] eqn:Hp.
  - intros [= ->]. apply primary_sound in Hp as (token & Hs & ->).
    exists token. auto.
  - intros (_ & _ & token & Hu & E)%fallback_sound. exists token. auto.
Qed.

Lemma extracted_pair_reassembles_witness :
  ∃ token,
    upper token = py "11010119900101123X"
    ∧ (primary_shape lowercase_file (py "张三") token
       ∨ (primary lowercase_file = None
          ∧ replace lowercase_file DOT_PDF [] = PREFIX ++ py "张三" ++ token)).
Proof.
  apply (extracted_pair_reassembles lowercase_file). vm_compute. reflexivity.
Defined.

End grammar_b_more.

(** ** From the rename pipeline to the copy pipeline *)

Module rename_copy_spec.

Import match_pdfs re_spec grammar_b_spec copy_spec.

Lemma search_from_head ic whole r s m :
  match_at ic whole r s = Some m → search_from ic whole r s = Some m.
Proof. intros E. destruct s; cbn [search_from]; by rewrite E. Qed.

Lemma id_token_head t :
  is_id_token t = true → ∃ c r, t = c :: r ∧ isdecimal c = true.
Proof.
  unfold is_id_token. rewrite !andb_true_iff, bool_decide_eq_true, !forallb_Forall.
  intros [[Hlen Ha] _]. destruct t as [|c r]; [done|].
  exists c, r. split; [done|]. cbn [take] in Ha. by inversion Ha.
Qed.

(** The name and token of a file name that starts with the prefix, when the
    name has no decimal digit: no other split fits the pattern. *)
Lemma split_unique name id n t e s2 :
  Forall (λ c, isdecimal c = false) name →
  is_id_token id = true → is_id_token t = true → length e = 4 →
  n ++ t ++ e ++ s2 = name ++ id ++ DOT_PDF →
  n = name ∧ t = id.
Proof.
  intros Hname Hid Ht He E.
  pose proof (id_token_chars id Hid) as [Hlid _].
  pose proof (id_token_chars t Ht) as [Hlt _].
  assert (n = name) as ->.
  { apply app_eq_inv in E as [(k & -> & E)|(k & -> & E)].
    - apply (f_equal length) in E. rewrite !length_app, Hlid, Hlt, He in E.
      cbn [length DOT_PDF] in E. destruct k; [by rewrite app_nil_r|]. cbn in E. lia.
    - destruct k as [|c k]; [by rewrite app_nil_r|].
      destruct (id_token_head t Ht) as (c' & r & -> & Hc'). injection E as -> _.
      apply Forall_app in Hname as [_ Hname]. inversion Hname. congruence. }
  split; [done|]. apply app_inv_head in E.
  apply app_inj_1 in E as [E _]; [done | lia].
Qed.

(** X: the file names the rename pipeline composes - prefix, name, ID,
    [.pdf] - are read back by the copy pipeline: for a non-empty name without
    newline and without decimal digit and an ID token, the extraction gives
    that name and the ID in upper case. *)
Theorem renamed_file_is_read_back name id :
  name_ok name → Forall (λ c, isdecimal c = false) name → is_id_token id = true →
  extract_name_and_id_from_filename (main.PREFIX ++ name ++ id ++ main.DOT_PDF)
    = Some (name, upper id).
Proof.
  intros Hname Hnodigit Hid.
  change main.PREFIX with PREFIX. change main.DOT_PDF with DOT_PDF.
  set (s := PREFIX ++ name ++ id ++ DOT_PDF).
  assert (is_Some (match_at true s pattern s)) as [m Hm].
  { rewrite <- (app_nil_r s) at 2.
    apply (match_at_complete _ _ _ _ _ (<[2%nat := id]> (<[1%nat := name]> ∅))).
    apply pattern_matches. by exists name, id, DOT_PDF. }
  unfold extract_name_and_id_from_filename, primary, search.
  rewrite (search_from_head _ _ _ _ _ Hm).
  apply match_at_sound in Hm as (s1 & s2 & E & _ & Hs1).
  apply pattern_matches in Hs1 as (n & t & e & -> & _ & Ht & He & Hc).
  unfold s in E. rewrite <- !app_assoc in E. apply app_inv_head in E.
  apply (f_equal length) in He. unfold lower in He. rewrite length_map in He.
  destruct (split_unique name id n t e s2 Hnodigit Hid Ht He) as [-> ->]; [done|].
  unfold group. by rewrite Hc, lookup_insert_eq, lookup_insert_ne, lookup_insert_eq.
Qed.

Lemma renamed_file_is_read_back_witness :
  extract_name_and_id_from_filename
    (main.PREFIX ++ py "张三" ++ py "11010119900101123x" ++ main.DOT_PDF)
    = Some (py "张三", upper (py "11010119900101123x")).
Proof.
  apply (renamed_file_is_read_back (py "张三") (py "11010119900101123x")).
  - split; [done|]. repeat constructor; done.
  - repeat constructor.
  - reflexivity.
Defined.

End rename_copy_spec.

(** ** The folders the three loops write to *)

Module folder_spec.

Import output output_spec str_spec.

(** The destination is never a name the output folder has. *)
Lemma dest_name_free (out : gset str) f d : dest_name out f = Some d → d ∉ out.
Proof.
  unfold dest_name. case_bool_decide as Hin; [|by intros [= <-]].
  destruct (avoid_finds out (pathlib.stem f) (pathlib.suffix f) (S (size out)) f 1 Hin
              (free_suffix_exists out _ _)) as (k & _ & -> & Hfree & _).
  by intros [= <-].
Qed.









(** *** Names that end in [.pdf] *)

Lemma rfind_dot_app a b :
  pathlib.rfind_dot b = None → pathlib.rfind_dot (a ++ 46%N :: b) = Some (length a).
Proof.
  intros Hb. induction a as [|c a IH]; cbn [app pathlib.rfind_dot length].
  - by rewrite Hb.
  - by rewrite IH.
Qed.

Lemma pdf_stem_suffix base :
  base ≠ [] →
  pathlib.stem (base ++ main.DOT_PDF) = base
  ∧ pathlib.suffix (base ++ main.DOT_PDF) = main.DOT_PDF.
Proof.
  intros Hne. unfold pathlib.stem, pathlib.suffix, pathlib.suffix_at.
  change main.DOT_PDF with (46%N :: [112; 100; 102]%N).
  rewrite rfind_dot_app by done.
  rewrite bool_decide_eq_true_2.
  - by rewrite take_app_length, drop_app_length.
  - rewrite length_app. cbn [length]. destruct base; [done|]. cbn [length]. lia.
Qed.

(** X: a document whose name ends in [.pdf] after a non-empty base always
    gets a destination; it is not a name of the output folder, and it is the
    document's name or the base, [_k] for some [k >= 1], and [.pdf]: a copy
    keeps the extension. *)
Theorem destination_keeps_extension (out : gset str) base :
  base ≠ [] →
  ∃ d, dest_name out (base ++ main.DOT_PDF) = Some d
       ∧ (d ∉ out)
       ∧ endswith d main.DOT_PDF = true
       ∧ (d = base ++ main.DOT_PDF
          ∨ ∃ k, (1 ≤ k)%N ∧ d = base ++ UNDERSCORE ++ str_of_N k ++ main.DOT_PDF).
Proof.
  intros Hne. destruct (pdf_stem_suffix base Hne) as [Hstem Hsuf].
  destruct (dest_name_total out (base ++ main.DOT_PDF)) as [d Hd].
  exists d. split; [done|]. split; [by apply dest_name_free in Hd|].
  unfold dest_name in Hd. rewrite Hstem, Hsuf in Hd.
  case_bool_decide as Hin.
  - destruct (avoid_finds out base main.DOT_PDF (S (size out)) (base ++ main.DOT_PDF) 1 Hin
                (free_suffix_exists out _ _)) as (k & Hk & E & _).
    rewrite E in Hd. injection Hd as <-. unfold new_name. split.
    + apply endswith_spec. exists (base ++ UNDERSCORE ++ str_of_N k).
      by rewrite <- !app_assoc.
    + right. by exists k.
  - injection Hd as <-. split; [|by left]. apply endswith_spec. by exists base.
Qed.

Lemma destination_keeps_extension_witness :
  ∃ d, dest_name busy_folder (py "a" ++ main.DOT_PDF) = Some d
       ∧ (d ∉ busy_folder)
       ∧ endswith d main.DOT_PDF = true
       ∧ (d = py "a" ++ main.DOT_PDF
          ∨ ∃ k, (1 ≤ k)%N ∧ d = py "a" ++ UNDERSCORE ++ str_of_N k ++ main.DOT_PDF).
Proof. apply (destination_keeps_extension busy_folder (py "a")). vm_compute. discriminate. Defined.

(** *** The folder of the rename loop *)

Lemma swap_size (X : gset str) f new :
  f ∈ X → new ∉ X ∨ new = f → size ({[new]} ∪ X ∖ {[f]}) = size X.
Proof.
  intros Hf Hnew. rewrite size_union by set_solver.
  rewrite size_singleton, size_difference, size_singleton by set_solver.
  assert (size X ≠ 0) by (intros ?%size_empty_inv; set_solver). lia.
Qed.

Section rename.
Variable mapping : gmap str (str * str).
Variable exists_raises : str → bool.
Variable nested : str → main.location.
Variable elsewhere_exists : str → bool.
Variable raises : str → bool.

(** One step takes away the document's own name at most. *)
Lemma process_keeps st f st' :
  main.process mapping exists_raises nested elsewhere_exists raises st f = Some st' →
  main.folder st ∖ {[f]} ⊆ main.folder st'.
Proof.
  unfold main.process, main.renamed.
  repeat case_match; intros [= <-]; cbn [main.skipped main.failed main.folder]; set_solver.
Qed.

Lemma run_keeps docs st :
  main.folder st ∖ list_to_set docs
  ⊆ main.folder (main.state_of
                   (main.run mapping exists_raises nested elsewhere_exists raises st docs)).
Proof.
  revert st. induction docs as [|f docs IH]; intros st; cbn [main.run].
  - set_solver.
  - rewrite list_to_set_cons.
    destruct (main.process mapping exists_raises nested elsewhere_exists raises st f)
      as [st1|] eqn:E.
    + apply process_keeps in E. specialize (IH st1). set_solver.
    + cbn [main.state_of]. set_solver.
Qed.

(** No composed name has a path separator. *)
Hypothesis flat :
  map_Forall (λ _ v, contains (main.PREFIX ++ v.1 ++ v.2 ++ main.DOT_PDF) main.SLASH = false)
    mapping.

(** What one step does to the folder then: nothing, or one rename that is
    onto a free name or onto the document itself. *)
Lemma process_folder st f st' :
  main.process mapping exists_raises nested elsewhere_exists raises st f = Some st' →
  main.folder st' = main.folder st
  ∨ ∃ new, (new ∉ main.folder st ∨ new = f)
           ∧ main.folder st' = {[new]} ∪ main.folder st ∖ {[f]}.
Proof using flat.
  unfold main.process.
  destruct (main.extract_contract_number f) as [d|]; [|intros [= <-]; by left].
  destruct (mapping !! d) as [[name id]|] eqn:Hd; [|intros [= <-]; by left].
  destruct (main.empty_text name); [intros [= <-]; by left|].
  destruct (main.empty_text id); [intros [= <-]; by left|].
  apply flat in Hd. cbv beta in Hd. cbn [fst snd] in Hd.
  set (new := main.PREFIX ++ name ++ id ++ main.DOT_PDF) in *.
  destruct (exists_raises new); [done|].
  unfold main.path_exists, main.renamed, main.locate. rewrite Hd.
  destruct (bool_decide (new ∈ main.folder st) && negb (bool_decide (new = f))) eqn:E;
    [intros [= <-]; by left|].
  destruct (raises f); intros [= <-]; [by left|]. right. exists new. split; [|done].
  apply andb_false_iff in E as [E%bool_decide_eq_false|E%negb_false_iff%bool_decide_eq_true];
    auto.
Qed.

Lemma run_size docs st :
  NoDup docs → Forall (λ f, f ∈ main.folder st) docs →
  size (main.folder (main.state_of
                       (main.run mapping exists_raises nested elsewhere_exists raises st docs)))
  = size (main.folder st).
Proof using flat.
  intros Hnd. revert st. induction Hnd as [|f docs Hf Hnd IH]; intros st Hin; cbn [main.run].
  - done.
  - apply Forall_cons in Hin as [Hfin Hin].
    destruct (main.process mapping exists_raises nested elsewhere_exists raises st f)
      as [st1|] eqn:E; [|done].
    assert (size (main.folder st1) = size (main.folder st)) as Hsize.
    { destruct (process_folder st f st1 E) as [->|(new & Hnew & ->)]; [done|].
      by apply swap_size. }
    rewrite IH; [done|].
    apply process_keeps in E. rewrite Forall_forall in Hin |- *.
    intros x Hx. apply E. specialize (Hin x Hx). set_solver.
Qed.
End rename.

(** X: the rename loop takes away no file but the scanned documents: every
    name of the folder that is not a scanned document is still there after
    the loop, whether the loop has run through or was left by an exception,
    and wherever the composed names lead. *)
Theorem rename_keeps_other_files (mapping : gmap str (str * str))
    (exists_raises : str → bool) (nested : str → main.location)
    (elsewhere_exists raises : str → bool) (dir : gset str) (docs : list str) :
  let st := main.state_of (main.rename_pdf_files mapping exists_raises nested
                             elsewhere_exists raises dir docs) in
  dir ∖ list_to_set docs ⊆ main.folder st.
Proof.
  apply (run_keeps mapping exists_raises nested elsewhere_exists raises docs
           {| main.success_count := 0; main.failed_count := 0; main.skipped_count := 0;
              main.folder := dir |}).
Qed.

(** X: the rename loop keeps the number of files when no composed name has
    a path separator: with the scanned documents distinct and present (and
    every entry of the folder existing, see [main.path_exists]), the folder
    has as many names after the loop as before, since a rename is only made
    onto a name that is free or onto the document itself. *)
Theorem rename_keeps_folder_size (mapping : gmap str (str * str))
    (exists_raises : str → bool) (nested : str → main.location)
    (elsewhere_exists raises : str → bool) (dir : gset str) (docs : list str) :
  map_Forall (λ _ v, contains (main.PREFIX ++ v.1 ++ v.2 ++ main.DOT_PDF) main.SLASH = false)
    mapping →
  NoDup docs → Forall (λ f, f ∈ dir) docs →
  let st := main.state_of (main.rename_pdf_files mapping exists_raises nested
                             elsewhere_exists raises dir docs) in
  size (main.folder st) = size dir.
Proof.
  intros Hflat Hnd Hin.
  by apply (run_size mapping exists_raises nested elsewhere_exists raises Hflat docs
              {| main.success_count := 0; main.failed_count := 0; main.skipped_count := 0;
                 main.folder := dir |}).
Qed.

Lemma rename_keeps_folder_size_witness :
  let dir : gset str := {[py "协商解除劳动合同协议书_12345.pdf"; py "notes.txt"]} in
  let docs := [py "协商解除劳动合同协议书_12345.pdf"] in
  let st := main.state_of
              (main.rename_pdf_files {[py "12345" := (py "张三", py "110101199001011234")]}
                 main.name_too_long (λ _, main.Elsewhere) (λ _, false) (λ _, false)
                 dir docs) in
  size (main.folder st) = size dir.
Proof.
  apply rename_keeps_folder_size.
  - apply map_Forall_singleton. vm_compute. reflexivity.
  - apply (bool_decide_eq_true_1 (NoDup _)). vm_compute. reflexivity.
  - apply (bool_decide_eq_true_1 (Forall _ _)). vm_compute. reflexivity.
Defined.

End folder_spec.

(** ** Grammar C : the names it gives *)

Module grammar_c_more.

Import match_pdfs_by_name re_spec str_spec grammar_a_spec.

Lemma all_ok_dot s : all_ok false Dot s ↔ no_newline s.
Proof.
  unfold all_ok, no_newline. apply Forall_proper; [|done]. intros c. cbn [atom_ok].
  by rewrite negb_true_iff, N.eqb_neq.
Qed.

Lemma copy_number_matches whole o s2 g g' :
  matches false whole copy_number o s2 g g' ↔ copy_ok o ∧ g' = g.
Proof.
  unfold copy_number, copy_ok. cbn [matches]. split.
  - intros [[-> ->]|(a & b & gm & -> & [->%lit_ok_exact ->]
                     & ds & c & gm' & -> & (Hne & Hd & ->) & [->%lit_ok_exact ->])].
    + by split; [left|].
    + split; [|done]. right. by exists ds.
  - intros [[->|(ds & Hne & Hd & ->)] ->]; [by left|]. right.
    exists [40%N], (ds ++ [41%N]), g. repeat split; [by apply lit_ok_exact|].
    exists ds, [41%N], g. repeat split; [done..|by apply lit_ok_exact].
Qed.

Lemma pattern1_sound s m :
  match_ false pattern1 s = Some m → shape1 s (group m 1).
Proof.
  intros (s1 & s2 & -> & _ & Hm)%match_at_sound.
  unfold pattern1 in Hm. cbn [matches] in Hm.
  destruct Hm as (a & b & gm & -> & (-> & _ & ->) & a1 & b1 & gm1 & -> & Hg & Hm).
  destruct Hg as (g0 & (Hne & Hd%all_ok_dot & ->) & ->).
  destruct Hm as (a2 & b2 & gm2 & -> & [->%lit_ok_exact ->] & a3 & b3 & gm3 & -> & Ho & Hm).
  apply copy_number_matches in Ho as [Ho ->].
  destruct Hm as (a4 & b4 & gm4 & -> & [->%lit_ok_exact ->] & -> & Hend & E).
  unfold group. rewrite E, lookup_insert_eq. cbn [default app].
  exists a3, s2. rewrite ?app_nil_r, <- ?app_assoc. done.
Qed.

Lemma pattern1_complete s g1 : shape1 s g1 → is_Some (match_ false pattern1 s).
Proof.
  intros (o & nl & -> & Hne & Hd & Ho & Hend). unfold match_.
  replace (g1 ++ DASH_MARKER ++ o ++ DOT_PDF ++ nl)
    with ((g1 ++ DASH_MARKER ++ o ++ DOT_PDF) ++ nl) by (by rewrite <- !app_assoc).
  apply (match_at_complete _ _ _ _ _ (<[1%nat := g1]> ∅)).
  unfold pattern1. cbn [matches].
  exists [], (g1 ++ DASH_MARKER ++ o ++ DOT_PDF), ∅. repeat split.
  exists g1, (DASH_MARKER ++ o ++ DOT_PDF), (<[1%nat := g1]> ∅). repeat split.
  { exists ∅. repeat split; [done | by apply all_ok_dot]. }
  exists DASH_MARKER, (o ++ DOT_PDF), (<[1%nat := g1]> ∅).
  repeat split; [by apply lit_ok_exact|].
  exists o, DOT_PDF, (<[1%nat := g1]> ∅). repeat split; [by apply copy_number_matches|].
  exists DOT_PDF, [], (<[1%nat := g1]> ∅).
  repeat split; [by apply lit_ok_exact | done].
Qed.

Lemma pattern2_sound s m :
  match_ false pattern2 s = Some m → shape2 s (group m 1).
Proof.
  intros (s1 & s2 & -> & _ & Hm)%match_at_sound.
  unfold pattern2 in Hm. cbn [matches] in Hm.
  destruct Hm as (a & b & gm & -> & (-> & _ & ->) & a2 & b2 & gm2 & ->
                  & [->%lit_ok_exact ->] & a1 & b1 & gm1 & -> & Hg & Hm).
  destruct Hg as (g0 & (Hne & Hd%all_ok_dot & ->) & ->).
  destruct Hm as (a3 & b3 & gm3 & -> & Ho & Hm).
  apply copy_number_matches in Ho as [Ho ->].
  destruct Hm as (a4 & b4 & gm4 & -> & [->%lit_ok_exact ->] & -> & Hend & E).
  unfold group. rewrite E, lookup_insert_eq. cbn [default app].
  exists a3, s2. rewrite ?app_nil_r, <- ?app_assoc. done.
Qed.

Lemma pattern3_sound s m :
  match_ false pattern3 s = Some m → shape3 s (group m 1) (group m 2).
Proof.
  intros (s1 & s2 & -> & _ & Hm)%match_at_sound.
  unfold pattern3 in Hm. cbn [matches] in Hm.
  destruct Hm as (a & b & gm & -> & (-> & _ & ->) & a1 & b1 & gm1 & -> & Hg & Hm).
  destruct Hg as (g0 & (Hne & Hd%all_ok_dot & ->) & ->).
  destruct Hm as (a2 & b2 & gm2 & -> & [->%lit_ok_exact ->] & a5 & b5 & gm5 & -> & Hg & Hm).
  destruct Hg as (g0 & (Hne' & Hd'%all_ok_dot & ->) & ->).
  destruct Hm as (a3 & b3 & gm3 & -> & Ho & Hm).
  apply copy_number_matches in Ho as [Ho ->].
  destruct Hm as (a4 & b4 & gm4 & -> & [->%lit_ok_exact ->] & -> & Hend & E).
  unfold group. rewrite E, lookup_insert_eq, lookup_insert_ne, lookup_insert_eq by done.
  cbn [default app].
  exists a3, s2. rewrite ?app_nil_r, <- ?app_assoc. done.
Qed.

Lemma nonempty_Some t name : nonempty t = Some name → name = t ∧ t ≠ [].
Proof. destruct t; [done|]. by intros [= <-]. Qed.

Lemma contains_strip t sub : contains (strip t) sub = true → contains t sub = true.
Proof.
  destruct (strip_sub t) as (a & b & E). intros H. rewrite E. by apply contains_sub.
Qed.

(** X: a name extracted by Grammar C is never empty and has no blank at
    either end, and it only comes from a file name that contains the marker
    word 承诺书 and a hyphen and ends in [.pdf] (or [.pdf] and a newline). *)
Theorem extracted_name_is_clean s name :
  extract_name_from_filename s = Some name →
  name ≠ [] ∧ strip name = name
  ∧ contains s MARKER = true ∧ contains s DASH = true
  ∧ (endswith s DOT_PDF = true ∨ endswith s (DOT_PDF ++ [10%N]) = true).
Proof.
  assert (∀ pre nl, end_ok nl →
            endswith (pre ++ DOT_PDF ++ nl) DOT_PDF = true
            ∨ endswith (pre ++ DOT_PDF ++ nl) (DOT_PDF ++ [10%N]) = true) as Hend.
  { intros pre nl [->| ->]; [left|right]; apply endswith_spec; exists pre; by rewrite ?app_nil_r. }
  unfold extract_name_from_filename.
  destruct (try1 s) as [n1|] eqn:E1.
  { intros [= ->]. unfold try1 in E1.
    destruct (match_ false pattern1 s) as [m|] eqn:Hm; [|done].
    apply nonempty_Some in E1 as [-> Hne].
    apply pattern1_sound in Hm as (o & nl & -> & _ & _ & _ & Hnl).
    split; [done|]. split; [apply strip_idem|]. split; [|split].
    - apply contains_spec. exists (group m 1 ++ DASH), (o ++ DOT_PDF ++ nl).
      rewrite <- ?app_assoc. reflexivity.
    - apply contains_spec. exists (group m 1), (MARKER ++ o ++ DOT_PDF ++ nl).
      rewrite <- ?app_assoc. reflexivity.
    - rewrite !app_assoc, <- (app_assoc _ DOT_PDF nl). by apply Hend. }
  destruct (try2 s) as [n2|] eqn:E2.
  { intros [= ->]. unfold try2 in E2.
    destruct (match_ false pattern2 s) as [m|] eqn:Hm; [|done].
    apply nonempty_Some in E2 as [-> Hne].
    apply pattern2_sound in Hm as (o & nl & -> & _ & _ & _ & Hnl).
    split; [done|]. split; [apply strip_idem|]. split; [|split].
    - apply contains_spec. exists [], (DASH ++ group m 1 ++ o ++ DOT_PDF ++ nl).
      rewrite <- ?app_assoc. reflexivity.
    - apply contains_spec. exists MARKER, (group m 1 ++ o ++ DOT_PDF ++ nl).
      rewrite <- ?app_assoc. reflexivity.
    - rewrite !app_assoc, <- (app_assoc _ DOT_PDF nl). by apply Hend. }
  unfold try3. destruct (match_ false pattern3 s) as [m|] eqn:Hm; [|done].
  apply pattern3_sound in Hm as (o & nl & Es & _ & _ & _ & _ & _ & Hnl).
  assert (contains s DASH = true) as Hdash.
  { apply contains_spec. exists (group m 1), (group m 2 ++ o ++ DOT_PDF ++ nl).
    by rewrite Es. }
  assert (endswith s DOT_PDF = true ∨ endswith s (DOT_PDF ++ [10%N]) = true) as Hpdf.
  { rewrite Es, !app_assoc, <- (app_assoc _ DOT_PDF nl). by apply Hend. }
  destruct (contains (strip (group m 2)) MARKER) eqn:H2.
  - intros [-> Hne]%nonempty_Some. split; [done|]. split; [apply strip_idem|]. split; [|done].
    apply contains_strip in H2. rewrite Es.
    rewrite (app_assoc (group m 1)). by apply contains_sub.
  - destruct (contains (strip (group m 1)) MARKER) eqn:H1; [|done].
    intros [-> Hne]%nonempty_Some. split; [done|]. split; [apply strip_idem|]. split; [|done].
    apply contains_strip in H1. rewrite Es.
    apply (contains_sub [] (group m 1)). done.
Qed.

Lemma extracted_name_is_clean_witness :
  py "李雷" ≠ [] ∧ strip (py "李雷") = py "李雷"
  ∧ contains (py "承诺书-李雷(2).pdf") MARKER = true
  ∧ contains (py "承诺书-李雷(2).pdf") DASH = true
  ∧ (endswith (py "承诺书-李雷(2).pdf") DOT_PDF = true
     ∨ endswith (py "承诺书-李雷(2).pdf") (DOT_PDF ++ [10%N]) = true).
Proof. apply (extracted_name_is_clean (py "承诺书-李雷(2).pdf")). vm_compute. reflexivity. Defined.

Lemma run_then_paren (a b x y : str) :
  main.digits a → main.digits b →
  a ++ 40%N :: x = b ++ 40%N :: y → a = b ∧ x = y.
Proof.
  intros Ha. revert b. induction Ha as [|c a Hc Ha IH]; intros b Hb E.
  - destruct Hb as [|d b Hd Hb]; [by injection E|]. injection E as <- _. done.
  - destruct Hb as [|d b Hd Hb]; [injection E as -> _; done|].
    injection E as -> E. by destruct (IH b Hb E) as [-> ->].
Qed.

(** The name in front of [-承诺书], an optional copy number and [.pdf] is
    determined by the file name: the tail is read from the right. *)
Lemma name_first_unique g1 name o o' nl :
  copy_ok o → copy_ok o' → end_ok nl →
  g1 ++ DASH_MARKER ++ o' ++ DOT_PDF ++ nl = name ++ DASH_MARKER ++ o ++ DOT_PDF →
  g1 = name.
Proof.
  intros Ho Ho' Hnl E. apply (f_equal reverse) in E.
  rewrite !reverse_app, <- !app_assoc in E.
  let r := eval vm_compute in (reverse DOT_PDF) in change (reverse DOT_PDF) with r in E.
  let r := eval vm_compute in (reverse DASH_MARKER) in change (reverse DASH_MARKER) with r in E.
  destruct Hnl as [->| ->]; [|done]. rewrite reverse_nil in E. cbn [app] in E.
  injection E as E.
  destruct Ho as [->|(ds & _ & Hd & ->)], Ho' as [->|(ds' & _ & Hd' & ->)].
  - rewrite reverse_nil in E. cbn [app] in E. injection E as E.
    by apply (inj reverse).
  - rewrite reverse_nil, reverse_cons, reverse_app, <- !app_assoc in E. done.
  - rewrite reverse_nil, reverse_cons, reverse_app, <- !app_assoc in E. done.
  - rewrite !reverse_cons, !reverse_app, <- !app_assoc in E. cbn [reverse rev_append app] in E.
    injection E as E.
    apply run_then_paren in E as [_ E]; [|by apply Forall_reverse..].
    injection E as E. by apply (inj reverse).
Qed.

(** X: the name-first form is read back.  For a name without newline that
    is not blank, the file [<name>-承诺书.pdf], with or without a copy number
    in parentheses before the extension, gives the name without the blanks
    at its ends - also when the name itself contains hyphens or the marker
    word. *)
Theorem name_first_file_gives_name name o :
  no_newline name → strip name ≠ [] → copy_ok o →
  extract_name_from_filename (name ++ DASH_MARKER ++ o ++ DOT_PDF) = Some (strip name).
Proof.
  intros Hnl Hne Ho.
  assert (shape1 (name ++ DASH_MARKER ++ o ++ DOT_PDF) name) as Hs.
  { exists o, []. rewrite app_nil_r. repeat split; [|done|done|by left].
    intros ->. by apply Hne. }
  unfold extract_name_from_filename, try1.
  destruct (pattern1_complete _ _ Hs) as [m Hm]. rewrite Hm.
  apply pattern1_sound in Hm as (o' & nl & E & _ & _ & Ho' & Hend).
  symmetry in E. apply name_first_unique in E as ->; [|done..].
  destruct (strip name); done.
Qed.

Lemma name_first_file_gives_name_witness :
  extract_name_from_filename (py " 李-雷 " ++ DASH_MARKER ++ py "(12)" ++ DOT_PDF)
  = Some (strip (py " 李-雷 ")).
Proof.
  apply name_first_file_gives_name.
  - repeat constructor; done.
  - vm_compute. done.
  - right. exists (py "12"). repeat split; [done|]. repeat constructor.
Defined.

End grammar_c_more.

(** ** The status column *)

Module annotate_spec.

Import pandas match_pdfs.

Lemma at_col_columns d1 d2 row col :
  columns d1 = columns d2 → at_col d1 row col = at_col d2 row col.
Proof. unfold at_col. by intros ->. Qed.

Lemma set_col_columns d1 d2 col v row :
  columns d1 = columns d2 → set_col d1 col v row = set_col d2 col v row.
Proof. unfold set_col. by intros ->. Qed.

(** Writing one column leaves the cells of the others. *)
Lemma at_set_other df col v row c :
  col ≠ c → at_col df (set_col df col v row) c = at_col df row c.
Proof.
  intros Hne. unfold at_col, set_col.
  destruct (list_find (λ label, label = col) (columns df)) as [[j x]|] eqn:Hj; [|done].
  destruct (list_find (λ label, label = c) (columns df)) as [[i y]|] eqn:Hi; [|done].
  apply list_find_Some in Hj as (Hj & -> & _). apply list_find_Some in Hi as (Hi & -> & _).
  rewrite list_lookup_insert_ne; [done|]. intros ->. congruence.
Qed.

Lemma at_set_same df col v row :
  length row = length (columns df) → col ∈ columns df →
  at_col df (set_col df col v row) col = v.
Proof.
  intros Hlen Hin. unfold at_col, set_col.
  destruct (list_find_elem_of (λ label, label = col) (columns df) col Hin eq_refl)
    as [[j x] Hj].
  rewrite Hj. apply list_find_Some in Hj as (Hj & _ & _). apply lookup_lt_Some in Hj.
  rewrite list_lookup_insert_eq by lia. done.
Qed.

(** A new last column leaves the cells of the columns the table had. *)
Lemma at_add_column_other df col v row c :
  length row = length (columns df) → c ≠ col →
  at_col (add_column df col v) (row ++ [v]) c = at_col df row c.
Proof.
  intros Hlen Hne. unfold at_col, add_column. cbn [columns].
  destruct (list_find (λ label, label = c) (columns df)) as [[i y]|] eqn:Hi.
  - rewrite (list_find_app_l _ _ _ _ _ Hi). apply list_find_Some in Hi as (Hi & _ & _).
    apply lookup_lt_Some in Hi. rewrite lookup_app_l by lia. done.
  - rewrite list_find_app_r by done. cbn. by rewrite decide_False.
Qed.

Lemma at_add_column_same df col v row :
  length row = length (columns df) → col ∉ columns df →
  at_col (add_column df col v) (row ++ [v]) col = v.
Proof.
  intros Hlen Hnin. unfold at_col, add_column. cbn [columns].
  rewrite list_find_app_r.
  - cbn. rewrite decide_True by done. cbn.
    rewrite lookup_app_r by lia. by rewrite Hlen, Nat.sub_diag.
  - apply list_find_None, Forall_forall. by intros x Hx ->.
Qed.

Section pass.
Variable mark_of : cell → option mark.
Variable key_col : str.

Lemma marked_row_columns d1 d2 row :
  columns d1 = columns d2 →
  marked_row mark_of key_col d1 row = marked_row mark_of key_col d2 row.
Proof.
  intros E. unfold marked_row. rewrite (at_col_columns d1 d2) by done.
  destruct (mark_of _); [|done]. by apply set_col_columns.
Qed.

Lemma count_rows_columns p d1 d2 l :
  columns d1 = columns d2 →
  count_rows mark_of key_col p d1 l = count_rows mark_of key_col p d2 l.
Proof.
  intros E. unfold count_rows. f_equal. apply List.filter_ext. intros row.
  by rewrite (at_col_columns d1 d2).
Qed.

Lemma count_rows_cons p df row l :
  count_rows mark_of key_col p df (row :: l)
  = (if p (mark_of (at_col df row key_col)) then 1 else 0)
    + count_rows mark_of key_col p df l.
Proof. unfold count_rows. cbn [List.filter]. by destruct (p _). Qed.

Lemma annotate_row_step acc before row todo :
  rows (table acc) = before ++ row :: todo → raised acc = false →
  let acc' := annotate_row mark_of key_col true acc (length before, row) in
  columns (table acc') = columns (table acc)
  ∧ rows (table acc') = (before ++ [marked_row mark_of key_col (table acc) row]) ++ todo
  ∧ success_count acc'
    = success_count acc + (if is_mark Success (mark_of (at_col (table acc) row key_col))
                           then 1 else 0)
  ∧ failed_count acc'
    = failed_count acc + (if is_mark Failure (mark_of (at_col (table acc) row key_col))
                          then 1 else 0)
  ∧ raised acc' = false.
Proof.
  intros Hrows Hr. unfold annotate_row, marked_row. rewrite Hr.
  destruct (mark_of (at_col (table acc) row key_col)) as [[]|]; cbn.
  - rewrite Hrows, <- (Nat.add_0_r (length before)), alter_app_r, <- app_assoc.
    repeat split; lia.
  - rewrite Hrows, <- (Nat.add_0_r (length before)), alter_app_r, <- app_assoc.
    repeat split; lia.
  - rewrite Hrows, <- app_assoc. repeat split; [lia..|done].
Qed.

(** The loop over the rows when the status column takes a text, from any
    row on: the rows visited are marked one by one, those before stay. *)
Lemma annotate_fold todo : ∀ before acc,
  rows (table acc) = before ++ todo → raised acc = false →
  let r := fold_left (annotate_row mark_of key_col true)
             (imap (λ i, pair (length before + i)) todo) acc in
  columns (table r) = columns (table acc)
  ∧ rows (table r) = before ++ (marked_row mark_of key_col (table acc) <$> todo)
  ∧ success_count r
    = success_count acc + count_rows mark_of key_col (is_mark Success) (table acc) todo
  ∧ failed_count r
    = failed_count acc + count_rows mark_of key_col (is_mark Failure) (table acc) todo
  ∧ raised r = false.
Proof.
  induction todo as [|row todo IH]; intros before acc Hrows Hraised.
  - cbn. rewrite app_nil_r in Hrows. rewrite app_nil_r. unfold count_rows. cbn.
    repeat split; [done|lia..|done].
  - rewrite imap_cons. cbn [fold_left]. rewrite Nat.add_0_r.
    destruct (annotate_row_step acc before row todo Hrows Hraised)
      as (Hc & Hr & Hs & Hf & Hx).
    set (acc' := annotate_row mark_of key_col true acc (length before, row)) in *.
    rewrite (imap_ext _ (λ i, pair (length (before ++ [marked_row mark_of key_col (table acc) row]) + i))).
    2:{ intros i x _. cbn. rewrite length_app. cbn. f_equal. lia. }
    destruct (IH _ acc' Hr Hx) as (Hc' & Hr' & Hs' & Hf' & Hx').
    rewrite Hc', Hr', Hs', Hf', Hx', Hs, Hf, !count_rows_cons.
    rewrite !(count_rows_columns _ (table acc') (table acc)) by done.
    rewrite fmap_cons, <- app_assoc.
    rewrite (list_fmap_ext (marked_row mark_of key_col (table acc'))
                           (marked_row mark_of key_col (table acc)) todo).
    2:{ intros _ x _. by apply marked_row_columns. }
    split; [done|]. split; [reflexivity|]. repeat split; lia.
Qed.

(** Whether some row is marked. *)
Lemma some_row_marked df l :
  existsb (λ row, negb (is_skipped (mark_of (at_col df row key_col)))) l = true
  ↔ ∃ row, row ∈ l ∧ is_Some (mark_of (at_col df row key_col)).
Proof.
  rewrite existsb_exists. split; intros (row & Hin & H); exists row.
  - apply list_elem_of_In in Hin. split; [done|]. by destruct (mark_of _).
  - apply list_elem_of_In in Hin. split; [done|]. by destruct H as [m ->].
Qed.

(** The loop when the status column does not take a text: the first marked
    row raises, before anything is written or counted. *)
Lemma annotate_fold_refused l : ∀ (g : nat → nat) acc,
  let r := fold_left (annotate_row mark_of key_col false) (imap (λ i, pair (g i)) l) acc in
  table r = table acc ∧ success_count r = success_count acc
  ∧ failed_count r = failed_count acc
  ∧ raised r
    = raised acc
      || existsb (λ row, negb (is_skipped (mark_of (at_col (table acc) row key_col)))) l.
Proof.
  induction l as [|row l IH]; intros g acc.
  - cbn. by rewrite orb_false_r.
  - rewrite imap_cons. cbn [fold_left existsb].
    destruct (IH (g ∘ S) (annotate_row mark_of key_col false acc (g 0, row)))
      as (Ht & Hs & Hf & Hx).
    unfold compose in *. rewrite Ht, Hs, Hf, Hx. clear.
    unfold annotate_row. destruct (raised acc) eqn:Hr.
    + by rewrite Hr.
    + destruct (mark_of (at_col (table acc) row key_col)); cbn; [done|]. by rewrite Hr.
Qed.

Variable takes_text : str → bool.

Lemma annotate_taken df :
  status_takes_text takes_text df = true →
  let df' := with_mark_col df in
  let r := annotate takes_text mark_of key_col df in
  columns (table r) = columns df'
  ∧ rows (table r) = marked_row mark_of key_col df' <$> rows df'
  ∧ success_count r = count_rows mark_of key_col (is_mark Success) df' (rows df')
  ∧ failed_count r = count_rows mark_of key_col (is_mark Failure) df' (rows df')
  ∧ raised r = false.
Proof.
  intros Ht df' r. subst r. unfold annotate. rewrite Ht.
  by destruct (annotate_fold (rows df') []
                 {| table := df'; success_count := 0; failed_count := 0; raised := false |}
                 eq_refl eq_refl)
    as (Hc & Hr & Hs & Hf & Hx).
Qed.

Lemma annotate_refused df :
  status_takes_text takes_text df = false →
  let r := annotate takes_text mark_of key_col df in
  MARK_COL ∈ columns df ∧ takes_text MARK_COL = false
  ∧ table r = df ∧ success_count r = 0 ∧ failed_count r = 0
  ∧ raised r = existsb (λ row, negb (is_skipped (mark_of (at_col df row key_col)))) (rows df).
Proof.
  intros Ht r. subst r. unfold annotate. rewrite Ht.
  unfold status_takes_text in Ht. case_bool_decide as Hin; [|done].
  unfold with_mark_col. rewrite bool_decide_eq_true_2 by done.
  by destruct (annotate_fold_refused (rows df) id
                 {| table := df; success_count := 0; failed_count := 0; raised := false |})
    as (H1 & H2 & H3 & H4).
Qed.

(** The table the loop starts from, row by row. *)
Lemma with_mark_col_rows df :
  rows (with_mark_col df)
  = (λ row, if bool_decide (MARK_COL ∈ columns df) then row else row ++ [Val []])
    <$> rows df.
Proof.
  unfold with_mark_col. case_bool_decide; [by rewrite list_fmap_id|done].
Qed.

Lemma with_mark_col_has df : MARK_COL ∈ columns (with_mark_col df).
Proof.
  unfold with_mark_col. case_bool_decide; [done|]. cbn.
  apply elem_of_app. right. by apply list_elem_of_singleton.
Qed.

Lemma with_mark_col_at df row c :
  length row = length (columns df) → c ≠ MARK_COL →
  at_col (with_mark_col df)
    (if bool_decide (MARK_COL ∈ columns df) then row else row ++ [Val []]) c
  = at_col df row c.
Proof.
  intros Hlen Hne. unfold with_mark_col. case_bool_decide; [done|].
  by apply at_add_column_other.
Qed.

Lemma with_mark_col_length df row :
  length row = length (columns df) →
  length (if bool_decide (MARK_COL ∈ columns df) then row else row ++ [Val []])
  = length (columns (with_mark_col df)).
Proof.
  intros Hlen. unfold with_mark_col. case_bool_decide; [done|].
  cbn. rewrite !length_app. cbn. lia.
Qed.

Lemma count_rows_with_mark_col p df :
  well_formed df → key_col ≠ MARK_COL →
  count_rows mark_of key_col p (with_mark_col df) (rows (with_mark_col df))
  = count_rows mark_of key_col p df (rows df).
Proof.
  intros Hwf Hkey. rewrite with_mark_col_rows. unfold count_rows, well_formed in *.
  induction Hwf as [|row l Hrow Hwf IH]; [done|].
  rewrite fmap_cons. cbn [List.filter]. rewrite with_mark_col_at by done.
  destruct (p _); cbn [length]; by rewrite IH.
Qed.

Lemma count_rows_split df l :
  count_rows mark_of key_col (is_mark Success) df l
  + count_rows mark_of key_col (is_mark Failure) df l
  + count_rows mark_of key_col is_skipped df l = length l.
Proof.
  induction l as [|row l IH]; [done|]. rewrite !count_rows_cons. cbn [length].
  destruct (mark_of _) as [[]|]; cbn; lia.
Qed.

(** No marked row, no mark counted. *)
Lemma count_rows_none m df l :
  existsb (λ row, negb (is_skipped (mark_of (at_col df row key_col)))) l = false →
  count_rows mark_of key_col (is_mark m) df l = 0.
Proof.
  induction l as [|row l IH]; [done|]. cbn [existsb]. rewrite count_rows_cons.
  intros [H1 H2]%orb_false_iff. rewrite (IH H2).
  destruct (mark_of _); [done|]. by destruct m.
Qed.

(** X: the annotation pass writes one column only.  For a table in which
    every row has a cell per column, the pass keeps the number of rows, and
    every cell of every column other than 匹配状态 reads afterwards as it did
    before. *)
Theorem annotation_keeps_other_columns df col i row :
  well_formed df → col ≠ MARK_COL → rows df !! i = Some row →
  let r := annotate takes_text mark_of key_col df in
  length (rows (table r)) = length (rows df)
  ∧ ∃ row', rows (table r) !! i = Some row' ∧ at_col (table r) row' col = at_col df row col.
Proof.
  intros Hwf Hne Hi r.
  destruct (status_takes_text takes_text df) eqn:Ht.
  - destruct (annotate_taken df Ht) as (Hc & Hr & _). fold r in Hc, Hr.
    split.
    { by rewrite Hr, with_mark_col_rows, !length_fmap. }
    rewrite Hr, with_mark_col_rows, !list_lookup_fmap, Hi. cbn.
    eexists. split; [done|].
    assert (length row = length (columns df)) as Hlen.
    { unfold well_formed in Hwf. rewrite Forall_lookup in Hwf. by apply (Hwf i). }
    rewrite (at_col_columns _ (with_mark_col df)) by done.
    unfold marked_row. destruct (mark_of _).
    + rewrite at_set_other by done. by apply with_mark_col_at.
    + by apply with_mark_col_at.
  - destruct (annotate_refused df Ht) as (_ & _ & Htab & _). fold r in Htab.
    rewrite Htab. split; [done|]. by exists row.
Qed.

Lemma status_cell df i row :
  well_formed df → key_col ≠ MARK_COL → rows df !! i = Some row →
  let r := annotate takes_text mark_of key_col df in
  raised r = false →
  ∃ row', rows (table r) !! i = Some row'
    ∧ at_col (table r) row' MARK_COL
      = match mark_of (at_col df row key_col) with
        | Some m => Val (mark_text m)
        | None => if bool_decide (MARK_COL ∈ columns df) then at_col df row MARK_COL
                  else Val []
        end.
Proof.
  intros Hwf Hne Hi r Hraised.
  destruct (status_takes_text takes_text df) eqn:Ht.
  - destruct (annotate_taken df Ht) as (Hc & Hr & _). fold r in Hc, Hr.
    rewrite Hr, with_mark_col_rows, !list_lookup_fmap, Hi. cbn.
    eexists. split; [done|].
    assert (length row = length (columns df)) as Hlen.
    { unfold well_formed in Hwf. rewrite Forall_lookup in Hwf. by apply (Hwf i). }
    rewrite (at_col_columns _ (with_mark_col df)) by done.
    unfold marked_row. rewrite with_mark_col_at by done.
    destruct (mark_of _).
    + apply at_set_same; [by apply with_mark_col_length | apply with_mark_col_has].
    + unfold with_mark_col. case_bool_decide; [done|]. by apply at_add_column_same.
  - destruct (annotate_refused df Ht) as (Hin & _ & Htab & _ & _ & Hx).
    fold r in Htab, Hx. rewrite Hraised in Hx. rewrite Htab. exists row. split; [done|].
    rewrite bool_decide_eq_true_2 by done.
    destruct (mark_of (at_col df row key_col)) as [m|] eqn:Hm; [|done].
    symmetry in Hx. apply not_true_iff_false in Hx. destruct Hx.
    apply some_row_marked. exists row. split; [by eapply list_elem_of_lookup_2|].
    by rewrite Hm.
Qed.

(** X: what the status cell of a row holds after a pass that was not left
    by an exception: 成功 or 失败 for a row that is marked, and for a skipped
    row what it held before - the empty text when the column was only just
    added. *)
Theorem annotation_sets_status df i row :
  well_formed df → key_col ≠ MARK_COL → rows df !! i = Some row →
  let r := annotate takes_text mark_of key_col df in
  raised r = false →
  ∃ row', rows (table r) !! i = Some row'
    ∧ at_col (table r) row' MARK_COL
      = match mark_of (at_col df row key_col) with
        | Some m => Val (mark_text m)
        | None => if bool_decide (MARK_COL ∈ columns df) then at_col df row MARK_COL
                  else Val []
        end.
Proof. apply status_cell. Qed.

(** X: the two counters of a pass that was not left by an exception.
    [success_count] and [failed_count] are the numbers of rows marked 成功
    and 失败, and with the skipped rows they add up to the number of rows. *)
Theorem annotation_counts df :
  well_formed df → key_col ≠ MARK_COL →
  let r := annotate takes_text mark_of key_col df in
  raised r = false →
  success_count r = count_rows mark_of key_col (is_mark Success) df (rows df)
  ∧ failed_count r = count_rows mark_of key_col (is_mark Failure) df (rows df)
  ∧ success_count r + failed_count r + count_rows mark_of key_col is_skipped df (rows df)
    = length (rows df).
Proof.
  intros Hwf Hne r Hraised.
  assert (success_count r = count_rows mark_of key_col (is_mark Success) df (rows df)
          ∧ failed_count r = count_rows mark_of key_col (is_mark Failure) df (rows df))
    as [Hs Hf].
  { destruct (status_takes_text takes_text df) eqn:Ht.
    - destruct (annotate_taken df Ht) as (_ & _ & Hs & Hf & _). fold r in Hs, Hf.
      by rewrite !count_rows_with_mark_col in Hs, Hf by done.
    - destruct (annotate_refused df Ht) as (_ & _ & _ & Hs & Hf & Hx).
      fold r in Hs, Hf, Hx. rewrite Hraised in Hx. symmetry in Hx.
      by rewrite Hs, Hf, !count_rows_none. }
  rewrite Hs, Hf. repeat split. apply count_rows_split.
Qed.

(** X: when the pass is left by an exception.  That happens exactly when
    the spreadsheet came with a status column that does not take a text and
    some row is marked; the table is then as it was read, and nothing has
    been counted. *)
Theorem annotation_abandoned df :
  let r := annotate takes_text mark_of key_col df in
  (raised r = true
   ↔ MARK_COL ∈ columns df ∧ takes_text MARK_COL = false
     ∧ ∃ row, row ∈ rows df ∧ is_Some (mark_of (at_col df row key_col)))
  ∧ (raised r = true → table r = df ∧ success_count r = 0 ∧ failed_count r = 0).
Proof.
  intros r. destruct (status_takes_text takes_text df) eqn:Ht.
  - destruct (annotate_taken df Ht) as (_ & _ & _ & _ & Hx). fold r in Hx.
    rewrite Hx. split; [|done]. split; [done|]. intros (Hin & Htk & _).
    unfold status_takes_text in Ht. rewrite bool_decide_eq_true_2 in Ht by done.
    congruence.
  - destruct (annotate_refused df Ht) as (Hin & Htk & Htab & Hs & Hf & Hx).
    fold r in Htab, Hs, Hf, Hx. split; [|done].
    rewrite Hx, some_row_marked. tauto.
Qed.

End pass.

(** The sheet has no status column yet: the pass adds one, which takes a
    text whatever the columns it came with do. *)
Lemma annotation_keeps_other_columns_witness :
  let r := annotate (λ _, false) (mark_row (pdf_id_numbers [capital_file])) ID_NUMBER
             (sheet capital_cell) in
  length (rows (table r)) = length (rows (sheet capital_cell))
  ∧ ∃ row', rows (table r) !! 0 = Some row'
      ∧ at_col (table r) row' (py "姓名")
        = at_col (sheet capital_cell) [Val (py "张三"); capital_cell] (py "姓名").
Proof.
  apply (annotation_keeps_other_columns _ _ _ (sheet capital_cell) (py "姓名") 0).
  - repeat constructor.
  - vm_compute. discriminate.
  - reflexivity.
Defined.

Lemma annotation_sets_status_witness :
  let r := annotate (λ _, false) (mark_row (pdf_id_numbers [capital_file])) ID_NUMBER
             (sheet capital_cell) in
  ∃ row', rows (table r) !! 0 = Some row'
    ∧ at_col (table r) row' MARK_COL
      = match mark_row (pdf_id_numbers [capital_file])
                (at_col (sheet capital_cell) [Val (py "张三"); capital_cell] ID_NUMBER) with
        | Some m => Val (mark_text m)
        | None => if bool_decide (MARK_COL ∈ columns (sheet capital_cell))
                  then at_col (sheet capital_cell) [Val (py "张三"); capital_cell] MARK_COL
                  else Val []
        end.
Proof.
  apply (annotation_sets_status _ _ _ (sheet capital_cell) 0).
  - repeat constructor.
  - vm_compute. discriminate.
  - reflexivity.
  - vm_compute. reflexivity.
Defined.

Lemma annotation_counts_witness :
  let mark_of := mark_row (pdf_id_numbers [capital_file]) in
  let r := annotate (λ _, false) mark_of ID_NUMBER (sheet capital_cell) in
  success_count r
  = count_rows mark_of ID_NUMBER (is_mark Success) (sheet capital_cell) (rows (sheet capital_cell))
  ∧ failed_count r
    = count_rows mark_of ID_NUMBER (is_mark Failure) (sheet capital_cell) (rows (sheet capital_cell))
  ∧ success_count r + failed_count r
    + count_rows mark_of ID_NUMBER is_skipped (sheet capital_cell) (rows (sheet capital_cell))
    = length (rows (sheet capital_cell)).
Proof.
  apply (annotation_counts _ _ _ (sheet capital_cell)).
  - repeat constructor.
  - vm_compute. discriminate.
  - vm_compute. reflexivity.
Defined.

End annotate_spec.

(** ** The loop and the status column together *)

Module passes_spec.

Import pandas.

Lemma add_pdf_ids_elem (docs : list str) (X : gset str) (u : str) :
  u ∈ fold_left match_pdfs.add_pdf_id docs X ↔
  u ∈ X ∨ ∃ f name id, f ∈ docs
            ∧ match_pdfs.extract_name_and_id_from_filename f = Some (name, id)
            ∧ upper id = u.
Proof.
  revert X. induction docs as [|d docs IH]; intros X; cbn [fold_left].
  - split; [by left|]. intros [?|(f & ? & ? & []%elem_of_nil & _)]. done.
  - rewrite IH. unfold match_pdfs.add_pdf_id.
    destruct (match_pdfs.extract_name_and_id_from_filename d) as [[n i]|] eqn:Hd.
    + rewrite elem_of_union, elem_of_singleton. split.
      * intros [[->|?]|(f & name & id & ? & ? & ?)]; [|by left|].
        -- right. exists d, n, i. by rewrite elem_of_cons; auto.
        -- right. exists f, name, id. by rewrite elem_of_cons; auto.
      * intros [?|(f & name & id & [->|?]%elem_of_cons & Hf & ?)]; [by left; right | |].
        -- left. left. congruence.
        -- right. by exists f, name, id.
    + split.
      * intros [?|(f & name & id & ? & ? & ?)]; [by left|].
        right. exists f, name, id. by rewrite elem_of_cons; auto.
      * intros [?|(f & name & id & [->|?]%elem_of_cons & Hf & ?)]; [by left|congruence|].
        right. by exists f, name, id.
Qed.

Lemma add_pdf_names_elem (docs : list str) (X : gset str) (n : str) :
  n ∈ fold_left match_pdfs_by_name.add_pdf_name docs X ↔
  n ∈ X ∨ ∃ f, f ∈ docs ∧ match_pdfs_by_name.extract_name_from_filename f = Some n ∧ n ≠ [].
Proof.
  revert X. induction docs as [|d docs IH]; intros X; cbn [fold_left].
  - split; [by left|]. intros [?|(f & []%elem_of_nil & _)]. done.
  - rewrite IH. unfold match_pdfs_by_name.add_pdf_name.
    destruct (match_pdfs_by_name.extract_name_from_filename d) as [[|c m]|] eqn:Hd.
    + split.
      * intros [?|(f & ? & ? & ?)]; [by left|]. right. exists f. by rewrite elem_of_cons; auto.
      * intros [?|(f & [->|?]%elem_of_cons & Hf & ?)]; [by left|congruence|].
        right. by exists f.
    + rewrite elem_of_union, elem_of_singleton. split.
      * intros [[->|?]|(f & ? & ? & ?)]; [|by left|].
        -- right. exists d. by rewrite elem_of_cons; auto.
        -- right. exists f. by rewrite elem_of_cons; auto.
      * intros [?|(f & [->|?]%elem_of_cons & Hf & ?)]; [by left; right | |].
        -- left. left. congruence.
        -- right. by exists f.
    + split.
      * intros [?|(f & ? & ? & ?)]; [by left|]. right. exists f. by rewrite elem_of_cons; auto.
      * intros [?|(f & [->|?]%elem_of_cons & Hf & ?)]; [by left|congruence|].
        right. by exists f.
Qed.

Lemma find_id_col_Some header col :
  match_pdfs.find_id_col header = Some col → match_pdfs.has_id col = true.
Proof.
  induction header as [|c header IH]; [done|]. cbn [match_pdfs.find_id_col].
  destruct (_ || _) eqn:E; [|done]. by intros [= <-].
Qed.

Lemma extract_name_nonempty f n :
  match_pdfs_by_name.extract_name_from_filename f = Some n → n ≠ [].
Proof.
  unfold match_pdfs_by_name.extract_name_from_filename, match_pdfs_by_name.try1,
    match_pdfs_by_name.try2, match_pdfs_by_name.try3.
  repeat case_match; try done;
    intros; simplify_eq;
    match goal with
    | H : match_pdfs_by_name.nonempty _ = Some _ |- _ =>
      apply grammar_c_more.nonempty_Some in H as [-> ?]; done
    end.
Qed.

(** X: the copy loop and the status column.  A document of the scanned
    folder that the loop accepts - its file name gives an ID, and the ID is in
    the set read from the spreadsheet - always has a row of the spreadsheet
    whose status cell reads 成功 after an annotation pass that was not left by
    an exception. *)
Theorem accepted_document_has_success_row (takes_text : str → bool)
    df df_excel id_col excel_id_numbers
    (pdf_files : list str) pdf_filename name id_number :
  well_formed df →
  match_pdfs.read_excel_dataframe df = Some (df_excel, id_col) →
  match_pdfs.read_excel_id_numbers df = Some excel_id_numbers →
  pdf_filename ∈ pdf_files →
  match_pdfs.extract_name_and_id_from_filename pdf_filename = Some (name, id_number) →
  id_number ∈ excel_id_numbers →
  let r := match_pdfs.annotate takes_text
             (match_pdfs.mark_row (match_pdfs.pdf_id_numbers pdf_files)) id_col df_excel in
  match_pdfs.raised r = false →
  ∃ i row', rows (match_pdfs.table r) !! i = Some row'
    ∧ at_col (match_pdfs.table r) row' match_pdfs.MARK_COL = Val match_pdfs.SUCCESS.
Proof.
  intros Hwf Hdf Hids Hf Hex Hid r Hraised. subst r.
  unfold match_pdfs.read_excel_id_numbers in Hids. rewrite Hdf in Hids.
  unfold match_pdfs.read_excel_dataframe in Hdf.
  destruct (match_pdfs.find_id_col (columns df)) as [c|] eqn:Hcol; [|done].
  injection Hdf as <- <-. injection Hids as <-.
  apply loaders_spec.add_ids_elem in Hid as [[]%elem_of_empty|(cl & Hcl & Hb & Hn)].
  apply list_elem_of_fmap in Hcl as (row & -> & Hrow).
  apply list_elem_of_lookup in Hrow as [i Hi].
  assert (c ≠ match_pdfs.MARK_COL) as Hne.
  { intros ->. apply find_id_col_Some in Hcol. vm_compute in Hcol. done. }
  destruct (annotate_spec.status_cell
              (match_pdfs.mark_row (match_pdfs.pdf_id_numbers pdf_files)) c takes_text
              df i row Hwf Hne Hi Hraised) as (row' & Hi' & Hcell).
  exists i, row'. split; [done|]. rewrite Hcell.
  unfold match_pdfs.mark_row. rewrite Hb, Hn.
  rewrite bool_decide_eq_true_2; [done|].
  apply add_pdf_ids_elem. right. by exists pdf_filename, name, id_number.
Qed.

Lemma accepted_document_has_success_row_witness :
  let r := match_pdfs.annotate (λ _, false)
             (match_pdfs.mark_row (match_pdfs.pdf_id_numbers [match_pdfs.capital_file]))
             match_pdfs.ID_NUMBER (match_pdfs.sheet match_pdfs.capital_cell) in
  ∃ i row', rows (match_pdfs.table r) !! i = Some row'
    ∧ at_col (match_pdfs.table r) row' match_pdfs.MARK_COL = Val match_pdfs.SUCCESS.
Proof.
  apply (accepted_document_has_success_row (λ _, false)
           (match_pdfs.sheet match_pdfs.capital_cell)
           _ _ {[py "11010119900101123X"]} _ match_pdfs.capital_file
           (py "张三") (py "11010119900101123X")).
  - repeat constructor.
  - reflexivity.
  - vm_compute. reflexivity.
  - apply list_elem_of_singleton. reflexivity.
  - vm_compute. reflexivity.
  - apply elem_of_singleton. reflexivity.
  - vm_compute. reflexivity.
Defined.

(** X: in the move pipeline the loop and the status column agree.  A name
    is accepted by the loop for some scanned document exactly when some row
    of the spreadsheet with that name is marked 成功. *)
Theorem accepted_name_iff_success_row df df_excel name_col excel_names
    (pdf_files : list str) name :
  match_pdfs_by_name.read_excel_dataframe df = Some (df_excel, name_col) →
  match_pdfs_by_name.read_excel_names df = Some excel_names →
  (∃ pdf_filename, pdf_filename ∈ pdf_files
     ∧ match_pdfs_by_name.extract_name_from_filename pdf_filename = Some name
     ∧ name ∈ excel_names)
  ↔ (∃ row, row ∈ rows df_excel
       ∧ strip (str_of_cell (at_col df_excel row name_col)) = name
       ∧ match_pdfs_by_name.mark_row (match_pdfs_by_name.pdf_names pdf_files)
           (at_col df_excel row name_col) = Some match_pdfs.Success).
Proof.
  intros Hdf Hnames.
  unfold match_pdfs_by_name.read_excel_names in Hnames. rewrite Hdf in Hnames.
  unfold match_pdfs_by_name.read_excel_dataframe in Hdf.
  destruct (match_pdfs_by_name.find_name_col (columns df)) as [c|] eqn:Hcol; [|done].
  injection Hdf as <- <-. injection Hnames as <-.
  unfold match_pdfs_by_name.mark_row. split.
  - intros (f & Hf & Hex & Hin).
    apply loaders_spec.add_names_elem in Hin as [[]%elem_of_empty|(cl & Hcl & Hb & Hn)].
    apply list_elem_of_fmap in Hcl as (row & -> & Hrow).
    exists row. split; [done|]. split; [done|]. rewrite Hb, Hn.
    rewrite bool_decide_eq_true_2; [done|].
    apply add_pdf_names_elem. right. exists f. eauto using extract_name_nonempty.
  - intros (row & Hrow & Hn & Hm).
    destruct (blank (at_col df row c)) eqn:Hb; [done|].
    case_bool_decide as Hin; [|done]. rewrite Hn in Hin.
    apply add_pdf_names_elem in Hin as [[]%elem_of_empty|(f & Hf & Hex & _)].
    exists f. split; [done|]. split; [done|].
    apply loaders_spec.add_names_elem. right. exists (at_col df row c).
    split; [|done]. apply list_elem_of_fmap. by exists row.
Qed.

Lemma accepted_name_iff_success_row_witness :
  (∃ pdf_filename, pdf_filename ∈ [py "张三-承诺书.pdf"]
     ∧ match_pdfs_by_name.extract_name_from_filename pdf_filename = Some (py "张三")
     ∧ py "张三" ∈ ({[py "张三"]} : gset str))
  ↔ (∃ row, row ∈ rows (match_pdfs.sheet match_pdfs.capital_cell)
       ∧ strip (str_of_cell (at_col (match_pdfs.sheet match_pdfs.capital_cell) row
                               match_pdfs_by_name.NAME)) = py "张三"
       ∧ match_pdfs_by_name.mark_row (match_pdfs_by_name.pdf_names [py "张三-承诺书.pdf"])
           (at_col (match_pdfs.sheet match_pdfs.capital_cell) row match_pdfs_by_name.NAME)
         = Some match_pdfs.Success).
Proof.
  apply (accepted_name_iff_success_row (match_pdfs.sheet match_pdfs.capital_cell)).
  - reflexivity.
  - vm_compute. reflexivity.
Defined.

End passes_spec.

(** ** Opening the spreadsheet *)

Module excel_spec.

Import pandas excel.

Section read.
Context {DF E : Type}.
Variable read_excel : engine → DF + E.

(** Whatever the suffix, both engines are on the list. *)
Lemma modern_suffix_not_xls file_ext : file_ext ∈ [XLSX; XLSM] → file_ext ≠ XLS.
Proof.
  intros Hin ->.
  repeat (apply elem_of_cons in Hin as [Hin|Hin]; [vm_compute in Hin; discriminate|]).
  by apply elem_of_nil in Hin.
Qed.

Lemma preferred_engines_both file_ext :
  preferred_engines file_ext = [xlrd; openpyxl]
  ∨ preferred_engines file_ext = [openpyxl; xlrd].
Proof. unfold preferred_engines. repeat case_bool_decide; auto. Qed.

(** X: a spreadsheet is only loaded when the file exists, and the table
    is then the one that one of the two engines gave. *)
Theorem loaded_table_comes_from_an_engine file_exists file_name df :
  load read_excel file_exists file_name = Loaded df →
  file_exists = true ∧ ∃ engine, read_excel engine = inl df.
Proof.
  unfold load. destruct file_exists; [|done]. cbn [negb].
  destruct (preferred_engines_both (lower (pathlib.suffix file_name))) as [-> | ->];
    cbn [try_engines];
    destruct (read_excel xlrd) eqn:Hx, (read_excel openpyxl) eqn:Ho;
    intros [= <-]; split; eauto.
Qed.

(** X: an engine that reads the file is enough, whatever the suffix says:
    when the file exists and some engine reads it, a table is loaded. *)
Theorem load_tries_both_engines file_name engine df :
  read_excel engine = inl df →
  ∃ df', load read_excel true file_name = Loaded df'.
Proof.
  intros Hr. unfold load. cbn [negb].
  destruct (preferred_engines_both (lower (pathlib.suffix file_name))) as [-> | ->];
    cbn [try_engines];
    destruct (read_excel xlrd) eqn:Hx, (read_excel openpyxl) eqn:Ho; eauto;
    destruct engine; congruence.
Qed.

(** X: which engine wins.  For [.xlsx] and [.xlsm] (in any case of the
    letters) the table of openpyxl is taken when openpyxl reads the file,
    for every other name that of xlrd when xlrd reads it - also when the
    other engine would read the file too. *)
Theorem load_prefers_engine_of_suffix file_name df :
  let first := if bool_decide (lower (pathlib.suffix file_name) ∈ [XLSX; XLSM])
               then openpyxl else xlrd in
  read_excel first = inl df →
  load read_excel true file_name = Loaded df.
Proof.
  unfold load, preferred_engines. cbn [negb].
  destruct (decide (lower (pathlib.suffix file_name) ∈ [XLSX; XLSM])) as [Hin|Hnin].
  - rewrite (bool_decide_eq_true_2 _ Hin).
    rewrite bool_decide_eq_false_2 by (by apply modern_suffix_not_xls).
    cbn [try_engines]. by intros ->.
  - rewrite (bool_decide_eq_false_2 _ Hnin).
    case_bool_decide; cbn [try_engines]; by intros ->.
Qed.

(** X: when no engine reads the file, the [ValueError] carries the
    exception of the engine tried last - xlrd for [.xlsx] and [.xlsm],
    openpyxl otherwise - and never [None]. *)
Theorem load_reports_last_error file_exists file_name last_error :
  load read_excel file_exists file_name = ValueError last_error →
  file_exists = true
  ∧ ∃ e1 e2, read_excel xlrd = inr e1 ∧ read_excel openpyxl = inr e2
      ∧ last_error = Some (if bool_decide (lower (pathlib.suffix file_name) ∈ [XLSX; XLSM])
                           then e1 else e2).
Proof.
  unfold load, preferred_engines. destruct file_exists; [|done]. cbn [negb].
  destruct (decide (lower (pathlib.suffix file_name) ∈ [XLSX; XLSM])) as [Hin|Hnin].
  - rewrite (bool_decide_eq_true_2 _ Hin).
    rewrite bool_decide_eq_false_2 by (by apply modern_suffix_not_xls).
    cbn [try_engines].
    destruct (read_excel xlrd) eqn:Hx, (read_excel openpyxl) eqn:Ho; intros [= <-].
    split; [done|]. eauto.
  - rewrite (bool_decide_eq_false_2 _ Hnin).
    case_bool_decide; cbn [try_engines];
      destruct (read_excel xlrd) eqn:Hx, (read_excel openpyxl) eqn:Ho; intros [= <-];
      (split; [done|]); eauto.
Qed.

End read.

(** An [.xlsx] file that only openpyxl reads; tables and exceptions are
    numbered. *)
Lemma loaded_table_comes_from_an_engine_witness :
  true = true
  ∧ ∃ engine, (λ e, match e with openpyxl => inl 1 | xlrd => inr 2 end) engine
              = (inl 1 : nat + nat).
Proof.
  apply (loaded_table_comes_from_an_engine
           (λ e, match e with openpyxl => inl 1 | xlrd => inr 2 end) true (py "list.XLSX") 1).
  vm_compute. reflexivity.
Defined.

Lemma load_tries_both_engines_witness :
  ∃ df', load (λ e, match e with openpyxl => inl 1 | xlrd => inr 2 end : nat + nat)
           true (py "list.xls") = Loaded df'.
Proof.
  apply (load_tries_both_engines _ (py "list.xls") openpyxl 1). reflexivity.
Defined.

Lemma load_prefers_engine_of_suffix_witness :
  load (λ e, match e with openpyxl => inl 1 | xlrd => inl 2 end : nat + nat)
    true (py "list.XLSX") = Loaded 1.
Proof.
  apply (load_prefers_engine_of_suffix _ (py "list.XLSX") 1). vm_compute. reflexivity.
Defined.

Lemma load_reports_last_error_witness :
  true = true
  ∧ ∃ e1 e2, (λ e, match e with openpyxl => inr 1 | xlrd => inr 2 end : nat + nat) xlrd = inr e1
      ∧ (λ e, match e with openpyxl => inr 1 | xlrd => inr 2 end : nat + nat) openpyxl = inr e2
      ∧ Some 1 = Some (if bool_decide (lower (pathlib.suffix (py "list.xls")) ∈ [XLSX; XLSM])
                       then e1 else e2).
Proof.
  apply (load_reports_last_error
           (λ e, match e with openpyxl => inr 1 | xlrd => inr 2 end : nat + nat)
           true (py "list.xls") (Some 1)).
  vm_compute. reflexivity.
Defined.

End excel_spec.

(** ** Writing back: what is left alone, and a name that cannot be saved *)

Module writeback_more.

Import writeback pathlib writeback_spec.

Section folder.
Context {content : Type}.
Implicit Types (w : world content) (v df : content).

(** X: saving the annotated table touches three paths at most - the
    spreadsheet, its backup, and for an [.xls] spreadsheet the [.xlsx] that is
    written.  Every other file of the folder is afterwards what it was. *)
Theorem save_annotated_keeps_other_files w w2 excel df q :
  save_annotated df excel w = Some (tt, w2) →
  q ≠ excel → q ≠ backup_path excel →
  q ≠ (if is_xls excel then with_suffix excel XLSX else excel) →
  files w2 !! q = files w !! q.
Proof.
  intros Hs Hq Hbk Htg. unfold backup_path in Hbk.
  change (save_annotated df excel w)
    with (match make_backup excel w with
          | Some (target, w') => to_excel df target w'
          | None => None
          end) in Hs.
  unfold make_backup in Hs. destruct (is_xls excel); cbv zeta in Hs.
  - rewrite clear_stale in Hs. unfold bind, rename, ret, to_excel in Hs.
    cbn [files log] in Hs.
    destruct (delete _ (files w) !! excel) as [v|]; [|done]. injection Hs as <-.
    cbn [files]. by rewrite !lookup_insert_ne, !lookup_delete_ne.
  - rewrite clear_stale in Hs. unfold bind, copy2, ret, to_excel in Hs.
    cbn [files log] in Hs.
    destruct (delete _ (files w) !! excel) as [v|]; [|done]. injection Hs as <-.
    cbn [files]. by rewrite !lookup_insert_ne, !lookup_delete_ne.
Qed.

(** X: a spreadsheet whose own suffix is [.backup] is never written back.
    Its backup path is the spreadsheet itself: what is found there is unlinked
    as a stale backup, the copy then finds no source and raises. *)
Theorem backup_named_spreadsheet_is_not_saved w excel df :
  suffix excel = BACKUP →
  backup_path excel = excel ∧ save_annotated df excel w = None.
Proof.
  intros Hsuf.
  assert (is_xls excel = false) as Hx.
  { unfold is_xls. rewrite Hsuf. by vm_compute. }
  assert (with_suffix excel BACKUP = excel) as Hbk.
  { rewrite with_suffix_stem, <- Hsuf. apply stem_suffix. }
  unfold backup_path. rewrite Hx. split; [done|].
  change (save_annotated df excel w)
    with (match make_backup excel w with
          | Some (target, w') => to_excel df target w'
          | None => None
          end).
  unfold make_backup. rewrite Hx. cbv zeta. rewrite clear_stale, Hbk.
  unfold bind, copy2. cbn [files log]. by rewrite lookup_delete_eq.
Qed.

End folder.

(** [notes.txt] is still there, with what it held. *)
Lemma save_annotated_keeps_other_files_witness :
  files shared_folder !! py "notes.txt" = Some 7
  ∧ save_annotated 3 (py "list.xlsx") shared_folder
    = Some (tt, {| files := <[py "list.xlsx" := 3]> (<[py "list.backup" := 2]>
                              (delete (py "list.backup") (files shared_folder)));
                   log := [Unlinked (py "list.backup");
                           Copied (py "list.xlsx") (py "list.backup");
                           Written (py "list.xlsx")] |})
  ∧ files {| files := <[py "list.xlsx" := 3]> (<[py "list.backup" := 2]>
                        (delete (py "list.backup") (files shared_folder)));
             log := [Unlinked (py "list.backup"); Copied (py "list.xlsx") (py "list.backup");
                     Written (py "list.xlsx")] |} !! py "notes.txt"
    = files shared_folder !! py "notes.txt".
Proof.
  split; [reflexivity|]. split; [vm_compute; reflexivity|].
  apply (save_annotated_keeps_other_files shared_folder _ (py "list.xlsx") 3 (py "notes.txt")).
  - vm_compute. reflexivity.
  - vm_compute. discriminate.
  - vm_compute. discriminate.
  - vm_compute. discriminate.
Defined.

Lemma backup_named_spreadsheet_is_not_saved_witness :
  backup_path (py "list.backup") = py "list.backup"
  ∧ save_annotated 3 (py "list.backup") third_run = None.
Proof.
  apply (backup_named_spreadsheet_is_not_saved third_run (py "list.backup") 3).
  vm_compute. reflexivity.
Defined.

End writeback_more.

(** ** Running the rename a second time *)

Module rerun_spec.

Import main.

(** X: a file the rename pipeline has named - prefix, name, ID, [.pdf] -
    carries no contract number any more when the name does not begin with a
    decimal digit: a second run skips it. *)
Theorem renamed_file_has_no_contract_number c name id_num :
  isdecimal c = false →
  extract_contract_number (PREFIX ++ (c :: name) ++ id_num ++ DOT_PDF) = None.
Proof.
  intros Hc. unfold extract_contract_number.
  destruct (re.match_ false pattern _) as [m|] eqn:Hm; [|done].
  apply grammar_a_spec.match_shape in Hm as (Hne & Hd & rest & E).
  apply app_inv_head in E. destruct (re.group m 1) as [|d ds]; [done|].
  injection E as -> _. apply Forall_cons in Hd as [Hd _]. congruence.
Qed.

Lemma renamed_file_has_no_contract_number_witness :
  extract_contract_number
    (PREFIX ++ (24352%N :: py "三") ++ py "110101199001011234" ++ DOT_PDF) = None.
Proof. apply renamed_file_has_no_contract_number. vm_compute. reflexivity. Defined.

End rerun_spec.
